(** * FragmentEngine scraper: a shallow embedding of scraper/scraper.js and
    scraper/extractors.js, with the properties of the crawl, extraction,
    aggregation and sync stages.

    Conventions.
    - A JavaScript string is a [string]: one [ascii] per UTF-16 code unit,
      so the texts covered are those whose code units are below 256
      (Latin-1).  [String.length] is then the JavaScript [length].
    - A JavaScript [Set] or [Map] keeps insertion order; they are lists
      without duplicates and association lists, extended at the end.
    - An optional property of an object is an [option]; [||] on a string
      tests for the empty string as well as for absence.
    - What the platform provides (crypto digests, the WHATWG URL parser, the
      HTML serializer, the clock, the document store, the web itself) is a
      field of a record or an oracle passed to the functions. *)

From Stdlib Require Import ZArith Ascii String List Permutation.
From stdpp Require Import base option list strings.

Local Open Scope string_scope.
Local Open Scope nat_scope.
Local Open Scope list_scope.
Local Set Warnings "-register-all,-abstract-large-number".

(* ===================================================================== *)
(** ** JavaScript string primitives                                       *)
(* ===================================================================== *)

Module Js.

Definition code (c : ascii) : nat := nat_of_ascii c.

(** [\s] of a regular expression, which is also what [trim] strips:
    TAB, LF, VT, FF, CR, SPACE and NBSP among the code units below 256. *)
Definition isSpace (c : ascii) : bool :=
  let n := code c in
  ((9 <=? n) && (n <=? 13)) || (n =? 32) || (n =? 160).

Definition isDigit (c : ascii) : bool :=
  let n := code c in (48 <=? n) && (n <=? 57).
Definition isLowerAZ (c : ascii) : bool :=
  let n := code c in (97 <=? n) && (n <=? 122).
Definition isUpperAZ (c : ascii) : bool :=
  let n := code c in (65 <=? n) && (n <=? 90).

(** [\w] is [[A-Za-z0-9_]]. *)
Definition isWord (c : ascii) : bool :=
  isLowerAZ c || isUpperAZ c || isDigit c || (code c =? 95).

(** [toLowerCase] on one code unit: A-Z, and the Latin-1 capitals
    U+00C0..U+00DE except the multiplication sign U+00D7. *)
Definition lowerChar (c : ascii) : ascii :=
  let n := code c in
  if isUpperAZ c then ascii_of_nat (n + 32)
  else if (192 <=? n) && (n <=? 222) && negb (n =? 215) then ascii_of_nat (n + 32)
  else c.

Fixpoint smap (f : ascii -> ascii) (s : string) : string :=
  match s with
  | EmptyString => EmptyString
  | String c r => String (f c) (smap f r)
  end.

Definition toLowerCase (s : string) : string := smap lowerChar s.

Definition isEmpty (s : string) : bool :=
  match s with EmptyString => true | _ => false end.

Fixpoint trimStart (s : string) : string :=
  match s with
  | EmptyString => EmptyString
  | String c r => if isSpace c then trimStart r else s
  end.

Fixpoint trimEnd (s : string) : string :=
  match s with
  | EmptyString => EmptyString
  | String c r =>
      let r' := trimEnd r in
      if isSpace c && isEmpty r' then EmptyString else String c r'
  end.

Definition trim (s : string) : string := trimEnd (trimStart s).

(** [s.replace(/\s+/g, ' ')]: [inRun] tells that the previous code unit
    was white space, whose run has already been replaced. *)
Fixpoint collapseFrom (inRun : bool) (s : string) : string :=
  match s with
  | EmptyString => EmptyString
  | String c r =>
      if isSpace c
      then (if inRun then collapseFrom true r else String " " (collapseFrom true r))
      else String c (collapseFrom false r)
  end.

Definition collapseSpaces (s : string) : string := collapseFrom false s.

(** [a || b] on strings. *)
Definition orElse (a b : string) : string := if isEmpty a then b else a.

(** [o || b] where the property may be absent. *)
Definition optOr (o : option string) (b : string) : string :=
  match o with Some a => orElse a b | None => b end.

(** Truthiness of an optional string property. *)
Definition truthy (o : option string) : bool :=
  match o with Some a => negb (isEmpty a) | None => false end.

(** [s.slice(0, n)]. *)
Definition sliceTo (n : nat) (s : string) : string := substring 0 n s.

(** [s.split(sep)] for a one-unit separator: never the empty list. *)
Fixpoint splitOn (sep : ascii) (s : string) : list string :=
  match s with
  | EmptyString => [EmptyString]
  | String c r =>
      if Ascii.eqb c sep then EmptyString :: splitOn sep r
      else match splitOn sep r with
           | w :: ws => String c w :: ws
           | [] => [String c EmptyString]
           end
  end.

(** [s.includes(t)] and [s.endsWith(t)]. *)
Fixpoint includes (t s : string) : bool :=
  String.prefix t s ||
  match s with
  | EmptyString => false
  | String _ r => includes t r
  end.

Fixpoint endsWith (t s : string) : bool :=
  String.eqb t s ||
  match s with
  | EmptyString => false
  | String _ r => endsWith t r
  end.

(** The number of pieces of [s.split(/\s+/)]: one more than the number of
    white-space runs. *)
Fixpoint spaceRuns (inRun : bool) (s : string) : nat :=
  match s with
  | EmptyString => 0
  | String c r =>
      if isSpace c
      then (if inRun then spaceRuns true r else S (spaceRuns true r))
      else spaceRuns false r
  end.

Definition splitSpacesLength (s : string) : nat := S (spaceRuns false s).

(** Every white-space code unit is the space itself. *)
Fixpoint plainSpaces (s : string) : Prop :=
  match s with
  | EmptyString => True
  | String c r => (isSpace c = true -> c = " "%char) /\ plainSpaces r
  end.

(** White space only. *)
Fixpoint allSpace (s : string) : bool :=
  match s with
  | EmptyString => true
  | String c r => isSpace c && allSpace r
  end.

End Js.

(* ===================================================================== *)
(** ** The parsed document (cheerio) and its selections                   *)
(* ===================================================================== *)

Module Dom.

(** A node of the tree [cheerio.load] builds: text, or an element with
    its lower-case tag name, attributes and children.  Comments carry
    nothing the scraper reads and are left out. *)
Inductive Node :=
| Text (data : string)
| Elem (name : string) (attribs : list (string * string)) (children : list Node).

Definition isTag (n : Node) : bool :=
  match n with Elem _ _ _ => true | Text _ => false end.

Definition tagName (n : Node) : string :=
  match n with Elem t _ _ => t | Text _ => "" end.

Definition childNodes (n : Node) : list Node :=
  match n with Elem _ _ cs => cs | Text _ => [] end.

Fixpoint assoc (k : string) (l : list (string * string)) : option string :=
  match l with
  | [] => None
  | (k', v) :: r => if String.eqb k k' then Some v else assoc k r
  end.

(** [$(n).attr(name)] *)
Definition attr (a : string) (n : Node) : option string :=
  match n with Elem _ attrs _ => assoc a attrs | Text _ => None end.

(** [$(n).text()]: the text nodes below [n], in document order. *)
Fixpoint text (n : Node) : string :=
  match n with
  | Text d => d
  | Elem _ _ cs =>
      (fix texts (l : list Node) : string :=
         match l with
         | [] => ""
         | c :: r => text c +:+ texts r
         end) cs
  end.

(** [$(sel).text()] of a selection: the texts of its members, joined. *)
Definition textOf (l : list Node) : string :=
  fold_right (fun n acc => text n +:+ acc) "" l.

(** The words of a [class] attribute (split at white space). *)
Fixpoint wordsFrom (cur : string) (s : string) : list string :=
  match s with
  | EmptyString => if Js.isEmpty cur then [] else [cur]
  | String c r =>
      if Js.isSpace c
      then (if Js.isEmpty cur then wordsFrom "" r else cur :: wordsFrom "" r)
      else wordsFrom (cur +:+ String c "") r
  end.

Definition classList (n : Node) : list string :=
  match attr "class" n with Some v => wordsFrom "" v | None => [] end.

Definition hasClass (c : string) (n : Node) : bool :=
  existsb (String.eqb c) (classList n).

(** *** Selectors

    The selectors of the scraper, as data: a selector is a comma list
    of descendant chains of compound selectors. *)
Inductive Simple :=
| Any                               (* [*] *)
| Tag (t : string)                  (* [h1] *)
| Id (i : string)                   (* [#main-content] *)
| Class (c : string)                (* [.alert] *)
| AttrEq (a v : string)             (* [[role="alert"]] *)
| AttrHas (a v : string).           (* [[class*="breadcrumb"]] *)

Definition Compound := list Simple.
(** A chain [c1 c2 ... cn], the subject [cn] first: [cn; ...; c1]. *)
Definition Chain := list Compound.
Definition Selector := list Chain.

Definition matchSimple (s : Simple) (n : Node) : bool :=
  isTag n &&
  match s with
  | Any => true
  | Tag t => String.eqb t (tagName n)
  | Id i => match attr "id" n with Some v => String.eqb i v | None => false end
  | Class c => hasClass c n
  | AttrEq a v => match attr a n with Some w => String.eqb v w | None => false end
  | AttrHas a v =>
      match attr a n with
      | Some w => negb (Js.isEmpty v) && Js.includes v w
      | None => false
      end
  end.

Definition matchCompound (c : Compound) (n : Node) : bool :=
  isTag n && forallb (fun s => matchSimple s n) c.

(** The rest of a chain against the ancestors, nearest first: every
    compound needs some ancestor, further out than the one before. *)
Fixpoint matchAncestors (rest : Chain) (ancestors : list Node) : bool :=
  match rest with
  | [] => true
  | c :: rest' =>
      (fix up (l : list Node) : bool :=
         match l with
         | [] => false
         | a :: l' => if matchCompound c a then matchAncestors rest' l' else up l'
         end) ancestors
  end.

Definition matchChain (ch : Chain) (ancestors : list Node) (n : Node) : bool :=
  match ch with
  | [] => false
  | subject :: rest => matchCompound subject n && matchAncestors rest ancestors
  end.

(** [$(n).is(sel)], given the ancestors of [n], nearest first. *)
Definition matches (sel : Selector) (ancestors : list Node) (n : Node) : bool :=
  existsb (fun ch => matchChain ch ancestors n) sel.

(** A selector of compounds only needs no ancestors. *)
Definition isSel (sel : Selector) (n : Node) : bool := matches sel [] n.

(** *** Places in a document

    A node of a document is known by its path: the child indices from
    the root.  A selection is a list of paths in document order. *)
Definition Path := list nat.

Fixpoint nodeAt (root : Node) (p : Path) : option Node :=
  match p with
  | [] => Some root
  | i :: p' =>
      match nth_error (childNodes root) i with
      | Some c => nodeAt c p'
      | None => None
      end
  end.

(** The ancestors of the node at [p], nearest first. *)
Fixpoint ancestorsAcc (root : Node) (p : Path) (acc : list Node) : list Node :=
  match p with
  | [] => acc
  | i :: p' =>
      match nth_error (childNodes root) i with
      | Some c => ancestorsAcc c p' (root :: acc)
      | None => acc
      end
  end.

Definition ancestors (root : Node) (p : Path) : list Node := ancestorsAcc root p [].

(** The elements strictly below the node [n] at path [p], in document
    order. *)
Fixpoint below (n : Node) (p : Path) : list Path :=
  match n with
  | Text _ => []
  | Elem _ _ cs =>
      (fix go (l : list Node) (i : nat) : list Path :=
         match l with
         | [] => []
         | c :: r =>
             (if isTag c then [p ++ [i]] else []) ++ below c (p ++ [i]) ++ go r (S i)
         end) cs 0
  end.

Definition matchesAt (root : Node) (sel : Selector) (p : Path) : bool :=
  match nodeAt root p with
  | Some n => matches sel (ancestors root p) n
  | None => false
  end.

(** [$(sel)] on the whole document. *)
Definition select (root : Node) (sel : Selector) : list Path :=
  filter (fun p => matchesAt root sel p = true)
         ((if isTag root then [[]] else []) ++ below root []).

(** [$(at p).find(sel)] *)
Definition find (root : Node) (p : Path) (sel : Selector) : list Path :=
  match nodeAt root p with
  | Some n => filter (fun q => matchesAt root sel q = true) (below n p)
  | None => []
  end.

(** [$(n).find(sel)] on a detached tree, as nodes. *)
Definition findNodes (n : Node) (sel : Selector) : list Node :=
  omap (nodeAt n) (find n [] sel).

Definition nodesAt (root : Node) (ps : list Path) : list Node :=
  omap (nodeAt root) ps.

Definition parentPath (p : Path) : option Path :=
  match p with [] => None | _ => Some (removelast p) end.

Definition indexInParent (p : Path) : nat := List.last p 0.

(** The element children of the node at [p]. *)
Definition children (root : Node) (p : Path) : list Path :=
  match nodeAt root p with
  | Some n =>
      omap (fun ic => if isTag (snd ic) then Some (p ++ [fst ic]) else None)
           (imap (fun i c => (i, c)) (childNodes n))
  | None => []
  end.

(** The siblings after the node at [p], nearest first, text included. *)
Definition siblingsAfter (root : Node) (p : Path) : list Path :=
  match parentPath p with
  | Some pp =>
      match nodeAt root pp with
      | Some par =>
          let i := indexInParent p in
          map (fun j => pp ++ [j]) (seq (S i) (length (childNodes par) - S i))
      | None => []
      end
  | None => []
  end.

(** The siblings before the node at [p], nearest first. *)
Definition siblingsBefore (root : Node) (p : Path) : list Path :=
  match parentPath p with
  | Some pp => map (fun j => pp ++ [j]) (rev (seq 0 (indexInParent p)))
  | None => []
  end.

Definition isTagAt (root : Node) (p : Path) : bool :=
  match nodeAt root p with Some n => isTag n | None => false end.

Definition pathEqb (p q : Path) : bool := bool_decide (p = q).

Fixpoint takeUntil (stop : Path) (l : list Path) : list Path :=
  match l with
  | [] => []
  | q :: r => if pathEqb q stop then [] else q :: takeUntil stop r
  end.

(** [$(at p).nextUntil(until, filter)]: the element siblings after [p],
    up to the node [until] when it is among them, kept when they match
    [filter]. *)
Definition nextUntil (root : Node) (p : Path) (until : option Path)
    (flt : Selector) : list Path :=
  let sibs := siblingsAfter root p in
  let upto := match until with Some u => takeUntil u sibs | None => sibs end in
  filter (fun q => (isTagAt root q && matchesAt root flt q) = true) upto.

(** [$(at p).prevAll(sel)]: the element siblings before [p], nearest
    first, that match [sel]. *)
Definition prevAll (root : Node) (p : Path) (sel : Selector) : list Path :=
  filter (fun q => (isTagAt root q && matchesAt root sel q) = true)
         (siblingsBefore root p).

(** The selectors of the source, by name. *)
Definition tags (l : list string) : Selector := map (fun t => [[Tag t]]) l.
Definition headingsSel : Selector := tags ["h1"; "h2"; "h3"; "h4"].

End Dom.

(* ===================================================================== *)
(** ** Platform                                                           *)
(* ===================================================================== *)

(** What [new URL(...)] exposes.  [search] and [hash] are the query and the
    fragment of the URL record, [None] when null (after [u.search = '']
    and [u.hash = '']). *)
Record URL := mkURL {
  protocol : string;      (* with the colon: "https:" *)
  hostname : string;
  origin : string;
  pathname : string;
  search : option string;
  hash : option string
}.

Record Platform := mkPlatform {
  (** [crypto.createHash('md5').update(s).digest('hex')] *)
  md5_hex : string -> string;
  (** [crypto.createHash('sha256').update(s).digest('hex')] *)
  sha256_hex : string -> string;
  (** [new URL(input)] and [new URL(input, base)]; [None] when it throws. *)
  new_URL : string -> option string -> option URL;
  (** [u.toString()] *)
  URL_toString : URL -> string;
  (** The serializer behind cheerio's [html()]: one node, with its tags. *)
  outerHTML : Dom.Node -> string;
  (** [extractKeywords] of extractors.js, uninterpreted: the order of its
      result follows the key order of a JavaScript object, and nothing
      below depends on which words it returns. *)
  extractKeywords : string -> list string
}.

(* ===================================================================== *)
(** ** extractors.js: content hash                                        *)
(* ===================================================================== *)

Section ContentHash.
Context (P : Platform).

(** [/[^\w\s]/g -> ' '] *)
Definition punctToSpace (c : ascii) : ascii :=
  if Js.isWord c || Js.isSpace c then c else " "%char.

(** The normalization inside [calculateContentHash]: lowercase, replace
    what is neither a word character nor white space by a space,
    collapse white space, trim. *)
Definition normalizeContent (text : string) : string :=
  Js.trim (Js.collapseSpaces (Js.smap punctToSpace (Js.toLowerCase text))).

(** [calculateContentHash(text)]; [None] is [null].  The argument is
    always a string here, so [typeof text !== 'string'] is false. *)
Definition calculateContentHash (text : string) : option string :=
  if Js.isEmpty text || (String.length (Js.trim text) =? 0) then None
  else
    let normalized := normalizeContent text in
    if String.length normalized =? 0 then None
    else Some (sha256_hex P normalized).

End ContentHash.

(* ===================================================================== *)
(** ** Fragments                                                          *)
(* ===================================================================== *)

(** The fields [enrichWithTaxonomy] decides. *)
Record Taxonomy := mkTaxonomy {
  tx_life_events : list string;
  tx_categories : list string;
  tx_states : list string;
  tx_provider : option string;
  tx_governance : option string;
  tx_stage : option string;
  tx_stage_variant : option string
}.

Module Frag.

(** The object the extractors return and the enricher completes.  A
    field the object may lack is an [option].  The presentation fields
    ([styles_raw], [classes]) and [reading_level] (a floating-point
    formula over the syllable package) are not read by any later stage
    and are left out. *)
Record Raw := mkRaw {
  id : string;
  url : string;
  anchor : option string;
  title : string;
  content_text : string;
  content_html : string;
  site_hierarchy : list string;
  page_hierarchy : list string;
  hierarchy_lvl0 : option string;
  hierarchy_lvl1 : option string;
  hierarchy_lvl2 : option string;
  hierarchy_lvl3 : option string;
  life_events : option (list string);
  categories : option (list string);
  states : option (list string);
  provider : option string;
  governance : option string;
  stage : option string;
  stage_variant : option string;
  component_type : string;
  has_form : option bool;
  has_checklist : option bool;
  content_hash : option string;       (* [None]: null, or no such field *)
  last_modified : Z;
  search_keywords : option (list string);
  popularity_score : option Z         (* [None]: NaN, or no such field *)
}.

(** The document pushed on [this.fragments]:
    [{...enrichedFragment, crawl_version, last_seen_at, popularity_sort}],
    with [page_url] on the heading path only. *)
Record Fragment := mkFragment {
  raw : Raw;
  crawl_version : Z;
  last_seen_at : Z;
  popularity_sort : Z;
  page_url : option string
}.

(** The identifier of a pushed fragment. *)
Definition idOf (f : Fragment) : string := id (raw f).

Definition withTaxonomy (f : Raw) (t : Taxonomy) : Raw :=
  {| id := id f; url := url f; anchor := anchor f; title := title f;
     content_text := content_text f; content_html := content_html f;
     site_hierarchy := site_hierarchy f; page_hierarchy := page_hierarchy f;
     hierarchy_lvl0 := hierarchy_lvl0 f; hierarchy_lvl1 := hierarchy_lvl1 f;
     hierarchy_lvl2 := hierarchy_lvl2 f; hierarchy_lvl3 := hierarchy_lvl3 f;
     life_events := Some (tx_life_events t);
     categories := Some (tx_categories t);
     states := Some (tx_states t);
     provider := tx_provider t;
     governance := tx_governance t;
     stage := tx_stage t;
     stage_variant := tx_stage_variant t;
     component_type := component_type f;
     has_form := has_form f; has_checklist := has_checklist f;
     content_hash := content_hash f; last_modified := last_modified f;
     search_keywords := search_keywords f;
     popularity_score := popularity_score f |}.

End Frag.

(** Modelled from the spec: [enrichWithTaxonomy] of scraper/taxonomies.js,
    which is not among the sources.  Section 4.3: given a fragment's title
    and text it returns the category set, the provider and governance
    label, the state set (and the life-event, stage and variant match);
    it returns the fragment with these fields set and no other field
    touched.  [None]: the call throws. *)
Definition Enricher := Frag.Raw -> option Taxonomy.

Definition enrichWithTaxonomy (classify : Enricher) (f : Frag.Raw) : option Frag.Raw :=
  match classify f with
  | Some t => Some (Frag.withTaxonomy f t)
  | None => None
  end.

(* ===================================================================== *)
(** ** extractors.js: extractFragment                                     *)
(* ===================================================================== *)

(** A cheerio selection of one element, with what [prevAll] walks: its
    siblings before it, nearest first. *)
Record Located := mkLocated {
  node : Dom.Node;
  prevSiblings : list Dom.Node
}.

Section Extractors.
Context (P : Platform).

Import Dom.

(** [parseInt($heading[0].name.substring(1))]; [None] is NaN. *)
Fixpoint digitsValue (acc : option nat) (s : string) : option nat :=
  match s with
  | EmptyString => acc
  | String c r =>
      if Js.isDigit c
      then digitsValue (Some (10 * default 0 acc + (Js.code c - 48))) r
      else acc
  end.

Definition headingLevelOf (n : Node) : option nat :=
  match tagName n with
  | EmptyString => None
  | String _ r => digitsValue None r
  end.

(** [breadcrumbs[breadcrumbs.length - 1]] *)
Definition lastCrumb (breadcrumbs : list string) : option string :=
  List.last (map Some breadcrumbs) None.

(** [$heading.prevAll(tag).first().text()] *)
Definition prevHeadingText (h : Located) (tag : string) : string :=
  match filter (fun n => isSel (tags [tag]) n = true) (prevSiblings h) with
  | n :: _ => text n
  | [] => ""
  end.

Record Hierarchy := mkHierarchy {
  lvl0 : option string;
  lvl1 : option string;
  lvl2 : option string;
  lvl3 : option string
}.

Definition buildHierarchy (h : Located) (headingText : string)
    (breadcrumbs : list string) (pageTitle : string) : Hierarchy :=
  let inherited := Js.optOr (lastCrumb breadcrumbs) (Js.orElse pageTitle "Content") in
  let levels :=
    match headingLevelOf (node h) with
    | Some 1 =>
        mkHierarchy (Some (Js.orElse headingText (Js.orElse pageTitle "Content")))
                    None None None
    | Some 2 =>
        mkHierarchy (Some inherited) (Some (Js.orElse headingText "Section")) None None
    | Some 3 =>
        mkHierarchy (Some inherited)
                    (Some (Js.orElse (prevHeadingText h "h2") "Section"))
                    (Some (Js.orElse headingText "Subsection")) None
    | _ =>
        mkHierarchy (Some inherited)
                    (Some (Js.orElse (prevHeadingText h "h2") "Section"))
                    (Some (Js.orElse (prevHeadingText h "h3") "Subsection"))
                    (Some (Js.orElse headingText "Item"))
    end in
  (* Fallback: if hierarchy_lvl0 is still empty, set a default *)
  if Js.truthy (lvl0 levels) then levels
  else mkHierarchy (Some "Content") (lvl1 levels) (lvl2 levels) (lvl3 levels).

(** [extractSiteHierarchy(url)], the same in both files. *)
Definition extractSiteHierarchy (url : string) : list string :=
  match new_URL P url None with
  | Some u =>
      hostname u :: filter (fun p => Js.isEmpty p = false) (Js.splitOn "/" (pathname u))
  | None => []
  end.

Definition found (container : Node) (sel : Selector) : bool :=
  negb (Nat.eqb (length (find container [] sel)) 0).

(** [detectComponentType($container)] of extractors.js *)
Definition detectComponentType (container : Node) : string :=
  if found container (tags ["form"]) then "form"
  else if found container (tags ["table"]) then "table"
  else if found container [[[Class "checklist"]]; [[Tag "ol"; Class "steps"]]] then "checklist"
  else if found container [[[Class "alert"]]; [[AttrEq "role" "alert"]]] then "alert"
  else if found container [[[Class "card"]]; [[Class "info-box"]]] then "card"
  else if found container [[[Tag "video"]]; [[Tag "iframe"; AttrHas "src" "youtube"]]] then "video"
  else "content".

(** [calculatePopularityScore($container, headingLevel)]; a NaN level
    makes the score NaN. *)
Definition calculatePopularityScore (container : Node) (level : option nat)
    : option Z :=
  match level with
  | None => None
  | Some l =>
      let s0 := (100 - (Z.of_nat l - 1) * 10)%Z in
      let s1 := if found container (tags ["form"]) then (s0 + 20)%Z else s0 in
      let s2 := if found container [[[Class "alert"]]; [[Class "warning"]]]
                then (s1 + 15)%Z else s1 in
      let s3 := if found container (tags ["ol"; "ul"]) then (s2 + 10)%Z else s2 in
      let s4 := if found container (tags ["table"]) then (s3 + 10)%Z else s3 in
      let wordCount := Js.splitSpacesLength (text container) in
      let s5 := if (50 <? wordCount) && (wordCount <? 500) then (s4 + 10)%Z else s4 in
      Some (Z.max 0 (Z.min 100 s5))
  end.

(** [$container.html()]: the serialized children. *)
Definition innerHTML (n : Node) : string :=
  fold_right (fun c acc => outerHTML P c +:+ acc) "" (childNodes n).

(** The digest both extractors take as identifier, as a function of the
    URL and of a heading text and a content text. *)
Definition identityOf (url headingText contentText : string) : string :=
  md5_hex P (url +:+ headingText +:+ contentText).

(** [extractFragment({$heading, $content, $, url, breadcrumbs, pageTitle,
    page})]; [now] is the reading of the clock. *)
Definition extractFragment (h : Located) (content : list Node) (url : string)
    (breadcrumbs : list string) (pageTitle : string) (now : Z) : Frag.Raw :=
  let headingText := Js.trim (text (node h)) in
  let contentText := Js.trim (textOf content) in
  let id := md5_hex P (url +:+ headingText +:+ contentText) in
  let headingLevel := headingLevelOf (node h) in
  let hierarchyLevels := buildHierarchy h headingText breadcrumbs pageTitle in
  let container := Elem "div" [("class", "content-fragment")] (node h :: content) in
  let anchor := Js.optOr (attr "id" (node h)) id in
  {| Frag.id := id;
     Frag.url := url +:+ "#" +:+ anchor;
     Frag.anchor := Some anchor;
     Frag.title := Js.orElse headingText "Untitled";
     Frag.content_text := contentText;
     Frag.content_html := innerHTML container;
     Frag.site_hierarchy := extractSiteHierarchy url;
     Frag.page_hierarchy :=
       filter (fun s => Js.isEmpty s = false) (breadcrumbs ++ [headingText]);
     Frag.hierarchy_lvl0 := lvl0 hierarchyLevels;
     Frag.hierarchy_lvl1 := lvl1 hierarchyLevels;
     Frag.hierarchy_lvl2 := lvl2 hierarchyLevels;
     Frag.hierarchy_lvl3 := lvl3 hierarchyLevels;
     Frag.life_events := Some [];
     Frag.categories := Some [];
     Frag.states := Some ["National"];
     Frag.provider := None;
     Frag.governance := None;
     Frag.stage := None;
     Frag.stage_variant := None;
     Frag.component_type := detectComponentType container;
     Frag.has_form := Some (found container (tags ["form"]));
     Frag.has_checklist :=
       Some (found container [[[Tag "ol"]]; [[Tag "ul"; Class "checklist"]]]);
     Frag.content_hash := calculateContentHash P contentText;
     Frag.last_modified := now;
     Frag.search_keywords := Some (extractKeywords P contentText);
     Frag.popularity_score := calculatePopularityScore container headingLevel |}.

End Extractors.

(* ===================================================================== *)
(** ** scraper.js: from a page to its fragments                           *)
(* ===================================================================== *)

Section Scraper.
Context (P : Platform).
(** [const CRAWL_VERSION = Math.floor(Date.now() / 1000)], read once when
    the module is loaded. *)
Context (CRAWL_VERSION : Z).
Context (classify : Enricher).

Import Dom.

(** [baseUrl(url)] *)
Definition baseUrl (url : string) : string :=
  match new_URL P url None with
  | Some u =>
      URL_toString P
        {| protocol := protocol u; hostname := hostname u; origin := origin u;
           pathname := pathname u; search := None; hash := None |}
  | None => List.hd "" (Js.splitOn "#" url)
  end.

Definition breadcrumbSelectors : list Selector :=
  [ [[[Tag "li"]; [Class "breadcrumb"]]];
    [[[Tag "li"]; [Tag "nav"; AttrEq "aria-label" "breadcrumb"]]];
    [[[Tag "li"]; [Class "breadcrumbs"]]];
    [[[Tag "li"]; [AttrHas "class" "breadcrumb"]]] ].

(** The first selection of the list that is not empty. *)
Fixpoint firstHit (root : Node) (sels : list Selector) : list Path :=
  match sels with
  | [] => []
  | s :: r =>
      match select root s with
      | [] => firstHit root r
      | hit => hit
      end
  end.

Definition keepCrumb (t : string) : bool :=
  negb (Js.isEmpty t) && negb (String.eqb t ">") && negb (String.eqb t "/").

(** [extractBreadcrumbs($)] *)
Definition extractBreadcrumbs (root : Node) : list string :=
  filter (fun t => keepCrumb t = true)
         (map (fun n => Js.trim (text n)) (nodesAt root (firstHit root breadcrumbSelectors))).

Definition mainSelectors : list Selector :=
  [ tags ["main"]; [[[Id "main-content"]]]; [[[Class "main-content"]]]; tags ["article"] ].

(** [$main]: the first match of the first selector that has one, or
    [$('body')]. *)
Definition mainOf (root : Node) : option Path :=
  match firstHit root mainSelectors with
  | p :: _ => Some p
  | [] => List.hd_error (select root (tags ["body"]))
  end.

Definition contentSel : Selector :=
  [ [[Tag "p"]]; [[Tag "ul"]]; [[Tag "ol"]]; [[Tag "div"; Class "content"]];
    [[Class "info-box"]]; [[Tag "table"]]; [[Tag "form"]] ].

Definition nodeOr (root : Node) (p : Path) : Node :=
  default (Text "") (nodeAt root p).

(** [$content] of the heading at [hp]: its following siblings up to the
    next heading, or, when there are none and the parent is a [div],
    [section] or [article], the parent's children that are not
    headings. *)
Definition contentOf (root : Node) (hp : Path) (nextHeading : option Path)
    : list Path :=
  let c := nextUntil root hp nextHeading contentSel in
  let parentOk :=
    match parentPath hp with
    | Some pp => isSel (tags ["div"; "section"; "article"]) (nodeOr root pp)
    | None => false
    end in
  if (length c =? 0) && parentOk
  then match parentPath hp with
       | Some pp =>
           filter (fun q => isSel headingsSel (nodeOr root q) = false) (children root pp)
       | None => c
       end
  else c.

Definition locate (root : Node) (p : Path) : Located :=
  {| node := nodeOr root p; prevSiblings := nodesAt root (siblingsBefore root p) |}.

(** [100 - (enrichedFragment.popularity_score || 0)] *)
Definition popularitySortOf (f : Frag.Raw) : Z :=
  (100 - default 0 (Frag.popularity_score f))%Z.

(** One turn of the heading loop: the fragments it pushes (one or none). *)
Definition headingFragment (root : Node) (url : string) (breadcrumbs : list string)
    (pageTitle : string) (now : Z) (hp : Path) (nextHeading : option Path)
    : list Frag.Fragment :=
  let content := contentOf root hp nextHeading in
  if negb (length content =? 0) || isSel (tags ["h1"]) (nodeOr root hp)
  then
    let fragment :=
      extractFragment P (locate root hp) (nodesAt root content) url
                      breadcrumbs pageTitle now in
    match enrichWithTaxonomy classify fragment with
    | Some enrichedFragment =>
        [ {| Frag.raw := enrichedFragment;
             Frag.crawl_version := CRAWL_VERSION;
             Frag.last_seen_at := now;
             Frag.popularity_sort := popularitySortOf enrichedFragment;
             Frag.page_url := Some (baseUrl url) |} ]
    | None => []          (* caught: "Continue with other fragments" *)
    end
  else [].

(** [headings[i]] with [headings[i + 1]]. *)
Fixpoint withNext (l : list Path) : list (Path * option Path) :=
  match l with
  | [] => []
  | h :: r => (h, List.hd_error r) :: withNext r
  end.

(** [detectComponentType($elem)] of scraper.js *)
Definition detectComponentTypeOf (elem : Node) : string :=
  if isSel (tags ["form"]) elem || found elem (tags ["form"]) then "form"
  else if isSel (tags ["table"]) elem || found elem (tags ["table"]) then "table"
  else if hasClass "checklist" elem || found elem [[[Tag "ol"; Class "steps"]]]
  then "checklist"
  else if hasClass "alert" elem || isSel [[[AttrEq "role" "alert"]]] elem then "alert"
  else if hasClass "info-box" elem || hasClass "info-panel" elem then "info_box"
  else "content".

(** [extractStandaloneFragment($elem, url, breadcrumbs)] *)
Definition extractStandaloneFragment (elem : Node) (url : string)
    (breadcrumbs : list string) (now : Z) : Frag.Raw :=
  let id := md5_hex P (url +:+ text elem) in
  let title :=
    Js.orElse
      (match findNodes elem headingsSel with n :: _ => text n | [] => "" end)
      (Js.optOr (attr "aria-label" elem) "Important Information") in
  {| Frag.id := id;
     Frag.url := url +:+ "#" +:+ id;
     Frag.anchor := None;
     Frag.title := title;
     Frag.content_text := Js.trim (text elem);
     Frag.content_html := innerHTML P elem;
     Frag.site_hierarchy := extractSiteHierarchy P url;
     Frag.page_hierarchy := breadcrumbs;
     Frag.hierarchy_lvl0 :=
       Some (Js.optOr (lastCrumb breadcrumbs) (Js.orElse title "Content"));
     Frag.hierarchy_lvl1 := None;
     Frag.hierarchy_lvl2 := None;
     Frag.hierarchy_lvl3 := None;
     Frag.life_events := None;
     Frag.categories := None;
     Frag.states := None;
     Frag.provider := None;
     Frag.governance := None;
     Frag.stage := None;
     Frag.stage_variant := None;
     Frag.component_type := detectComponentTypeOf elem;
     Frag.has_form := None;
     Frag.has_checklist := None;
     Frag.content_hash := None;
     Frag.last_modified := now;
     Frag.search_keywords := None;
     Frag.popularity_score := None |}.

Definition standaloneSelectors : list Selector :=
  [ [[[Class "alert"]]]; [[[Class "warning-box"]]]; [[[Class "info-panel"]]];
    [[[AttrEq "role" "alert"]]]; [[[Class "checklist"]]]; [[[Class "step-list"]]] ].

(** One turn of the inner standalone loop. *)
Definition standaloneFragment (root : Node) (url : string)
    (breadcrumbs : list string) (now : Z) (ep : Path) : list Frag.Fragment :=
  let fragment := extractStandaloneFragment (nodeOr root ep) url breadcrumbs now in
  match enrichWithTaxonomy classify fragment with
  | Some enrichedFragment =>
      [ {| Frag.raw := enrichedFragment;
           Frag.crawl_version := CRAWL_VERSION;
           Frag.last_seen_at := now;
           Frag.popularity_sort := popularitySortOf enrichedFragment;
           Frag.page_url := None |} ]
  | None => []            (* caught: "Continue with other elements" *)
  end.

Definition headingFragments (root : Node) (url : string) (now : Z)
    : list Frag.Fragment :=
  match mainOf root with
  | Some main =>
      let pageTitle := textOf (nodesAt root (select root (tags ["title"]))) in
      let breadcrumbs := extractBreadcrumbs root in
      concat (map (fun hn => headingFragment root url breadcrumbs pageTitle now
                                             (fst hn) (snd hn))
                  (withNext (find root main headingsSel)))
  | None => []
  end.

Definition standaloneFragments (root : Node) (url : string) (now : Z)
    : list Frag.Fragment :=
  match mainOf root with
  | Some main =>
      let breadcrumbs := extractBreadcrumbs root in
      concat (map (fun sel =>
                     concat (map (standaloneFragment root url breadcrumbs now)
                                 (find root main sel)))
                  standaloneSelectors)
  | None => []
  end.

(** [extractFragments($, url, page)]: the heading fragments in document
    order, then the standalone ones, selector by selector.  [now] is the
    clock, read once for the page. *)
Definition extractFragments (root : Node) (url : string) (now : Z)
    : list Frag.Fragment :=
  headingFragments root url now ++ standaloneFragments root url now.

End Scraper.

(* ===================================================================== *)
(** ** scraper.js: page aggregation                                       *)
(* ===================================================================== *)

(** A JavaScript [Set] of strings: insertion order, no duplicates. *)
Definition setAdd (x : string) (s : list string) : list string :=
  if decide (x ∈ s) then s else s ++ [x].

Definition setAddAll (xs : list string) (s : list string) : list string :=
  fold_left (fun acc x => setAdd x acc) xs s.

(** [if (x) set.add(x)] for an optional string property. *)
Definition setAddTruthy (o : option string) (s : list string) : list string :=
  match o with
  | Some x => if Js.isEmpty x then s else setAdd x s
  | None => s
  end.

(** [map.set(k, (map.get(k) || 0) + 1)] on a [Map] in insertion order. *)
Fixpoint countUp (k : string) (m : list (string * nat)) : list (string * nat) :=
  match m with
  | [] => [(k, 1)]
  | (k', n) :: r => if String.eqb k' k then (k', S n) :: r else (k', n) :: countUp k r
  end.

(** [entries.sort((a, b) => b[1] - a[1])]: the sort is stable, so it is
    the insertion sort that puts an entry before the first one that does
    not count more. *)
Fixpoint insertByCount (x : string * nat) (l : list (string * nat))
    : list (string * nat) :=
  match l with
  | [] => [x]
  | y :: r => if snd y <=? snd x then x :: y :: r else y :: insertByCount x r
  end.

Definition sortByCountDesc (l : list (string * nat)) : list (string * nat) :=
  fold_right insertByCount [] l.

(** [map.get(k) || 0] *)
Fixpoint countOf (k : string) (m : list (string * nat)) : nat :=
  match m with
  | [] => 0
  | (k', n) :: r => if String.eqb k' k then n else countOf k r
  end.

(** A count map is well formed: distinct keys, none of them empty, and
    every entry holds the count of its key, which is positive. *)
Definition wellCounted (m : list (string * nat)) : Prop :=
  NoDup (map fst m)
  /\ forall k n, (k, n) ∈ m -> k <> "" /\ 0 < n /\ countOf k m = n.

(** The entry a stable descending sort puts first: the first of those
    with the highest count. *)
Fixpoint firstMax (m : list (string * nat)) : option (string * nat) :=
  match m with
  | [] => None
  | x :: r =>
      match firstMax r with
      | None => Some x
      | Some y => if snd y <=? snd x then Some x else Some y
      end
  end.

Module Embedding.

Local Open Scope Z_scope.

(** [normalizeText(text)] of scraper.js: [[^a-z0-9\s]] to a space. *)
Definition alnumOrSpace (c : ascii) : ascii :=
  if Js.isLowerAZ c || Js.isDigit c || Js.isSpace c then c else " "%char.

Definition normalizeText (text : string) : string :=
  Js.trim (Js.collapseSpaces (Js.smap alnumOrSpace (Js.toLowerCase text))).

(** A product of two integers as the double it is stored in: exact up to
    53 bits, rounded to nearest, ties to even, beyond. *)
Definition roundDouble (z : Z) : Z :=
  let a := Z.abs z in
  if a <? 2 ^ 53 then z
  else
    let e := Z.log2 a + 1 - 53 in
    let q := Z.shiftr a e in
    let r := a - Z.shiftl q e in
    let half := 2 ^ (e - 1) in
    let q' := if (half <? r) || ((r =? half) && Z.odd q) then q + 1 else q in
    Z.sgn z * Z.shiftl q' e.

(** [ToInt32] of an integer below [2^32]. *)
Definition toInt32 (z : Z) : Z :=
  let m := z mod 2 ^ 32 in if m <? 2 ^ 31 then m else m - 2 ^ 32.

(** One turn of the inner loop:
    [h ^= t.charCodeAt(i); h = (h * 16777619) >>> 0]. *)
Definition hashStep (h : Z) (c : ascii) : Z :=
  let x := toInt32 (Z.lxor h (Z.of_nat (Js.code c))) in
  roundDouble (x * 16777619) mod 2 ^ 32.

Fixpoint hashFrom (h : Z) (t : string) : Z :=
  match t with
  | EmptyString => h
  | String c r => hashFrom (hashStep h c) r
  end.

Definition tokenHash (t : string) : Z := hashFrom 2166136261 t.

Definition tokens (text : string) : list string :=
  filter (fun t => Js.isEmpty t = false) (Js.splitOn " " (normalizeText text)).

(** The words of a text, read directly: its maximal runs of code units
    that are not white space. *)
Definition startsWord (s : string) : bool :=
  match s with
  | String c _ => negb (Js.isSpace c)
  | EmptyString => false
  end.

Fixpoint words (s : string) : list string :=
  match s with
  | EmptyString => []
  | String c r =>
      if Js.isSpace c then words r
      else if startsWord r
           then match words r with
                | w :: ws => String c w :: ws
                | [] => [String c EmptyString]
                end
           else String c EmptyString :: words r
  end.

Definition bump (vec : list nat) (idx : nat) : list nat :=
  alter S idx vec.

(** [buildHashedEmbedding(text, dim)] before its last two lines: the
    bucket counts.  The embedding itself is this vector divided by its
    Euclidean norm (by 1 when the norm is 0), a floating-point
    computation that reads nothing else. *)
Definition bucketCounts (text : string) (dim : nat) : list nat :=
  fold_left (fun vec t => bump vec (Z.to_nat (tokenHash t mod Z.of_nat dim)))
            (tokens text) (replicate dim 0%nat).

End Embedding.

(** [html.matchAll(re)] for the regular expression of [buildPageDocs]:
    href, white space, an equals sign, white space, then a capture of one
    or more code units between double quotes; flags g and i. *)
Module Href.

Definition dquote : ascii := "034"%char.

Fixpoint spanNotQuote (s : string) : string * string :=
  match s with
  | EmptyString => (EmptyString, EmptyString)
  | String c r =>
      if Ascii.eqb c dquote then (EmptyString, s)
      else let '(a, b) := spanNotQuote r in (String c a, b)
  end.

Definition isChar (lower : ascii) (c : ascii) : bool :=
  Ascii.eqb (Js.lowerChar c) lower.

Definition spacesLength (s : string) : nat :=
  String.length s - String.length (Js.trimStart s).

(** A match at the start of [s]: the capture and the length matched. *)
Definition matchAt (s : string) : option (string * nat) :=
  match s with
  | String c1 (String c2 (String c3 (String c4 r))) =>
      if isChar "h" c1 && isChar "r" c2 && isChar "e" c3 && isChar "f" c4
      then
        match Js.trimStart r with
        | String eq r2 =>
            if Ascii.eqb eq "="%char
            then
              match Js.trimStart r2 with
              | String q r3 =>
                  if Ascii.eqb q dquote
                  then
                    let '(cap, rest) := spanNotQuote r3 in
                    match rest with
                    | String _ _ =>
                        if Js.isEmpty cap then None
                        else Some (cap, 4 + spacesLength r + 1 + spacesLength r2
                                        + 1 + String.length cap + 1)
                    | EmptyString => None
                    end
                  else None
              | EmptyString => None
              end
            else None
        | EmptyString => None
        end
      else None
  | _ => None
  end.

(** The captures of all matches, left to right; after a match of length
    [n] the search resumes [n] code units further ([skip]). *)
Fixpoint scan (skip : nat) (s : string) : list string :=
  match s with
  | EmptyString => []
  | String _ r =>
      match skip with
      | S k => scan k r
      | O =>
          match matchAt s with
          | Some (cap, n) => cap :: scan (n - 1) r
          | None => scan 0 r
          end
      end
  end.

Definition hrefs (html : string) : list string := scan 0 html.

End Href.

Module Page.

(** The accumulator [pages.get(page)]. *)
Record Acc := mkAcc {
  a_id : string;
  a_url : string;
  a_host : string;
  a_fragment_ids : list string;
  a_fragment_count : nat;
  a_life_events : list string;
  a_categories : list string;
  a_states : list string;
  a_provider : list string;
  a_governance : list string;
  a_stage : list string;
  a_stage_variant : list string;
  a_content_text : string;
  a_keywords : list string;
  a_out_links : list string;
  a_out_link_tokens : list string;
  a_lvl0Counts : list (string * nat)
}.

(** A page document.  [title] is [None] when undefined;
    [embedding_counts] stands for [embedding] (see
    [Embedding.bucketCounts]). *)
Record Doc := mkDoc {
  id : string;
  url : string;
  host : string;
  title : option string;
  fragment_ids : list string;
  fragment_count : nat;
  life_events : list string;
  categories : list string;
  states : list string;
  provider : list string;
  governance : list string;
  stage : string;
  stage_variant : string;
  content_text : string;
  keywords : list string;
  embedding_counts : list nat;
  out_links : list string;
  out_link_tokens : list string;
  crawl_version : Z;
  last_seen_at : Z
}.

End Page.

Section Aggregation.
Context (P : Platform).
Context (CRAWL_VERSION : Z).

Import Page.

Definition newline : string := String "010"%char EmptyString.

(** [f.page_url || baseUrl(f.url || '')] *)
Definition pageOf (f : Frag.Fragment) : string :=
  if Js.truthy (Frag.page_url f) then default "" (Frag.page_url f)
  else baseUrl P (Frag.url (Frag.raw f)).

(** The object [pages.set(page, {...})] starts from. *)
Definition emptyAcc (page : string) : Acc :=
  {| a_id := page; a_url := page;
     a_host := match new_URL P page None with Some u => hostname u | None => "" end;
     a_fragment_ids := []; a_fragment_count := 0;
     a_life_events := []; a_categories := []; a_states := [];
     a_provider := []; a_governance := []; a_stage := []; a_stage_variant := [];
     a_content_text := ""; a_keywords := [];
     a_out_links := []; a_out_link_tokens := [];
     a_lvl0Counts := [] |}.

(** One turn of the loop over [hrefs]: the two link sets after [h]. *)
Definition addLink (page : string) (sets : list string * list string) (h : string)
    : list string * list string :=
  match new_URL P h (Some page) with
  | Some u =>
      if String.eqb (protocol u) "http:" || String.eqb (protocol u) "https:"
      then
        let b := baseUrl P (URL_toString P u) in
        let seg :=
          List.hd "" (filter (fun p => Js.isEmpty p = false)
                             (Js.splitOn "/" (Js.orElse (pathname u) "/"))) in
        let host := Js.toLowerCase (hostname u) in
        let links := setAdd b (fst sets) in
        let toks1 := if Js.isEmpty host then snd sets else setAdd host (snd sets) in
        let toks2 :=
          if negb (Js.isEmpty host) && negb (Js.isEmpty seg)
          then setAdd (host +:+ "/" +:+ Js.toLowerCase seg) toks1 else toks1 in
        (links, toks2)
      else sets
  | None => sets          (* ignore invalid URLs *)
  end.

(** The body of the loop over [this.fragments], on the accumulator of the
    fragment's page. *)
Definition accumulate (acc : Acc) (f : Frag.Fragment) : Acc :=
  let r := Frag.raw f in
  let lvl0 := Js.optOr (Frag.hierarchy_lvl0 r) (Frag.title r) in
  let links :=
    fold_left (addLink (a_url acc)) (Href.hrefs (Frag.content_html r))
              (a_out_links acc, a_out_link_tokens acc) in
  {| a_id := a_id acc; a_url := a_url acc; a_host := a_host acc;
     a_fragment_ids := a_fragment_ids acc ++ [Frag.id r];
     a_fragment_count := S (a_fragment_count acc);
     a_life_events := setAddAll (default [] (Frag.life_events r)) (a_life_events acc);
     a_categories := setAddAll (default [] (Frag.categories r)) (a_categories acc);
     a_states := setAddAll (default [] (Frag.states r)) (a_states acc);
     a_provider := setAddTruthy (Frag.provider r) (a_provider acc);
     a_governance := setAddTruthy (Frag.governance r) (a_governance acc);
     a_stage := setAddTruthy (Frag.stage r) (a_stage acc);
     a_stage_variant := setAddTruthy (Frag.stage_variant r) (a_stage_variant acc);
     a_content_text :=
       if String.length (a_content_text acc) <? 40000
       then a_content_text acc
            +:+ (if Js.isEmpty (a_content_text acc) then "" else newline)
            +:+ Js.sliceTo 4000 (Frag.content_text r)
       else a_content_text acc;
     a_keywords := setAddAll (default [] (Frag.search_keywords r)) (a_keywords acc);
     a_out_links := fst links;
     a_out_link_tokens := snd links;
     a_lvl0Counts :=
       if Js.isEmpty lvl0 then a_lvl0Counts acc else countUp lvl0 (a_lvl0Counts acc) |}.

(** [pages]: a [Map] from page URL to accumulator, in insertion order.
    [visit] is [if (!pages.has(page)) pages.set(page, {...})] followed by
    the update of [pages.get(page)]. *)
Fixpoint visit (page : string) (f : Frag.Fragment) (pages : list (string * Acc))
    : list (string * Acc) :=
  match pages with
  | [] => [(page, accumulate (emptyAcc page) f)]
  | (k, acc) :: rest =>
      if String.eqb k page then (k, accumulate acc f) :: rest
      else (k, acc) :: visit page f rest
  end.

Definition step (pages : list (string * Acc)) (f : Frag.Fragment)
    : list (string * Acc) :=
  let page := pageOf f in
  if Js.isEmpty page then pages        (* [if (!page) continue] *)
  else visit page f pages.

(** The title: the first entry of the sorted counts, if any. *)
Definition pickTitle (counts : list (string * nat)) : option string :=
  match sortByCountDesc counts with
  | (t, _) :: _ => Some t
  | [] => None
  end.

Definition finalize (now : Z) (acc : Acc) : Doc :=
  {| id := a_id acc; url := a_url acc; host := a_host acc;
     title := pickTitle (a_lvl0Counts acc);
     fragment_ids := a_fragment_ids acc;
     fragment_count := a_fragment_count acc;
     life_events := a_life_events acc;
     categories := a_categories acc;
     states := a_states acc;
     provider := a_provider acc;
     governance := a_governance acc;
     stage := List.hd "" (a_stage acc);
     stage_variant := List.hd "" (a_stage_variant acc);
     content_text := a_content_text acc;
     keywords := a_keywords acc;
     embedding_counts := Embedding.bucketCounts (a_content_text acc) 256;
     out_links := take 500 (a_out_links acc);
     out_link_tokens := take 1000 (a_out_link_tokens acc);
     crawl_version := CRAWL_VERSION;
     last_seen_at := now |}.

(** [buildPageDocs()] on [this.fragments]; [now] is the clock. *)
Definition buildPageDocs (fragments : list Frag.Fragment) (now : Z) : list Doc :=
  map (fun kv => finalize now (snd kv)) (fold_left step fragments []).

End Aggregation.


(** *** A reading of [buildPageDocs] page by page

    The notions the properties of the aggregation are stated with. *)
Section AggregationReading.
Context (P : Platform).

(** The fragments of one page, in the order of the input. *)
Definition fragmentsOfPage (page : string) (fs : list Frag.Fragment)
    : list Frag.Fragment :=
  filter (fun f => pageOf P f = page) fs.

(** The pages of the input, in the order of their first fragment. *)
Definition pageKeys (fs : list Frag.Fragment) : list string :=
  fold_left (fun ks f => if Js.isEmpty (pageOf P f) then ks else setAdd (pageOf P f) ks)
            fs [].

(** The accumulator of one page, from its fragments alone. *)
Definition accOf (page : string) (fs : list Frag.Fragment) : Page.Acc :=
  fold_left (accumulate P) (fragmentsOfPage page fs) (emptyAcc P page).

(** [f.hierarchy_lvl0 || f.title || ''], the vote of a fragment for the
    title of its page. *)
Definition lvl0Of (f : Frag.Fragment) : string :=
  Js.optOr (Frag.hierarchy_lvl0 (Frag.raw f)) (Frag.title (Frag.raw f)).

(** A bound on the length of [content_text] of [page] when no text is
    left out: each fragment adds at most 4000 code units and a newline. *)
Definition contentLoad (page : string) (fs : list Frag.Fragment) : nat :=
  sum_list_with (fun f => S (min 4000 (String.length (Frag.content_text (Frag.raw f)))))
                (fragmentsOfPage page fs).

(** The number of fragments of [page] whose vote for the title is [t]. *)
Definition votes (page t : string) (fs : list Frag.Fragment) : nat :=
  length (filter (fun f => lvl0Of f = t) (fragmentsOfPage page fs)).

(** What one [href] adds to [out_links] and to [out_link_tokens]. *)
Definition linkOf (page : string) (h : string) : list string :=
  fst (addLink P page ([], []) h).
Definition tokensOf (page : string) (h : string) : list string :=
  snd (addLink P page ([], []) h).

(** The truthy value of an optional string property, as a list. *)
Definition truthyValue (o : option string) : list string :=
  match o with
  | Some x => if Js.isEmpty x then [] else [x]
  | None => []
  end.

End AggregationReading.

(* ===================================================================== *)
(** ** scraper.js: the crawl                                              *)
(* ===================================================================== *)

(** [config/scraper-config.js], as far as scraper.js reads it.  An exclude
    pattern is its [test]. *)
Record Config := mkConfig {
  maxDepth : nat;
  maxLinksPerPage : nat;
  maxPages : nat;
  excludePatterns : list (string -> bool)
}.

(** What a page gives once loaded: its parsed content, and the links
    [page.evaluate] reads off the live document (resolved [href], text). *)
Record Rendered := mkRendered {
  dom : Dom.Node;
  links : list (string * string)
}.

(** The world outside the scraper.  [goto url k] is the outcome of
    navigating to [url] when [k] navigations to it came before in this run:
    [None] when [page.goto] (or reading the content) throws.  [throttled n]
    tells whether, at the [n]-th request, the rate measured on the clock
    exceeds 5 per second.  [sitemap] is [fetchSitemapUrls], [allowed] is
    the robots policy, [now] the clock at a page's extraction. *)
Record World := mkWorld {
  goto : string -> nat -> option Rendered;
  throttled : nat -> bool;
  sitemap : string -> list string;
  allowed : string -> bool;
  now : string -> Z
}.

(** What the crawl does to the outside, in order. *)
Inductive Event :=
| Goto (url : string)                       (* [page.goto(url, ...)] *)
| Recorded (url : string) (ok : bool)       (* [monitor.recordCrawl(url, ok, ms)] *)
| Delay (ms : nat)                          (* [await delay(ms)] *)
| Queued (url : string) (depth : nat).      (* [this.limit(() => this.crawl(...))] *)

(** The mutable fields of [MyGovScraper] the crawl works on. *)
Record Scraper := mkScraper {
  visited : list string;
  fragments : list Frag.Fragment;
  requestCount : nat;
  pendingCrawls : list (string * nat);
  trace : list Event
}.

Definition newScraper : Scraper :=
  {| visited := []; fragments := []; requestCount := 0; pendingCrawls := []; trace := [] |}.

Definition isGoto (url : string) (e : Event) : bool :=
  match e with Goto u => String.eqb u url | _ => false end.

(** The number of page fetches of [url] so far. *)
Definition fetchesOf (url : string) (s : Scraper) : nat :=
  length (filter (fun e => isGoto url e = true) (trace s)).

(** The number of page fetches so far. *)
Definition fetchCount (s : Scraper) : nat :=
  length (filter (fun e => match e with Goto _ => true | _ => false end = true) (trace s)).

Section Crawl.
Context (P : Platform).
Context (CRAWL_VERSION : Z).
Context (classify : Enricher).
Context (cfg : Config).
Context (W : World).

Definition relevanceKeywords : list string :=
  ["service"; "eligibility"; "apply"; "benefit"; "support"; "help"; "information"].

(** [scoreLinkRelevance(linkText)] *)
Definition scoreLinkRelevance (linkText : string) : nat :=
  let text := Js.toLowerCase linkText in
  length (filter (fun k => Js.includes k text = true) relevanceKeywords).

(** [/\.(pdf|doc|docx|xls|xlsx)$/i] *)
Definition isDocumentLink (href : string) : bool :=
  existsb (fun ext => Js.endsWith ext (Js.toLowerCase href))
          [".pdf"; ".doc"; ".docx"; ".xls"; ".xlsx"].

Definition keepLink (currentOrigin : string) (l : string * string) : bool :=
  match new_URL P (fst l) None with
  | Some linkUrl =>
      String.eqb (origin linkUrl) currentOrigin
      && negb (isDocumentLink (fst l))
      && negb (Js.includes "#" (fst l))
      && negb (existsb (fun pattern => pattern (fst l)) (excludePatterns cfg))
  | None => false
  end.

(** [priorityLinks]: kept, sorted by relevance (highest first, stable),
    cut to [maxLinksPerPage]. *)
Definition priorityLinks (currentOrigin : string) (ls : list (string * string))
    : list string :=
  map fst
      (take (maxLinksPerPage cfg)
            (sortByCountDesc
               (map (fun l => (fst l, scoreLinkRelevance (snd l)))
                    (filter (fun l => keepLink currentOrigin l = true) ls)))).

Definition emit (e : Event) (s : Scraper) : Scraper :=
  {| visited := visited s; fragments := fragments s; requestCount := requestCount s;
     pendingCrawls := pendingCrawls s; trace := trace s ++ [e] |}.

(** The rate limiting at the head of [crawl]. *)
Definition countRequest (s : Scraper) : Scraper :=
  let n := S (requestCount s) in
  let s1 := {| visited := visited s; fragments := fragments s; requestCount := n;
               pendingCrawls := pendingCrawls s; trace := trace s |} in
  if (n mod 10 =? 0) && throttled W n then emit (Delay 200) s1 else s1.

Definition markVisited (url : string) (s : Scraper) : Scraper :=
  {| visited := setAdd url (visited s); fragments := fragments s;
     requestCount := requestCount s; pendingCrawls := pendingCrawls s;
     trace := trace s |}.

Definition pushFragments (frags : list Frag.Fragment) (s : Scraper) : Scraper :=
  {| visited := visited s; fragments := fragments s ++ frags;
     requestCount := requestCount s; pendingCrawls := pendingCrawls s;
     trace := trace s |}.

(** [priorityLinks.forEach(link => this.pendingCrawls.push(this.limit(...)))] *)
Definition queueCrawl (depth : nat) (s : Scraper) (link : string) : Scraper :=
  emit (Queued link depth)
    {| visited := visited s; fragments := fragments s;
       requestCount := requestCount s;
       pendingCrawls := pendingCrawls s ++ [(link, depth)]; trace := trace s |}.

(** The [try] block of [crawl] after [browser.newPage()]: the scraper
    after it, and whether it threw. *)
Definition attempt (url : string) (depth : nat) (s : Scraper) : Scraper * bool :=
  let s1 := emit (Goto url) s in
  match goto W url (fetchesOf url s) with
  | None => (s1, true)
  | Some page =>
      let frags := extractFragments P CRAWL_VERSION classify (dom page) url (now W url) in
      let s2 := emit (Recorded url true) (pushFragments frags s1) in
      if depth <? maxDepth cfg
      then
        match new_URL P url None with
        | Some u =>
            (fold_left (queueCrawl (S depth)) (priorityLinks (origin u) (links page)) s2,
             false)
        | None => (s2, true)      (* [new URL(url).origin] throws *)
        end
      else (s2, false)
  end.

(** [crawl(browser, url, robots, depth, retries)], as one call runs when
    no other call is under way: the lines from the guard to [visited.add]
    are one step here, and the browser opens and closes its pages.
    [Schedule.advance] below cuts the function at its awaits. *)
Fixpoint crawl (retries : nat) (url : string) (depth : nat) (s : Scraper) : Scraper :=
  if bool_decide (url ∈ visited s) || (maxDepth cfg <? depth) || negb (allowed W url)
  then s
  else
    let s1 := markVisited url (countRequest s) in
    let '(s2, threw) := attempt url depth s1 in
    if threw
    then
      let s3 := emit (Recorded url false) s2 in
      match retries with
      | S r => crawl r url depth (emit (Delay 1000) s3)
      | O => s3
      end
    else s2.

(** The queued crawls, run one at a time in the order they were queued
    (the order in which the limiter starts them); [started] counts those
    already run.  A queued crawl starts with the default 3 retries.  The
    calls do not interleave here; [Schedule.turns] below has them
    interleaved. *)
Fixpoint drain (fuel : nat) (started : nat) (s : Scraper) : option Scraper :=
  match nth_error (pendingCrawls s) started with
  | None => Some s
  | Some (url, depth) =>
      match fuel with
      | O => None
      | S fuel' => drain fuel' (S started) (crawl 3 url depth s)
      end
  end.

(** [run(startUrl)] from the sitemap to the end of the crawl: the first
    [maxPages] sitemap URLs at depth 0, the start URL, then the queued
    crawls until none is left, one call after the other ([Schedule.run]
    below is the start of the run whose calls interleave). *)
Definition runCrawl (fuel : nat) (startUrl : string) : option Scraper :=
  let seeds := take (maxPages cfg) (sitemap W startUrl) in
  let s1 := fold_left (fun s url => crawl 3 url 0 s) seeds newScraper in
  drain fuel 0 (crawl 3 startUrl 0 s1).

End Crawl.

(* ===================================================================== *)
(** ** scraper.js: indexing and pruning                                   *)
(* ===================================================================== *)

(** The answer to the HTTP request of [indexFragments], as the code
    reads it: [response.text()] split in lines, the empty ones dropped,
    each one through [JSON.parse].  A line is [None] when it does not
    parse, else the truthiness of its [success] property (false when the
    object has none, as in an error body [{message: ...}]).  The status
    of the response is part of what the store sends. *)
Record HttpAnswer := mkHttpAnswer {
  http_status : nat;
  body_lines : list (option bool)
}.

(** The document store, as the scraper drives it.  Every call may change
    the store.
    - [post_import] is [fetch(importUrl, {method: 'POST', ...})] of
      [indexFragments]: [None] when the promise is rejected (the request
      does not get through) or the body cannot be read.  By the contract
      of [fetch], an answer with an error status is an answer: the promise
      resolves.
    - [client_import] is [coll.import(batch, {action: 'upsert'})] of
      [indexPages]: [false] when it throws.
    - [upsert] is [coll.upsert(doc)]: [false] when it throws. *)
Record StoreApi (St D : Type) := mkStoreApi {
  post_import : St -> list D -> St * option HttpAnswer;
  client_import : St -> list D -> St * bool;
  upsert : St -> D -> St * bool
}.
Arguments post_import {St D} _ _ _.
Arguments client_import {St D} _ _ _.
Arguments upsert {St D} _ _ _.

(** What indexing does, in order: the store calls and the failures it
    logs.  [threw] tells whether the [try] block of the batch threw. *)
Inductive SyncEvent (D : Type) :=
| Imported (batch : list D) (threw : bool)
| Upserted (doc : D) (ok : bool)
| LoggedFailure (doc : D).
Arguments Imported {D} _ _.
Arguments Upserted {D} _ _.
Arguments LoggedFailure {D} _.

Section Indexing.
Context {St D : Type}.
Context (api : StoreApi St D).

(** [for (let i = 0; i < docs.length; i += n) docs.slice(i, i + n)] *)
Fixpoint slices (n : nat) (fuel : nat) (docs : list D) : list (list D) :=
  match fuel, docs with
  | S fuel', _ :: _ => take n docs :: slices n fuel' (drop n docs)
  | _, _ => []
  end.

Definition batches (docs : list D) : list (list D) := slices 100 (length docs) docs.

(** The running state of an indexing loop: the store, the events so
    far, and [indexed]. *)
Record Progress := mkProgress {
  store : St;
  events : list (SyncEvent D);
  indexed : Z
}.

(** One turn of the fallback loop:
    [try { await coll.upsert(doc); indexed++ } catch { console.error(...) }] *)
Definition upsertOne (p : Progress) (doc : D) : Progress :=
  let '(s', ok) := upsert api (store p) doc in
  if ok
  then {| store := s'; events := events p ++ [Upserted doc true];
          indexed := (indexed p + 1)%Z |}
  else {| store := s'; events := events p ++ [Upserted doc false; LoggedFailure doc];
          indexed := indexed p |}.

Definition fallback (p : Progress) (batch : list D) : Progress :=
  fold_left upsertOne batch p.

(** [results]: the parsed lines, when every line parses. *)
Definition parsedResults (a : HttpAnswer) : option (list bool) :=
  if forallb (fun l => match l with Some _ => true | None => false end) (body_lines a)
  then Some (omap (fun l => l) (body_lines a))
  else None.

(** One turn of the loop of [indexFragments]: the [try] block resolves
    when the request gets an answer whose lines all parse, and then counts
    the lines without a truthy [success] as failures; anything thrown goes
    to the fallback. *)
Definition indexFragmentBatch (p : Progress) (batch : list D) : Progress :=
  let '(s', answer) := post_import api (store p) batch in
  match answer with
  | Some a =>
      match parsedResults a with
      | Some results =>
          let failures := filter (fun ok => ok = false) results in
          {| store := s'; events := events p ++ [Imported batch false];
             indexed := (indexed p + Z.of_nat (length batch)
                         - Z.of_nat (length failures))%Z |}
      | None =>
          fallback {| store := s'; events := events p ++ [Imported batch true];
                      indexed := indexed p |} batch
      end
  | None =>
      fallback {| store := s'; events := events p ++ [Imported batch true];
                  indexed := indexed p |} batch
  end.

(** One turn of the loop of [indexPages]: [coll.import(batch, ...)]. *)
Definition indexPageBatch (p : Progress) (batch : list D) : Progress :=
  let '(s', ok) := client_import api (store p) batch in
  if ok
  then {| store := s'; events := events p ++ [Imported batch false];
          indexed := (indexed p + Z.of_nat (length batch))%Z |}
  else fallback {| store := s'; events := events p ++ [Imported batch true];
                   indexed := indexed p |} batch.

(** [indexFragments()] on [this.fragments] *)
Definition indexFragments (s : St) (docs : list D) : Progress :=
  fold_left indexFragmentBatch (batches docs) {| store := s; events := []; indexed := 0 |}.

(** [indexPages()] on the page documents *)
Definition indexPages (s : St) (docs : list D) : Progress :=
  fold_left indexPageBatch (batches docs) {| store := s; events := []; indexed := 0 |}.

(** Reading a trace. *)
Definition importedBatches (l : list (SyncEvent D)) : list (list D) :=
  omap (fun e => match e with Imported b _ => Some b | _ => None end) l.
Definition failedBatches (l : list (SyncEvent D)) : list (list D) :=
  omap (fun e => match e with Imported b true => Some b | _ => None end) l.
Definition upsertAttempts (l : list (SyncEvent D)) : list D :=
  omap (fun e => match e with Upserted d _ => Some d | _ => None end) l.
Definition failedUpserts (l : list (SyncEvent D)) : list D :=
  omap (fun e => match e with Upserted d false => Some d | _ => None end) l.
Definition loggedFailures (l : list (SyncEvent D)) : list D :=
  omap (fun e => match e with LoggedFailure d => Some d | _ => None end) l.

End Indexing.

(** The two collections of the store. *)
Record Collections := mkCollections {
  content_fragments : list Frag.Fragment;
  content_pages : list Page.Doc
}.

Section Prune.
Context (CRAWL_VERSION : Z).

(** The filter of the fragment delete,
    [crawl_version:<V && page_url:*host*]: by the comment above it, "match
    by page_url containing the host".  A document without the field does
    not match. *)
Definition fragmentFilter (targetHost : string) (d : Frag.Fragment) : bool :=
  (Frag.crawl_version d <? CRAWL_VERSION)%Z
  && match Frag.page_url d with
     | Some u => Js.includes targetHost u
     | None => false
     end.

(** The filter of the page delete, [crawl_version:<V && host:=host]. *)
Definition pageFilter (targetHost : string) (d : Page.Doc) : bool :=
  (Page.crawl_version d <? CRAWL_VERSION)%Z && String.eqb (Page.host d) targetHost.

(** [pruneStaleDocs()].  [fragmentsThrow] and [pagesThrow] tell whether
    the store refuses the first and the second delete (both are caught
    and logged). *)
Definition pruneStaleDocs (targetHost : option string)
    (fragmentsThrow pagesThrow : bool) (c : Collections) : Collections :=
  if Js.truthy targetHost
  then
    let host := default "" targetHost in
    {| content_fragments :=
         if fragmentsThrow then content_fragments c
         else filter (fun d => fragmentFilter host d = false) (content_fragments c);
       content_pages :=
         if pagesThrow then content_pages c
         else filter (fun d => pageFilter host d = false) (content_pages c) |}
  else c.   (* "No target host set - skipping prune" *)

(** The host a fragment document belongs to: the head of its
    [site_hierarchy], which [extractSiteHierarchy] starts with the
    hostname of the page. *)
Definition fragmentHost (d : Frag.Fragment) : option string :=
  List.hd_error (Frag.site_hierarchy (Frag.raw d)).

End Prune.

Section Run.
Context (P : Platform).

(** [this.targetHost] as [run(startUrl)] sets it. *)
Definition targetHostOf (startUrl : string) : option string :=
  match new_URL P startUrl None with
  | Some u => Some (hostname u)
  | None => None
  end.

End Run.

(* ===================================================================== *)
(** ** A platform to run the model on                                     *)
(* ===================================================================== *)

(** The examples below run the model on a platform that agrees with the
    real one on the inputs they use: absolute URLs already in normal form
    ([scheme://host/path?query#fragment], lower-case host, no port, no
    credentials, at least the path "/"), elements without attributes to
    escape.  The digests are stand-ins that keep their whole input, which
    is all the examples need of a digest: equal inputs, equal outputs. *)
Module Fixture.

(** [s] up to the first of the code units [stops], and the rest. *)
Fixpoint breakAt (stops : list ascii) (s : string) : string * string :=
  match s with
  | EmptyString => (EmptyString, EmptyString)
  | String c r =>
      if existsb (Ascii.eqb c) stops then (EmptyString, s)
      else let '(a, b) := breakAt stops r in (String c a, b)
  end.

Definition dropFirst (s : string) : string :=
  match s with String _ r => r | EmptyString => EmptyString end.

Definition startsWith (c : ascii) (s : string) : bool :=
  match s with String d _ => Ascii.eqb c d | EmptyString => false end.

(** [scheme://host/path?query#fragment]; anything else is refused. *)
Definition parseAbsolute (s : string) : option URL :=
  let '(scheme, r0) := breakAt [":"%char] s in
  if negb (String.prefix "://" r0) || Js.isEmpty scheme then None
  else
    let r1 := dropFirst (dropFirst (dropFirst r0)) in
    let '(host, r2) := breakAt ["/"; "?"; "#"]%char r1 in
    if Js.isEmpty host then None
    else
      let '(path, r3) := breakAt ["?"; "#"]%char r2 in
      let '(query, r4) :=
        if startsWith "?" r3 then breakAt ["#"%char] (dropFirst r3)
        else (EmptyString, r3) in
      Some {| protocol := scheme +:+ ":";
              hostname := host;
              origin := scheme +:+ "://" +:+ host;
              pathname := Js.orElse path "/";
              search := if startsWith "?" r3 then Some query else None;
              hash := if startsWith "#" r4 then Some (dropFirst r4) else None |}.

Definition serialize (u : URL) : string :=
  origin u +:+ pathname u
  +:+ match search u with Some q => "?" +:+ q | None => "" end
  +:+ match hash u with Some f => "#" +:+ f | None => "" end.

Fixpoint render (n : Dom.Node) : string :=
  match n with
  | Dom.Text d => d
  | Dom.Elem t attrs cs =>
      "<" +:+ t
      +:+ fold_right (fun kv acc => " " +:+ fst kv +:+ "=" +:+ String Href.dquote (snd kv)
                                    +:+ String Href.dquote acc) "" attrs
      +:+ ">"
      +:+ (fix all (l : list Dom.Node) : string :=
             match l with [] => "" | c :: r => render c +:+ all r end) cs
      +:+ "</" +:+ t +:+ ">"
  end.

Definition platform : Platform :=
  {| md5_hex := fun s => "md5(" +:+ s +:+ ")";
     sha256_hex := fun s => "sha256(" +:+ s +:+ ")";
     new_URL := fun input _ => parseAbsolute input;
     URL_toString := serialize;
     outerHTML := render;
     extractKeywords := fun _ => [] |}.

(** An enricher that tags everything national and nothing else. *)
Definition national : Enricher :=
  fun _ => Some (mkTaxonomy [] [] ["National"] None None None None).

Import Dom.

Definition el (t : string) (cs : list Node) : Node := Elem t [] cs.
Definition h (t : string) (s : string) : Node := Elem t [] [Text s].
Definition para (s : string) : Node := Elem "p" [] [Text s].


Definition carersUrl : string := "https://www.servicesaustralia.gov.au/carers".


(** A page with two headings and an alert box, crawled at a URL that
    has a query. *)
Definition paymentsPage : Node :=
  el "html"
    [ el "head" [ h "title" "Payments" ];
      el "body"
        [ el "main"
            [ h "h1" "Payments"; para "What you can claim.";
              Elem "div" [("class", "alert")] [Text "Offices are closed on Monday."];
              h "h2" "Rates"; para "Rates change in March." ] ] ].

Definition paymentsUrl : string := "https://my.gov.au/payments?ref=home".

(** A page with two headings, and an enricher that finds a different
    stage under each. *)
Definition retirePage : Node :=
  el "html"
    [ el "head" [ h "title" "Age Pension - myGov" ];
      el "body"
        [ el "main"
            [ h "h1" "Retirement"; para "Plan early.";
              h "h2" "Claim"; para "Claim the pension." ] ] ].

Definition byTitle : Enricher :=
  fun f =>
    if String.eqb (Frag.title f) "Retirement"
    then Some (mkTaxonomy ["Ageing"] ["Planning"] ["National"]
                          (Some "Services Australia") (Some "Federal")
                          (Some "Planning") (Some "Early"))
    else Some (mkTaxonomy ["Ageing"] ["Payments"] ["National"]
                          (Some "Services Australia") (Some "Federal")
                          (Some "Claiming") (Some "Late")).

(** The fragments of that page, as one crawl pushes them. *)
Definition twoOfOnePage : list Frag.Fragment :=
  extractFragments platform 1%Z byTitle retirePage "https://my.gov.au/retire" 0%Z.

(** A page whose texts do not fit under the cap of [content_text]: ten
    sections of more than 4000 code units, then a short one. *)
Fixpoint repeatText (n : nat) (s : string) : string :=
  match n with
  | O => ""
  | S k => s +:+ repeatText k s
  end.

Definition longSection : list Node := [h "h2" "Part"; para (repeatText 2100 "a ")].

Definition longPage : Node :=
  el "html"
    [ el "head" [ h "title" "Long" ];
      el "body"
        [ el "main"
            (concat (replicate 10 longSection) ++ [h "h2" "Last"; para "zebra"]) ] ].

Definition elevenOfOnePage : list Frag.Fragment :=
  extractFragments platform 1%Z national longPage "https://my.gov.au/long" 0%Z.

(** A page of another host, crawled in an earlier run. *)
Definition helpPage : Node :=
  el "html"
    [ el "head" [ h "title" "Help" ];
      el "body" [ el "main" [ h "h1" "Help"; para "Ask us." ] ] ].

Definition helpUrl : string := "https://beta.my.gov.au/help".

(** A small site: the start page links to two pages of the same origin,
    which link nowhere. *)
Definition homeUrl : string := "https://my.gov.au/".

Definition site (url : string) : Rendered :=
  if String.eqb url homeUrl
  then {| dom := paymentsPage;
          links := [ ("https://my.gov.au/a", "Apply for a payment");
                     ("https://my.gov.au/b", "About us") ] |}
  else {| dom := helpPage; links := [] |}.

Definition steadyWorld : World :=
  {| goto := fun url _ => Some (site url);
     throttled := fun _ => false;
     sitemap := fun _ => [];
     allowed := fun _ => true;
     now := fun _ => 0%Z |}.

(** The same site, where every first navigation to a page times out and
    every later one would succeed. *)
Definition flakyWorld : World :=
  {| goto := fun url k => match k with O => None | S _ => Some (site url) end;
     throttled := fun _ => false;
     sitemap := fun _ => [];
     allowed := fun _ => true;
     now := fun _ => 0%Z |}.

Definition onePage : Config :=
  {| maxDepth := 3; maxLinksPerPage := 10; maxPages := 1; excludePatterns := [] |}.

(** A store of document names that refuses every bulk import and every
    document called "bad". *)
Definition flakyStore : StoreApi (list string) string :=
  {| post_import := fun s _ => (s, None);
     client_import := fun s _ => (s, false);
     upsert := fun s d => if String.eqb d "bad" then (s, false) else (s ++ [d], true) |}.

(** A store that is not ready for bulk writes: it answers every import
    with status 503 and the one-line error body [{message: ...}], which
    the client library turns into an exception; it writes nothing then.
    Single upserts go through. *)
Definition busyStore : StoreApi (list string) string :=
  {| post_import := fun s _ => (s, Some {| http_status := 503; body_lines := [Some false] |});
     client_import := fun s _ => (s, false);
     upsert := fun s d => (s ++ [d], true) |}.

End Fixture.
(* ===================================================================== *)
(** ** Normal forms of texts                                              *)
(* ===================================================================== *)

Module Normal.

(** Every code unit of [s] passes [p]. *)
Fixpoint allChars (p : ascii -> bool) (s : string) : bool :=
  match s with
  | EmptyString => true
  | String c r => p c && allChars p r
  end.

(** White space in [s] is single spaces only: each white-space code
    unit is the space itself and no two are adjacent.  [afterSpace] tells
    that a space comes just before [s], so that [s] may not start with
    one. *)
Fixpoint singleSpaced (afterSpace : bool) (s : string) : bool :=
  match s with
  | EmptyString => true
  | String c r =>
      if Js.isSpace c
      then Ascii.eqb c " " && negb afterSpace && singleSpaced true r
      else singleSpaced false r
  end.

(** [a-z], [0-9] and the underscore; the same without the underscore. *)
Definition isKeyChar (c : ascii) : bool :=
  Js.isLowerAZ c || Js.isDigit c || (Js.code c =? 95).
Definition isLowerAlnum (c : ascii) : bool :=
  Js.isLowerAZ c || Js.isDigit c.

Definition orSpace (p : ascii -> bool) (c : ascii) : bool :=
  p c || Ascii.eqb c " ".

End Normal.

(* ===================================================================== *)
(** ** extractors.js: extractKeywords                                     *)
(* ===================================================================== *)

(** [extractKeywords(text)] as the code computes it.  Extraction and
    aggregation read the keywords of a fragment as a set only, which is
    why they take them from a field of [Platform]; this module is the
    function itself. *)
Module Keywords.

(** [s.split(/\s+/)]: the pieces between the runs of white space, the
    empty piece before a leading run and after a trailing one included;
    [inRun] tells that the previous code unit was white space. *)
Fixpoint splitSpacesFrom (inRun : bool) (s : string) : list string :=
  match s with
  | EmptyString => [EmptyString]
  | String c r =>
      if Js.isSpace c
      then (if inRun then splitSpacesFrom true r
            else EmptyString :: splitSpacesFrom true r)
      else match splitSpacesFrom false r with
           | w :: ws => String c w :: ws
           | [] => [String c EmptyString]
           end
  end.

Definition splitSpaces (s : string) : list string := splitSpacesFrom false s.

Definition stopWords : list string :=
  [ "the"; "is"; "at"; "which"; "on"; "a"; "an"; "and"; "or"; "but";
    "in"; "with"; "to"; "for"; "of"; "as"; "by"; "that"; "this";
    "it"; "from"; "be"; "are"; "been"; "being"; "have"; "has"; "had";
    "do"; "does"; "did"; "will"; "would"; "should"; "could"; "may"; "might" ].

(** [word.length > 3 && !stopWords.has(word)] *)
Definition keep (w : string) : bool :=
  (3 <? String.length w) && negb (existsb (String.eqb w) stopWords).

(** [words]: the pieces of the lower-cased text, punctuation replaced by
    spaces, that the filter keeps. *)
Definition candidates (text : string) : list string :=
  filter (fun w => keep w = true)
         (splitSpaces (Js.smap punctToSpace (Js.toLowerCase text))).

Fixpoint allDigits (s : string) : bool :=
  match s with
  | EmptyString => true
  | String c r => Js.isDigit c && allDigits r
  end.

Fixpoint numeral (acc : N) (s : string) : N :=
  match s with
  | EmptyString => acc
  | String c r => numeral (10 * acc + N.of_nat (Js.code c - 48))%N r
  end.

(** A property key that is an array index: the decimal numeral, without
    a leading zero, of an integer below 2^32 - 1.  An object lists these
    keys first, in ascending order, whenever its keys are enumerated. *)
Definition arrayIndex (k : string) : option N :=
  match k with
  | EmptyString => None
  | String c r =>
      if allDigits k && (negb (Ascii.eqb c "0") || Js.isEmpty r)
         && (numeral 0 k <? 4294967295)%N
      then Some (numeral 0 k)
      else None
  end.

(** [frequencies]: an object used as a map, whose own keys are kept in
    the order they were created.  The key [__proto__] is never created:
    reading it gives the prototype object, which is truthy, and writing a
    string to it is ignored. *)
Definition tally (words : list string) : list (string * nat) :=
  fold_left (fun m w => if String.eqb w "__proto__" then m else countUp w m) words [].

Fixpoint insertByIndex (x : N * (string * nat)) (l : list (N * (string * nat)))
    : list (N * (string * nat)) :=
  match l with
  | [] => [x]
  | y :: r => if (fst x <=? fst y)%N then x :: y :: r else y :: insertByIndex x r
  end.

(** [Object.entries(frequencies)]: the array indices in ascending order,
    then the other keys in creation order. *)
Definition entries (m : list (string * nat)) : list (string * nat) :=
  map snd
      (fold_right insertByIndex []
                  (omap (fun kv => match arrayIndex (fst kv) with
                                   | Some i => Some (i, kv)
                                   | None => None
                                   end) m))
  ++ filter (fun kv => arrayIndex (fst kv) = None) m.

(** The entry of [constructor] holds no number.  Reading
    [frequencies.constructor] the first time gives the inherited function,
    which is truthy; adding 1 to it makes a string, and each later
    occurrence appends a 1 to that string.  The count kept here for that
    key tells how many were appended.  For every other key the value is
    the number of occurrences.  The comparator [b[1] - a[1]] yields a
    number exactly when both entries hold one, and NaN otherwise. *)
Definition isNumber (kv : string * nat) : bool :=
  negb (String.eqb (fst kv) "constructor").

(** [entries.sort((a, b) => b[1] - a[1])] as the language leaves it to
    the engine.  The result is a reordering of the entries.  When every
    value is a number the comparator is consistent and the sort, which is
    stable, is [sortByCountDesc].  When the comparator yields NaN for
    some pairs the order of the result is the engine's. *)
Record Engine := mkEngine {
  sortEntries : list (string * nat) -> list (string * nat);
  sort_permutes : forall l, sortEntries l ≡ₚ l;
  sort_numbers : forall l, forallb isNumber l = true -> sortEntries l = sortByCountDesc l
}.

(** [extractKeywords(text)] *)
Definition extractKeywords (E : Engine) (text : string) : list string :=
  map fst (take 10 (sortEntries E (entries (tally (candidates text))))).

(** The number of times [w] is among the candidates of [text]. *)
Definition occurrences (w : string) (text : string) : nat :=
  length (filter (fun x => x = w) (candidates text)).

End Keywords.

(* ===================================================================== *)
(** ** Readings of the crawl and of the indexing trace                    *)
(* ===================================================================== *)

(** The URLs fetched so far, in the order of the fetches. *)
Definition fetched (s : Scraper) : list string :=
  omap (fun e => match e with Goto u => Some u | _ => None end) (trace s).

(** The number of pages within [depth] levels below one page, itself
    included, when every page gives [links] links:
    1 + links + ... + links^depth. *)
Fixpoint pagesUnder (links depth : nat) : nat :=
  match depth with
  | O => 1
  | S d => 1 + links * pagesUnder links d
  end.

(** What the depth and link limits leave of a crawl that starts from
    [seeds] sitemap URLs and the start URL. *)
Definition crawlBound (cfg : Config) (seeds : nat) : nat :=
  (1 + seeds) * pagesUnder (maxLinksPerPage cfg) (maxDepth cfg).

(** The pages a crawl queued at [depth] can still lead to, itself
    included. *)
Definition reach (cfg : Config) (depth : nat) : nat :=
  pagesUnder (maxLinksPerPage cfg) (maxDepth cfg - depth).

(** Counted entries in descending order of count. *)
Fixpoint descending (l : list (string * nat)) : Prop :=
  match l with
  | [] => True
  | x :: r => (forall y, y ∈ r -> snd y <= snd x) /\ descending r
  end.

(** The sitemap URLs [run] crawls before the start URL. *)
Definition seedsOf (cfg : Config) (W : World) (startUrl : string) : list string :=
  take (maxPages cfg) (sitemap W startUrl).

Section IndexingReading.
Context {D : Type}.

(** The batches whose bulk import went through, and the documents whose
    single upsert went through. *)
Definition writtenBatches (l : list (SyncEvent D)) : list (list D) :=
  omap (fun e => match e with Imported b false => Some b | _ => None end) l.
Definition writtenUpserts (l : list (SyncEvent D)) : list D :=
  omap (fun e => match e with Upserted d true => Some d | _ => None end) l.

End IndexingReading.

(** The fragments a crawl extracts from a list of pages, each given as
    its document, its URL and the reading of the clock. *)
Definition extractAll (P : Platform) (V : Z) (classify : Enricher)
    (pages : list (Dom.Node * string * Z)) : list Frag.Fragment :=
  concat (map (fun pg => extractFragments P V classify (fst (fst pg)) (snd (fst pg)) (snd pg))
              pages).

(* ===================================================================== *)
(** ** More inputs to run the model on                                    *)
(* ===================================================================== *)

Module Scenario.

(** A store with a stale and a fresh page of each of two hosts. *)
Definition pageDoc (url host : string) (version : Z) : Page.Doc :=
  {| Page.id := url; Page.url := url; Page.host := host; Page.title := None;
     Page.fragment_ids := []; Page.fragment_count := 0;
     Page.life_events := []; Page.categories := []; Page.states := [];
     Page.provider := []; Page.governance := [];
     Page.stage := ""; Page.stage_variant := "";
     Page.content_text := ""; Page.keywords := []; Page.embedding_counts := [];
     Page.out_links := []; Page.out_link_tokens := [];
     Page.crawl_version := version; Page.last_seen_at := 0%Z |}.

Definition otherHostPage : Page.Doc :=
  pageDoc "https://beta.my.gov.au/help" "beta.my.gov.au" 1%Z.

Definition twoHosts : Collections :=
  {| content_fragments := [];
     content_pages := [ pageDoc "https://my.gov.au/a" "my.gov.au" 1%Z;
                        otherHostPage;
                        pageDoc "https://my.gov.au/b" "my.gov.au" 2%Z ] |}.

End Scenario.
(* ===================================================================== *)
(** ** scraper.js: crawls that interleave                                 *)
(* ===================================================================== *)

(** [crawl] is an async function, and [run] has several calls of it
    under way at once: the sitemap URLs and the links of every page go
    through the limiter, which starts up to CONCURRENCY of them, and a call
    gives way to the others at each [await].  The functions [crawl],
    [drain] and [runCrawl] above run one call after the other, which is
    what a single call does when no other is under way.  This module cuts
    [crawl] at its awaits: a call is at one of them, a step runs the lines
    from there to the next one, and a schedule is the list of the steps of
    a run, each with the call that moves and with what the promise it was
    waiting for gives.

    Every run of the code is one of these schedules.  The converse does
    not hold: the limiter holds calls back, [run] calls [crawl] on the
    start URL only once the sitemap URLs are through, and neither is
    written here, so that a call that waits may start at any time.  What
    is proved of every schedule is proved of every run. *)
Module Schedule.

(** The [await] a call of [crawl] is at. *)
Inductive Phase :=
| Waiting                          (* called, or held by the limiter: no line has run *)
| Throttled                        (* [await delay(200)] *)
| Opening                          (* [await browser.newPage()] *)
| Intercepting                     (* [await page.setRequestInterception(true)] *)
| Navigating                       (* [await page.goto(...)], up to
                                      [await this.extractFragments(...)] *)
| Linking                          (* [await page.evaluate(...)] *)
| Queueing (links : list string)   (* in [priorityLinks.forEach], these links left *)
| Retrying                         (* [await delay(1000)] *)
| Closing                          (* [await page.close()] *)
| Returned                         (* the promise of the call is fulfilled *)
| Rejected.                        (* the promise of the call is rejected *)

(** A call [crawl(browser, url, robots, depth, retries)] under way. *)
Record Call := mkCall {
  url : string;
  depth : nat;
  retries : nat;
  phase : Phase
}.

(** What the awaited promise gives.  [Loads d t]: the navigation went
    through and [page.content()] gives a text that parses as [d], read at
    time [t] on the clock.  [Finds ls]: [page.evaluate] gives the links
    [ls].  [Resolves] and [Rejects] for the promises whose value is not
    read. *)
Inductive Outcome :=
| Resolves
| Rejects
| Loads (d : Dom.Node) (t : Z)
| Finds (ls : list (string * string)).

(** The scraper and the calls of [crawl] made so far, in the order they
    were made. *)
Record Run := mkRun {
  scraper : Scraper;
  calls : list Call
}.

Definition at_ (c : Call) (p : Phase) : Call :=
  {| url := url c; depth := depth c; retries := retries c; phase := p |}.

(** [this.limit(() => this.crawl(browser, link, robots, depth))], and the
    calls of [run]: three retries, by default. *)
Definition newCall (link : string) (d : nat) : Call :=
  {| url := link; depth := d; retries := 3; phase := Waiting |}.

Section Steps.
Context (P : Platform).
Context (CRAWL_VERSION : Z).
Context (classify : Enricher).
Context (cfg : Config).
Context (W : World).

(** From the call to the first [await]: the guard, the count of the
    request and, unless the crawl is throttled, [visited.add]. *)
Definition enter (c : Call) (s : Scraper) : Call * Scraper :=
  if bool_decide (url c ∈ visited s) || (maxDepth cfg <? depth c) || negb (allowed W (url c))
  then (at_ c Returned, s)
  else
    let s1 := countRequest W s in
    if (requestCount s1 mod 10 =? 0) && throttled W (requestCount s1)
    then (at_ c Throttled, s1)
    else (at_ c Opening, markVisited (url c) s1).

(** The [catch] block, up to its [await] or to the [finally] block. *)
Definition caught (c : Call) (s : Scraper) : Call * Scraper :=
  let s1 := emit (Recorded (url c) false) s in
  if 0 <? retries c then (at_ c Retrying, emit (Delay 1000) s1)
  else (at_ c Closing, s1).

(** The lines of [crawl] from one [await] to the next: the call after
    them, the scraper after them, and the calls they make.  [None] when
    the call is not at an [await] that can give [o]. *)
Definition advance (c : Call) (o : Outcome) (s : Scraper)
    : option (Call * Scraper * list Call) :=
  match phase c, o with
  | Waiting, Resolves => Some (enter c s, [])
  | Throttled, Resolves => Some (at_ c Opening, markVisited (url c) s, [])
  | Opening, Resolves => Some (at_ c Intercepting, s, [])
  | Opening, Rejects => Some (at_ c Rejected, s, [])      (* outside the [try] *)
  | Intercepting, Resolves => Some (at_ c Navigating, emit (Goto (url c)) s, [])
  | Intercepting, Rejects => Some (caught c s, [])
  | Navigating, Loads d t =>
      let frags := extractFragments P CRAWL_VERSION classify d (url c) t in
      let s2 := emit (Recorded (url c) true) (pushFragments frags s) in
      Some (at_ c (if depth c <? maxDepth cfg then Linking else Closing), s2, [])
  | Navigating, Rejects => Some (caught c s, [])
  | Linking, Finds ls =>
      match new_URL P (url c) None with
      | Some u => Some (at_ c (Queueing (priorityLinks P cfg (origin u) ls)), s, [])
      | None => Some (caught c s, [])       (* [new URL(url).origin] throws *)
      end
  | Linking, Rejects => Some (caught c s, [])
  | Queueing (link :: rest), Resolves =>
      Some (at_ c (Queueing rest), queueCrawl (S (depth c)) s link,
            [newCall link (S (depth c))])
  | Queueing [], Resolves => Some (at_ c Closing, s, [])
  | Retrying, Resolves =>
      (* [return this.crawl(browser, url, robots, depth, retries - 1)]:
         the call runs to its first [await] at once *)
      let '(inner, s1) :=
        enter {| url := url c; depth := depth c; retries := retries c - 1;
                 phase := Waiting |} s in
      Some (at_ c Closing, s1, [inner])
  | Closing, Resolves => Some (at_ c Returned, s, [])
  | Closing, Rejects => Some (at_ c Rejected, s, [])
  | _, _ => None
  end.

(** One step of a run: the call number [fst ch] moves on with the
    outcome [snd ch]. *)
Definition turn (r : Run) (ch : nat * Outcome) : option Run :=
  match calls r !! fst ch with
  | Some c =>
      match advance c (snd ch) (scraper r) with
      | Some (c', s', made) =>
          Some {| scraper := s'; calls := <[fst ch := c']> (calls r) ++ made |}
      | None => None
      end
  | None => None
  end.

(** A schedule, step by step; [None] when one of its steps is none. *)
Fixpoint turns (schedule : list (nat * Outcome)) (r : Run) : option Run :=
  match schedule with
  | [] => Some r
  | ch :: rest =>
      match turn r ch with
      | Some r' => turns rest r'
      | None => None
      end
  end.

(** [run(startUrl)] before any crawl has started: a new scraper, and
    the calls for the first [maxPages] sitemap URLs and for the start URL,
    all at depth 0. *)
Definition run (startUrl : string) : Run :=
  {| scraper := newScraper;
     calls := map (fun u => newCall u 0) (seedsOf cfg W startUrl ++ [startUrl]) |}.

(** The steps a call at depth [maxDepth - below] and the calls it leads
    to can take, when every page gives [links] links: 8 of its own, and
    for each link the step that queues it and the steps of its call. *)
Fixpoint stepsUnder (links below : nat) : nat :=
  match below with
  | O => 8
  | S b => 8 + links * (1 + stepsUnder links b)
  end.

Definition stepsAt (d : nat) : nat :=
  stepsUnder (maxLinksPerPage cfg) (maxDepth cfg - d).

(** A bound on the steps that are left to a call and to the calls it
    will make. *)
Definition stepsLeft (c : Call) : nat :=
  match phase c with
  | Waiting => stepsAt (depth c)
  | Throttled => stepsAt (depth c) - 1
  | Opening => stepsAt (depth c) - 2
  | Intercepting => stepsAt (depth c) - 3
  | Navigating => stepsAt (depth c) - 4
  | Linking => maxLinksPerPage cfg * (1 + stepsAt (S (depth c))) + 3
  | Queueing ls => length ls * (1 + stepsAt (S (depth c))) + 2
  | Retrying => 2
  | Closing => 1
  | Returned | Rejected => 0
  end.

(** A bound on the pages that a call and the calls it will make can
    still fetch. *)
Definition fetchesLeft (c : Call) : nat :=
  match phase c with
  | Waiting | Throttled | Opening | Intercepting => reach cfg (depth c)
  | Navigating => reach cfg (depth c) - 1
  | Linking => maxLinksPerPage cfg * reach cfg (S (depth c))
  | Queueing ls => length ls * reach cfg (S (depth c))
  | Retrying | Closing | Returned | Rejected => 0
  end.

(** What holds of a call by the [await] it is at: past the guard, its
    URL is allowed and its depth within [maxDepth]; past [visited.add],
    its URL is visited; where it reads or queues links, its depth is
    below [maxDepth]. *)
Definition sound (s : Scraper) (c : Call) : Prop :=
  match phase c with
  | Waiting | Returned | Rejected => True
  | Throttled => depth c <= maxDepth cfg /\ allowed W (url c) = true
  | Linking | Queueing _ =>
      (url c ∈ visited s) /\ depth c < maxDepth cfg /\ allowed W (url c) = true
  | Opening | Intercepting | Navigating | Retrying | Closing =>
      (url c ∈ visited s) /\ depth c <= maxDepth cfg /\ allowed W (url c) = true
  end.

(** Where a call comes from: [run] made it, for one of [roots] at depth
    0, or a page queued it. *)
Definition known (roots : list string) (s : Scraper) (c : Call) : Prop :=
  ((url c ∈ roots) /\ depth c = 0) \/ ((url c, depth c) ∈ pendingCrawls s).

(** The URL a call is about to fetch: it is past [visited.add] and has
    not called [page.goto] yet. *)
Definition toFetch (c : Call) : option string :=
  match phase c with
  | Opening | Intercepting => Some (url c)
  | _ => None
  end.

Definition isThrottled (c : Call) : bool :=
  match phase c with Throttled => true | _ => false end.

(** What holds all along a run: of each call, by the [await] it is at
    and by where it comes from; of each URL fetched, that it is visited,
    allowed by the robots policy, and one of [roots] or queued by a page;
    of each crawl queued, that its depth is between 1 and [maxDepth]. *)
Definition wellRun (roots : list string) (r : Run) : Prop :=
  Forall (sound (scraper r)) (calls r)
  /\ Forall (known roots (scraper r)) (calls r)
  /\ (forall x : string, x ∈ fetched (scraper r) ->
        (x ∈ visited (scraper r)) /\ allowed W x = true
        /\ ((x ∈ roots) \/ exists n, (x, n) ∈ pendingCrawls (scraper r)))
  /\ (forall (x : string) (n : nat), (x, n) ∈ pendingCrawls (scraper r) ->
        1 <= n <= maxDepth cfg).

(** What holds all along a run that is never throttled: the URLs
    fetched and about to be fetched are all different, and visited. *)
Definition apart (r : Run) : Prop :=
  NoDup (omap toFetch (calls r) ++ fetched (scraper r))
  /\ (forall x : string, x ∈ omap toFetch (calls r) ++ fetched (scraper r) ->
        x ∈ visited (scraper r))
  /\ Forall (fun c => isThrottled c = false) (calls r).

End Steps.

End Schedule.

(* ===================================================================== *)
(** ** Schedules to run the crawl on                                      *)
(* ===================================================================== *)

Module Runs.

Import Schedule.

Definition cfg : Config :=
  {| maxDepth := 2; maxLinksPerPage := 5; maxPages := 20; excludePatterns := [] |}.

Definition dupUrl : string := "https://my.gov.au/dup".

(** What [page.evaluate] gives on a page that links twice to one page. *)
Definition twice : list (string * string) :=
  [ (dupUrl, "Apply for a payment"); (dupUrl, "Apply now") ].

(** The steps of the call number [i] from its start to [page.goto]: the
    head of [crawl], [browser.newPage()] resolved, the interception set. *)
Definition toGoto (i : nat) : list (nat * Outcome) :=
  [ (i, Resolves); (i, Resolves); (i, Resolves) ].

(** The steps of the call number [i] once it has started, on a page
    that loads and has no links: [browser.newPage()] resolved, the
    interception set, the page loaded, no link found, the end of the
    [forEach], the page closed. *)
Definition straight (i : nat) : list (nat * Outcome) :=
  [ (i, Resolves); (i, Resolves); (i, Loads Fixture.helpPage 0%Z); (i, Finds []);
    (i, Resolves); (i, Resolves) ].

(** No sitemap, no throttling; the start page links twice to one page.
    The start page is crawled up to the end of its [forEach]; the two
    calls it queued start one after the other while its page closes; the
    first of them goes on to the end. *)
Definition linkedTwice : list (nat * Outcome) :=
  toGoto 0
  ++ [ (0, Loads Fixture.paymentsPage 0%Z); (0, Finds twice);
       (0, Resolves); (0, Resolves); (0, Resolves) ]
  ++ [ (1, Resolves); (2, Resolves); (0, Resolves) ]
  ++ [ (1, Resolves); (1, Resolves); (1, Loads Fixture.helpPage 1%Z); (1, Finds []);
       (1, Resolves); (1, Resolves) ].

(** A sitemap of eight pages, and a clock on which the crawl is always
    too fast. *)
Definition hurried : World :=
  {| goto := fun _ _ => None;
     throttled := fun _ => true;
     sitemap := fun _ => map (fun i => "https://my.gov.au/p" +:+ i)
                             ["1"; "2"; "3"; "4"; "5"; "6"; "7"; "8"];
     allowed := fun _ => true;
     now := fun _ => 0%Z |}.

(** The eight sitemap pages are crawled, five at a time; then the start
    page, the ninth request, links twice to one page.  The first of the
    two calls it queued, the tenth request, waits for the throttle; the
    second starts meanwhile; both go on to [page.goto]. *)
Definition race : list (nat * Outcome) :=
  map (fun i => (i, Resolves)) [0; 1; 2; 3; 4]
  ++ straight 0 ++ [(5, Resolves)] ++ straight 1 ++ [(6, Resolves)]
  ++ straight 2 ++ [(7, Resolves)] ++ straight 3 ++ straight 4
  ++ straight 5 ++ straight 6 ++ straight 7
  ++ toGoto 8
  ++ [ (8, Loads Fixture.paymentsPage 0%Z); (8, Finds twice);
       (8, Resolves); (8, Resolves); (8, Resolves) ]
  ++ [ (9, Resolves); (10, Resolves); (8, Resolves) ]
  ++ [ (10, Resolves); (10, Resolves) ]
  ++ toGoto 9.

(** A sitemap of one page, which links to the start page. *)
Definition listed : World :=
  {| goto := fun _ _ => None;
     throttled := fun _ => false;
     sitemap := fun _ => ["https://my.gov.au/s1"];
     allowed := fun _ => true;
     now := fun _ => 0%Z |}.

(** The sitemap page is crawled up to the end of its [forEach]; the call
    it queued for the start page starts and goes on to [page.goto] while
    its page closes; then [run] calls [crawl] on the start URL. *)
Definition childFirst : list (nat * Outcome) :=
  toGoto 0
  ++ [ (0, Loads Fixture.helpPage 0%Z); (0, Finds [(Fixture.homeUrl, "Home")]);
       (0, Resolves); (0, Resolves) ]
  ++ toGoto 2
  ++ [ (0, Resolves); (1, Resolves) ].

(** One call whose navigation times out: up to [page.goto], the failure,
    the delay before the retry, the page closed. *)
Definition timedOut : list (nat * Outcome) :=
  toGoto 0 ++ [ (0, Rejects); (0, Resolves); (0, Resolves) ].

(** One call whose page loads and gives the two links of the start page
    of [Fixture.site]: up to [page.goto], the page, the links, the two
    links queued, the end of the [forEach], the page closed. *)
Definition loaded : list (nat * Outcome) :=
  toGoto 0
  ++ [ (0, Loads (dom (Fixture.site Fixture.homeUrl)) 0%Z);
       (0, Finds (links (Fixture.site Fixture.homeUrl)));
       (0, Resolves); (0, Resolves); (0, Resolves); (0, Resolves) ].

(** One call for which the browser opens no page. *)
Definition noPage : list (nat * Outcome) :=
  [ (0, Resolves); (0, Rejects) ].

End Runs.
(* ===================================================================== *)
(** * Properties                                                          *)
(* ===================================================================== *)

(** ** Strings *)

Section StringFacts.

Lemma isEmpty_true (s : string) : Js.isEmpty s = true <-> s = "".
Proof. destruct s; simpl; split; congruence. Qed.

Lemma length_zero_empty (s : string) : (String.length s =? 0) = true <-> s = "".
Proof. destruct s; simpl; split; congruence. Qed.

Lemma trimStart_empty (s : string) : Js.trimStart s = "" -> Js.allSpace s = true.
Proof.
  induction s as [|c r IH]; simpl; [done|].
  destruct (Js.isSpace c); [auto | discriminate].
Qed.

Lemma trimEnd_empty (s : string) : Js.trimEnd s = "" -> Js.allSpace s = true.
Proof.
  induction s as [|c r IH]; simpl; [done|].
  destruct (Js.isSpace c); simpl; [|discriminate].
  destruct (Js.trimEnd r) eqn:E; simpl; [auto | discriminate].
Qed.

Lemma trimStart_head (s : string) c r :
  Js.trimStart s = String c r -> Js.isSpace c = false.
Proof.
  induction s as [|d t IH]; simpl; [discriminate|].
  destruct (Js.isSpace d) eqn:E; [auto|].
  intros [= -> ->]. done.
Qed.

(** A text that trims to nothing is white space only. *)
Lemma trim_empty (s : string) : Js.trim s = "" -> Js.allSpace s = true.
Proof.
  unfold Js.trim. intros H.
  destruct (Js.trimStart s) as [|c r] eqn:E.
  - by apply trimStart_empty.
  - apply trimStart_head in E. simpl in H. rewrite E in H. discriminate.
Qed.

Lemma allSpace_trimStart (s : string) : Js.allSpace s = true -> Js.trimStart s = "".
Proof.
  induction s as [|c r IH]; simpl; [done|].
  intros [Hc Hr]%andb_prop. rewrite Hc. auto.
Qed.

Lemma allSpace_trim (s : string) : Js.allSpace s = true -> Js.trim s = "".
Proof. intros H. unfold Js.trim. by rewrite allSpace_trimStart. Qed.

Lemma lowerChar_space (c : ascii) : Js.isSpace c = true -> Js.lowerChar c = c.
Proof.
  destruct c as [[] [] [] [] [] [] [] []]; vm_compute; congruence.
Qed.

Lemma allSpace_smap (f : ascii -> ascii) (s : string) :
  (forall c, Js.isSpace c = true -> f c = c) ->
  Js.allSpace s = true -> Js.allSpace (Js.smap f s) = true.
Proof.
  intros Hf. induction s as [|c r IH]; simpl; [done|].
  intros [Hc Hr]%andb_prop. rewrite (Hf c Hc), Hc. simpl. auto.
Qed.

Lemma allSpace_collapse (b : bool) (s : string) :
  Js.allSpace s = true -> Js.allSpace (Js.collapseFrom b s) = true.
Proof.
  revert b. induction s as [|c r IH]; intros b; simpl; [done|].
  intros [Hc Hr]%andb_prop. rewrite Hc.
  destruct b; simpl; auto.
Qed.

Lemma punctToSpace_space (c : ascii) : Js.isSpace c = true -> punctToSpace c = c.
Proof. intros H. unfold punctToSpace. rewrite H, orb_true_r. done. Qed.

(** White space only normalizes to the empty string. *)
Lemma normalizeContent_allSpace (s : string) :
  Js.allSpace s = true -> normalizeContent s = "".
Proof.
  intros H. unfold normalizeContent, Js.collapseSpaces, Js.toLowerCase.
  apply allSpace_trim, allSpace_collapse, allSpace_smap; [apply punctToSpace_space|].
  apply allSpace_smap; [apply lowerChar_space | done].
Qed.

End StringFacts.

(** ** The content hash *)

Section ContentHashFacts.
Context (P : Platform).

(** [calculateContentHash] reads its argument through the normalization
    only. *)
Lemma calculateContentHash_normalized (text : string) :
  calculateContentHash P text =
    if Js.isEmpty (normalizeContent text) then None
    else Some (sha256_hex P (normalizeContent text)).
Proof.
  unfold calculateContentHash.
  destruct (Js.isEmpty text || (String.length (Js.trim text) =? 0)) eqn:E.
  - assert (Js.allSpace text = true) as Hs.
    { apply orb_prop in E as [E|E].
      - apply isEmpty_true in E. by subst.
      - by apply trim_empty, length_zero_empty. }
    by rewrite (normalizeContent_allSpace _ Hs).
  - by destruct (normalizeContent text).
Qed.

End ContentHashFacts.

(** C8 (as amended).  For the fragments extracted under a heading, the
    only ones that carry a content hash, [content_hash] depends only on
    the normalized content text (lower case, punctuation to spaces, white
    space collapsed, trimmed): two such fragments, from any two pages,
    whose normalized content texts are the same have the same
    [content_hash], and the hash is null when the content text is empty
    or normalizes to the empty string.  A standalone fragment has no
    [content_hash], whatever its text. *)
Theorem content_hash_of_normalized_text (P : Platform)
    (h1 h2 : Located) (c1 c2 : list Dom.Node) (url1 url2 : string)
    (crumbs1 crumbs2 : list string) (title1 title2 : string) (now1 now2 : Z)
    (elem : Dom.Node) (url3 : string) (crumbs3 : list string) (now3 : Z) :
  let f1 := extractFragment P h1 c1 url1 crumbs1 title1 now1 in
  let f2 := extractFragment P h2 c2 url2 crumbs2 title2 now2 in
  normalizeContent (Frag.content_text f1) = normalizeContent (Frag.content_text f2) ->
  Frag.content_hash f1 = Frag.content_hash f2
  /\ (Frag.content_text f1 = "" -> Frag.content_hash f1 = None)
  /\ (normalizeContent (Frag.content_text f1) = "" -> Frag.content_hash f1 = None)
  /\ (normalizeContent (Frag.content_text f1) <> "" ->
      Frag.content_hash f1 = Some (sha256_hex P (normalizeContent (Frag.content_text f1))))
  /\ Frag.content_hash (extractStandaloneFragment P elem url3 crumbs3 now3) = None.
Proof.
  simpl. intros Hn.
  rewrite !calculateContentHash_normalized.
  split; [by rewrite Hn|]. split; [|split; [|split]].
  - intros E. by rewrite E.
  - intros E. by rewrite E.
  - intros E. destruct (normalizeContent (Js.trim (Dom.textOf c1))); done.
  - reflexivity.
Qed.

Lemma content_hash_of_normalized_text_witness :
  let f1 := extractFragment Fixture.platform
              (mkLocated (Fixture.h "h2" "How to claim") []) [Fixture.para "Claim online."]
              "https://www.servicesaustralia.gov.au/carers" [] "Carers" 1%Z in
  let f2 := extractFragment Fixture.platform
              (mkLocated (Fixture.h "h3" "Apply") []) [Fixture.para "  claim   ONLINE!  "]
              "https://my.gov.au/apply" ["Home"] "myGov" 2%Z in
  normalizeContent (Frag.content_text f1) = normalizeContent (Frag.content_text f2)
  /\ Frag.content_hash f1 = Frag.content_hash f2.
Proof.
  split; [reflexivity|].
  apply (proj1 (content_hash_of_normalized_text Fixture.platform
           (mkLocated (Fixture.h "h2" "How to claim") []) (mkLocated (Fixture.h "h3" "Apply") [])
           [Fixture.para "Claim online."] [Fixture.para "  claim   ONLINE!  "]
           "https://www.servicesaustralia.gov.au/carers" "https://my.gov.au/apply"
           [] ["Home"] "Carers" "myGov" 1%Z 2%Z
           (Fixture.para "x") "https://my.gov.au/" [] 3%Z eq_refl)).
Defined.

(** C8 as stated fails: a fragment under a heading and a standalone
    fragment (an alert box) with the same content text, hence the same
    normalized text, do not have the same [content_hash]; the first has a
    digest, the second has none. *)
Lemma content_hash_counterexample :
  let f1 := extractFragment Fixture.platform
              (mkLocated (Fixture.h "h2" "Notice") []) [Fixture.para "Offices are closed."]
              "https://my.gov.au/a" [] "myGov" 1%Z in
  let f2 := extractStandaloneFragment Fixture.platform
              (Dom.Elem "div" [("class", "alert")] [Dom.Text "Offices are closed."])
              "https://my.gov.au/b" [] 1%Z in
  Frag.content_text f1 = Frag.content_text f2
  /\ normalizeContent (Frag.content_text f1) = normalizeContent (Frag.content_text f2)
  /\ Frag.content_hash f1 <> Frag.content_hash f2.
Proof.
  split; [reflexivity|]. split; [reflexivity|]. discriminate.
Qed.

(** ** Fragment identity *)

Section IdentityFacts.
Context (P : Platform).

Lemma enrich_id (classify : Enricher) (f e : Frag.Raw) :
  enrichWithTaxonomy classify f = Some e -> Frag.id e = Frag.id f.
Proof.
  unfold enrichWithTaxonomy. destruct (classify f); [|discriminate].
  by intros [= <-].
Qed.

Lemma enrich_total (classify : Enricher) (f : Frag.Raw) :
  (forall g, classify g <> None) ->
  exists t, enrichWithTaxonomy classify f = Some (Frag.withTaxonomy f t).
Proof.
  intros Ht. unfold enrichWithTaxonomy.
  destruct (classify f) as [t|] eqn:E; [eauto | by apply Ht in E].
Qed.

(** The identifier [extractFragment] derives does not read the clock. *)
Lemma extractFragment_id (h : Located) (c : list Dom.Node) (url : string)
    (crumbs : list string) (title : string) (now : Z) :
  Frag.id (extractFragment P h c url crumbs title now)
  = md5_hex P (url +:+ Js.trim (Dom.text (node h)) +:+ Js.trim (Dom.textOf c)).
Proof. reflexivity. Qed.

Lemma headingFragment_ids (V1 V2 : Z) (k1 k2 : Enricher) root url crumbs title
    (now1 now2 : Z) hp next :
  (forall g, k1 g <> None) -> (forall g, k2 g <> None) ->
  map Frag.idOf (headingFragment P V1 k1 root url crumbs title now1 hp next)
  = map Frag.idOf (headingFragment P V2 k2 root url crumbs title now2 hp next).
Proof.
  intros H1 H2. unfold headingFragment.
  destruct (negb _ || _); [|done].
  destruct (enrich_total k1 (extractFragment P (locate root hp)
              (Dom.nodesAt root (contentOf root hp next)) url crumbs title now1) H1)
    as [t1 ->].
  destruct (enrich_total k2 (extractFragment P (locate root hp)
              (Dom.nodesAt root (contentOf root hp next)) url crumbs title now2) H2)
    as [t2 ->].
  reflexivity.
Qed.

Lemma standaloneFragment_ids (V1 V2 : Z) (k1 k2 : Enricher) root url crumbs
    (now1 now2 : Z) ep :
  (forall g, k1 g <> None) -> (forall g, k2 g <> None) ->
  map Frag.idOf (standaloneFragment P V1 k1 root url crumbs now1 ep)
  = map Frag.idOf (standaloneFragment P V2 k2 root url crumbs now2 ep).
Proof.
  intros H1 H2. unfold standaloneFragment.
  destruct (enrich_total k1 (extractStandaloneFragment P (nodeOr root ep) url crumbs now1) H1)
    as [t1 ->].
  destruct (enrich_total k2 (extractStandaloneFragment P (nodeOr root ep) url crumbs now2) H2)
    as [t2 ->].
  reflexivity.
Qed.

Lemma map_concat_map {A B C : Type} (f g : A -> list B) (k : B -> C) (l : list A) :
  (forall a, map k (f a) = map k (g a)) ->
  map k (concat (map f l)) = map k (concat (map g l)).
Proof.
  intros H. induction l as [|a l IH]; simpl; [done|].
  by rewrite !map_app, H, IH.
Qed.

Lemma extractFragments_ids (V1 V2 : Z) (k1 k2 : Enricher) root url (now1 now2 : Z) :
  (forall g, k1 g <> None) -> (forall g, k2 g <> None) ->
  map Frag.idOf (extractFragments P V1 k1 root url now1)
  = map Frag.idOf (extractFragments P V2 k2 root url now2).
Proof.
  intros H1 H2. unfold extractFragments, headingFragments, standaloneFragments.
  rewrite !map_app. destruct (mainOf root) as [main|]; [|done].
  f_equal.
  - apply map_concat_map. intros [hp next]. by apply headingFragment_ids.
  - apply map_concat_map. intros sel. apply map_concat_map. intros ep.
    by apply standaloneFragment_ids.
Qed.

End IdentityFacts.

(** C6, as amended.  The identifier of a fragment is one function of
    the URL, a heading text and a content text,
    [md5(url + heading + content)].  Under a heading these are the trimmed
    text of the heading and the trimmed text of its content, which is the
    content text that is stored: two such extractions with the same URL,
    heading text and content text have the same identifier.  For a
    standalone element no heading text is hashed and the content is the
    text of the element as it stands, white space around it included,
    while the content text that is stored is that text trimmed: two such
    extractions have the same identifier when the URL and the text of the
    element are the same, hence when the URL and the content texts are the
    same and the texts of the elements have no white space around them.
    Whatever the clock, the
    crawl version, the breadcrumbs, the page title and the taxonomy; so
    two extractions of an unchanged page, in two runs, give the same
    fragment identifiers (when the enricher rejects no fragment). *)
Theorem fragment_id_deterministic (P : Platform) :
  (forall (h : Located) (c : list Dom.Node) (url : string) (crumbs : list string)
          (title : string) (now : Z),
      Frag.id (extractFragment P h c url crumbs title now)
      = identityOf P url (Js.trim (Dom.text (node h))) (Js.trim (Dom.textOf c))
      /\ Frag.content_text (extractFragment P h c url crumbs title now)
         = Js.trim (Dom.textOf c))
  /\ (forall (e : Dom.Node) (url : string) (crumbs : list string) (now : Z),
      Frag.id (extractStandaloneFragment P e url crumbs now)
      = identityOf P url "" (Dom.text e)
      /\ Frag.content_text (extractStandaloneFragment P e url crumbs now)
         = Js.trim (Dom.text e))
  /\ (forall (h1 h2 : Located) (c1 c2 : list Dom.Node) (url : string)
          (crumbs1 crumbs2 : list string) (title1 title2 : string) (now1 now2 : Z),
      Js.trim (Dom.text (node h1)) = Js.trim (Dom.text (node h2)) ->
      Js.trim (Dom.textOf c1) = Js.trim (Dom.textOf c2) ->
      Frag.id (extractFragment P h1 c1 url crumbs1 title1 now1)
      = Frag.id (extractFragment P h2 c2 url crumbs2 title2 now2))
  /\ (forall (e1 e2 : Dom.Node) (url : string) (crumbs1 crumbs2 : list string)
             (now1 now2 : Z),
      Dom.text e1 = Dom.text e2 ->
      Frag.id (extractStandaloneFragment P e1 url crumbs1 now1)
      = Frag.id (extractStandaloneFragment P e2 url crumbs2 now2))
  /\ (forall (e1 e2 : Dom.Node) (url : string) (crumbs1 crumbs2 : list string)
             (now1 now2 : Z),
      Js.trim (Dom.text e1) = Dom.text e1 -> Js.trim (Dom.text e2) = Dom.text e2 ->
      Frag.content_text (extractStandaloneFragment P e1 url crumbs1 now1)
      = Frag.content_text (extractStandaloneFragment P e2 url crumbs2 now2) ->
      Frag.id (extractStandaloneFragment P e1 url crumbs1 now1)
      = Frag.id (extractStandaloneFragment P e2 url crumbs2 now2))
  /\ (forall (V1 V2 : Z) (k1 k2 : Enricher) (root : Dom.Node) (url : string)
             (now1 now2 : Z),
      (forall g, k1 g <> None) -> (forall g, k2 g <> None) ->
      map Frag.idOf (extractFragments P V1 k1 root url now1)
      = map Frag.idOf (extractFragments P V2 k2 root url now2)).
Proof.
  split; [by intros; split|]. split; [by intros; split|]. split; [|split; [|split]].
  - intros * Hh Hc. rewrite !extractFragment_id. by rewrite Hh, Hc.
  - intros * He. unfold extractStandaloneFragment. simpl. by rewrite He.
  - intros * H1 H2 Hc.
    change (Js.trim (Dom.text e1) = Js.trim (Dom.text e2)) in Hc.
    change (md5_hex P (url +:+ Dom.text e1) = md5_hex P (url +:+ Dom.text e2)).
    rewrite H1, H2 in Hc. by rewrite Hc.
  - intros. by apply extractFragments_ids.
Qed.

(** C6 as stated fails for the standalone fragments: two alert boxes at
    the same URL, with the same title and the same content text, whose
    texts differ in the white space around them (as when the page has
    been indented anew), do not get the same identifier; and so for the
    fragments [extractFragments] makes of two pages that differ in this
    only. *)
Lemma fragment_id_counterexample :
  let url := "https://my.gov.au/notice" in
  let box := fun s => Dom.Elem "div" [("class", "alert")] [Dom.Text s] in
  let page := fun s =>
    Fixture.el "html" [Fixture.el "body" [Fixture.el "main" [box s]]] in
  let f1 := extractStandaloneFragment Fixture.platform
              (box "Offices are closed.") url [] 1%Z in
  let f2 := extractStandaloneFragment Fixture.platform
              (box "  Offices are closed.  ") url [] 1%Z in
  let fs1 := extractFragments Fixture.platform 1%Z Fixture.national
               (page "Offices are closed.") url 1%Z in
  let fs2 := extractFragments Fixture.platform 1%Z Fixture.national
               (page "  Offices are closed.  ") url 1%Z in
  Frag.title f1 = Frag.title f2
  /\ Frag.content_text f1 = Frag.content_text f2
  /\ Frag.id f1 <> Frag.id f2
  /\ length fs1 = 1
  /\ map (fun f => (Frag.title (Frag.raw f), Frag.content_text (Frag.raw f))) fs1
     = map (fun f => (Frag.title (Frag.raw f), Frag.content_text (Frag.raw f))) fs2
  /\ map Frag.idOf fs1 <> map Frag.idOf fs2.
Proof.
  cbv zeta.
  split; [vm_compute; reflexivity|]. split; [vm_compute; reflexivity|].
  split; [vm_compute; discriminate|].
  split; [vm_compute; reflexivity|]. split; [vm_compute; reflexivity|].
  vm_compute. discriminate.
Qed.

Lemma fragment_id_deterministic_witness :
  Js.trim (Dom.text (Fixture.h "h2" " Eligibility ")) = Js.trim (Dom.text (Fixture.h "h3" "Eligibility"))
  /\ Js.trim (Dom.textOf [Fixture.para "Who can get it."; Dom.Text "  "])
     = Js.trim (Dom.textOf [Fixture.el "ul" [Fixture.el "li" [Dom.Text "Who can get it."]]])
  /\ Frag.id (extractFragment Fixture.platform (mkLocated (Fixture.h "h2" " Eligibility ") [])
                [Fixture.para "Who can get it."; Dom.Text "  "]
                Fixture.carersUrl [] "Carers" 1%Z)
     = Frag.id (extractFragment Fixture.platform (mkLocated (Fixture.h "h3" "Eligibility") [])
                  [Fixture.el "ul" [Fixture.el "li" [Dom.Text "Who can get it."]]]
                  Fixture.carersUrl ["Home"; "Carers"] "Carer Payment" 2%Z)
  /\ Frag.id (extractStandaloneFragment Fixture.platform
                (Dom.Elem "div" [("class", "alert")] [Dom.Text "Offices are closed."])
                Fixture.paymentsUrl [] 1%Z)
     = Frag.id (extractStandaloneFragment Fixture.platform
                  (Dom.Elem "section" [("class", "warning-box")]
                            [Fixture.para "Offices are "; Fixture.el "b" [Dom.Text "closed."]])
                  Fixture.paymentsUrl ["Home"] 2%Z)
  /\ map Frag.idOf (extractFragments Fixture.platform 1%Z Fixture.national
                      Fixture.paymentsPage Fixture.paymentsUrl 10%Z)
     = map Frag.idOf (extractFragments Fixture.platform 2%Z Fixture.national
                        Fixture.paymentsPage Fixture.paymentsUrl 20%Z).
Proof.
  split; [reflexivity|]. split; [reflexivity|]. split; [|split].
  - apply (proj1 (proj2 (proj2 (fragment_id_deterministic Fixture.platform))));
      reflexivity.
  - apply (proj1 (proj2 (proj2 (proj2 (proj2 (fragment_id_deterministic Fixture.platform))))));
      vm_compute; reflexivity.
  - apply (proj2 (proj2 (proj2 (proj2 (proj2 (fragment_id_deterministic Fixture.platform))))));
      discriminate.
Defined.

(** ** Hierarchy *)

Section HierarchyFacts.
Context (P : Platform).

Lemma orElse_nonempty (a b : string) : b <> "" -> Js.orElse a b <> "".
Proof. unfold Js.orElse. destruct a; simpl; congruence. Qed.

Lemma optOr_nonempty (o : option string) (b : string) : b <> "" -> Js.optOr o b <> "".
Proof. destruct o; simpl; [apply orElse_nonempty | done]. Qed.

Lemma orElse_of_nonempty (a b : string) : a <> "" -> Js.orElse a b = a.
Proof. unfold Js.orElse. destruct a; simpl; congruence. Qed.




Lemma headingLevelOf_tag (n : Dom.Node) (t : string) :
  Dom.tagName n = t -> headingLevelOf n = headingLevelOf (Dom.Elem t [] []).
Proof. intros <-. by destruct n. Qed.

End HierarchyFacts.




(** ** The page URL of a fragment *)

Section PageUrlFacts.
Context (P : Platform).
Context (V : Z) (classify : Enricher).

Lemma in_concat_map {A B : Type} (f : A -> list B) (l : list A) (b : B) :
  In b (concat (map f l)) -> exists a, In a l /\ In b (f a).
Proof.
  intros (bs & Hbs & Hb)%in_concat.
  apply in_map_iff in Hbs as (a & <- & Ha). eauto.
Qed.

Lemma headingFragment_page_url root url crumbs title now hp next f :
  In f (headingFragment P V classify root url crumbs title now hp next) ->
  Frag.page_url f = Some (baseUrl P url).
Proof.
  unfold headingFragment.
  destruct (negb _ || _); [|done].
  destruct (enrichWithTaxonomy _ _); [|done].
  intros [<-|[]]. reflexivity.
Qed.

Lemma standaloneFragment_page_url root url crumbs now ep f :
  In f (standaloneFragment P V classify root url crumbs now ep) ->
  Frag.page_url f = None.
Proof.
  unfold standaloneFragment.
  destruct (enrichWithTaxonomy _ _); [|done].
  intros [<-|[]]. reflexivity.
Qed.

Lemma headingFragments_page_url root url now f :
  In f (headingFragments P V classify root url now) ->
  Frag.page_url f = Some (baseUrl P url).
Proof.
  unfold headingFragments. destruct (mainOf root); [|done].
  intros ([hp next] & _ & Hf)%in_concat_map.
  by apply headingFragment_page_url in Hf.
Qed.

Lemma standaloneFragments_page_url root url now f :
  In f (standaloneFragments P V classify root url now) ->
  Frag.page_url f = None.
Proof.
  unfold standaloneFragments. destruct (mainOf root); [|done].
  intros (sel & _ & Hf)%in_concat_map.
  apply in_concat_map in Hf as (ep & _ & Hf).
  by apply standaloneFragment_page_url in Hf.
Qed.

(** On a URL that parses, [baseUrl] is the URL without query and hash. *)
Lemma baseUrl_parsed (url : string) (u : URL) :
  new_URL P url None = Some u ->
  baseUrl P url
  = URL_toString P {| protocol := protocol u; hostname := hostname u;
                      origin := origin u; pathname := pathname u;
                      search := None; hash := None |}.
Proof. intros H. unfold baseUrl. by rewrite H. Qed.

End PageUrlFacts.

(** A document without [page_url] is kept by the prune, whatever the
    target host and the versions. *)
Lemma prune_keeps_without_page_url (V : Z) (targetHost : option string)
    (fragmentsThrow pagesThrow : bool) (c : Collections) (f : Frag.Fragment) :
  Frag.page_url f = None ->
  In f (content_fragments c) ->
  In f (content_fragments (pruneStaleDocs V targetHost fragmentsThrow pagesThrow c)).
Proof.
  intros Hp Hin. unfold pruneStaleDocs.
  destruct (Js.truthy targetHost); [|done].
  destruct fragmentsThrow; simpl; [done|].
  apply list_elem_of_In, list_elem_of_filter. split.
  - unfold fragmentFilter. rewrite Hp. apply andb_false_r.
  - by apply list_elem_of_In.
Qed.

(** C9.  The fragments [extractFragments] emits are the heading fragments
    followed by the standalone ones.  Every heading fragment has
    [page_url] = [baseUrl(url)], which is the crawled URL with query and
    hash removed (a crawled URL parses); every standalone fragment has no
    [page_url].  The filter of the fragment prune matches on [page_url],
    so it matches no standalone fragment: the prune keeps every one of
    them in the store. *)
Theorem page_url_on_heading_fragments_only (P : Platform) (V : Z) (classify : Enricher)
    (root : Dom.Node) (url : string) (now : Z) :
  extractFragments P V classify root url now
  = headingFragments P V classify root url now
    ++ standaloneFragments P V classify root url now
  /\ (forall f, In f (headingFragments P V classify root url now) ->
        Frag.page_url f = Some (baseUrl P url)
        /\ forall u, new_URL P url None = Some u ->
             Frag.page_url f
             = Some (URL_toString P {| protocol := protocol u; hostname := hostname u;
                                       origin := origin u; pathname := pathname u;
                                       search := None; hash := None |}))
  /\ (forall f, In f (standaloneFragments P V classify root url now) ->
        Frag.page_url f = None
        /\ (forall V' host, fragmentFilter V' host f = false)
        /\ (forall V' targetHost fragmentsThrow pagesThrow c,
              In f (content_fragments c) ->
              In f (content_fragments
                      (pruneStaleDocs V' targetHost fragmentsThrow pagesThrow c)))).
Proof.
  split; [reflexivity|]. split.
  - intros f Hf. apply headingFragments_page_url in Hf. split; [done|].
    intros u Hu. by rewrite Hf, (baseUrl_parsed P url u Hu).
  - intros f Hf. apply standaloneFragments_page_url in Hf. split; [done|]. split.
    + intros V' host. unfold fragmentFilter. rewrite Hf. apply andb_false_r.
    + intros. by apply prune_keeps_without_page_url.
Qed.

Lemma page_url_on_heading_fragments_only_witness :
  let frs := extractFragments Fixture.platform 1%Z Fixture.national
               Fixture.paymentsPage Fixture.paymentsUrl 0%Z in
  map (fun f => (Frag.title (Frag.raw f), Frag.page_url f)) frs
  = [ ("Payments", Some "https://my.gov.au/payments");
      ("Rates", Some "https://my.gov.au/payments");
      ("Important Information", None) ]
  /\ forall f, In f (standaloneFragments Fixture.platform 1%Z Fixture.national
                       Fixture.paymentsPage Fixture.paymentsUrl 0%Z) ->
       fragmentFilter 2%Z "my.gov.au" f = false.
Proof.
  split; [vm_compute; reflexivity|].
  intros f Hf.
  apply (proj2 (proj2 (page_url_on_heading_fragments_only Fixture.platform 1%Z
                         Fixture.national Fixture.paymentsPage Fixture.paymentsUrl 0%Z))
           f Hf).
Defined.

(** ** Page aggregation *)

Section SetFacts.

Lemma setAdd_elem (x y : string) (s : list string) :
  y ∈ setAdd x s <-> y = x \/ y ∈ s.
Proof.
  unfold setAdd. destruct (decide (x ∈ s)) as [Hx|Hx].
  - split; [auto|]. intros [->|H]; done.
  - rewrite elem_of_app, list_elem_of_singleton. tauto.
Qed.

Lemma setAdd_NoDup (x : string) (s : list string) : NoDup s -> NoDup (setAdd x s).
Proof.
  intros Hs. unfold setAdd. destruct (decide (x ∈ s)) as [Hx|Hx]; [done|].
  apply NoDup_app. split; [done|]. split.
  - intros y Hy ->%list_elem_of_singleton. done.
  - apply NoDup_singleton.
Qed.

Lemma setAddAll_elem (xs : list string) (y : string) (s : list string) :
  y ∈ setAddAll xs s <-> y ∈ xs \/ y ∈ s.
Proof.
  unfold setAddAll. revert s. induction xs as [|x xs IH]; intros s; simpl.
  - rewrite elem_of_nil. tauto.
  - rewrite IH, setAdd_elem, elem_of_cons. tauto.
Qed.

Lemma setAddAll_NoDup (xs : list string) (s : list string) :
  NoDup s -> NoDup (setAddAll xs s).
Proof.
  unfold setAddAll. revert s. induction xs as [|x xs IH]; intros s Hs; simpl; [done|].
  apply IH. by apply setAdd_NoDup.
Qed.

Lemma setAddAll_app (xs ys : list string) (s : list string) :
  setAddAll (xs ++ ys) s = setAddAll ys (setAddAll xs s).
Proof. unfold setAddAll. apply fold_left_app. Qed.

Lemma setAddTruthy_all (o : option string) (s : list string) :
  setAddTruthy o s = setAddAll (truthyValue o) s.
Proof. destruct o as [x|]; simpl; [|done]. by destruct (Js.isEmpty x). Qed.

(** Two sets in insertion order with the same members are reorderings
    of one another. *)
Lemma same_members_Permutation (l1 l2 : list string) :
  NoDup l1 -> NoDup l2 -> (forall x, x ∈ l1 <-> x ∈ l2) -> l1 ≡ₚ l2.
Proof. intros. by apply NoDup_Permutation. Qed.

(** Folding set additions over a list collects the members of all. *)
Lemma fold_setAddAll {A : Type} (elems : A -> list string) (l : list A)
    (s : list string) :
  fold_left (fun acc a => setAddAll (elems a) acc) l s
  = setAddAll (concat (map elems l)) s.
Proof.
  revert s. induction l as [|a l IH]; intros s; simpl; [done|].
  by rewrite IH, setAddAll_app.
Qed.

End SetFacts.

Section GroupingFacts.
Context (P : Platform).

Implicit Types (fs : list Frag.Fragment) (f : Frag.Fragment) (page : string).

Lemma pageKeys_snoc fs f :
  pageKeys P (fs ++ [f])
  = if Js.isEmpty (pageOf P f) then pageKeys P fs
    else setAdd (pageOf P f) (pageKeys P fs).
Proof. unfold pageKeys. by rewrite fold_left_app. Qed.

Lemma pageKeys_NoDup fs : NoDup (pageKeys P fs).
Proof.
  induction fs as [|f fs IH] using rev_ind; [constructor|].
  rewrite pageKeys_snoc. destruct (Js.isEmpty _); [done|]. by apply setAdd_NoDup.
Qed.

(** The pages are the non-empty page URLs of the fragments. *)
Lemma pageKeys_elem fs page :
  page ∈ pageKeys P fs <-> page <> "" /\ exists f, f ∈ fs /\ pageOf P f = page.
Proof.
  induction fs as [|f fs IH] using rev_ind.
  - split; [by intros ?%elem_of_nil|]. by intros (_ & f & ?%elem_of_nil & _).
  - rewrite pageKeys_snoc.
    destruct (Js.isEmpty (pageOf P f)) eqn:E.
    + rewrite IH. apply isEmpty_true in E. split.
      * intros (Hne & g & Hg & Hp). split; [done|]. exists g. split; [|done].
        apply elem_of_app. by left.
      * intros (Hne & g & Hg & Hp). split; [done|]. exists g. split; [|done].
        apply elem_of_app in Hg as [Hg|Hg%list_elem_of_singleton]; [done|].
        subst g. congruence.
    + rewrite setAdd_elem, IH. split.
      * intros [->|(Hne & g & Hg & Hp)].
        -- split; [intros E'; rewrite E' in E; discriminate|].
           exists f. split; [|done]. apply elem_of_app. right. by apply list_elem_of_singleton.
        -- split; [done|]. exists g. split; [|done]. apply elem_of_app. by left.
      * intros (Hne & g & Hg & Hp).
        apply elem_of_app in Hg as [Hg|Hg%list_elem_of_singleton].
        -- right. eauto.
        -- left. by subst g.
Qed.

Lemma fragmentsOfPage_snoc page fs f :
  fragmentsOfPage P page (fs ++ [f])
  = fragmentsOfPage P page fs ++ (if decide (pageOf P f = page) then [f] else []).
Proof.
  unfold fragmentsOfPage. rewrite filter_app. f_equal.
Qed.

Lemma accOf_snoc page fs f :
  accOf P page (fs ++ [f])
  = if decide (pageOf P f = page) then accumulate P (accOf P page fs) f
    else accOf P page fs.
Proof.
  unfold accOf. rewrite fragmentsOfPage_snoc.
  destruct (decide _); [by rewrite fold_left_app | by rewrite app_nil_r].
Qed.

(** No fragment of a page that is not among the keys. *)
Lemma fragmentsOfPage_not_key page fs :
  page <> "" -> page ∉ pageKeys P fs -> fragmentsOfPage P page fs = [].
Proof.
  intros Hne Hk. unfold fragmentsOfPage.
  induction fs as [|f fs IH] using rev_ind; [done|].
  rewrite filter_app, IH.
  - rewrite filter_cons_False; [done|]. intros Hp.
    apply Hk, pageKeys_elem. split; [done|]. exists f. split; [|done].
    apply elem_of_app. right. by apply list_elem_of_singleton.
  - intros Hin. apply Hk. apply pageKeys_elem in Hin as (_ & g & Hg & Hp).
    apply pageKeys_elem. split; [done|]. exists g. split; [|done].
    apply elem_of_app. by left.
Qed.

(** [visit] on a map whose keys are distinct. *)
Lemma visit_map (g : string -> Page.Acc) (ks : list string) page f :
  NoDup ks ->
  visit P page f (map (fun k => (k, g k)) ks)
  = if decide (page ∈ ks)
    then map (fun k => (k, if decide (page = k) then accumulate P (g k) f else g k)) ks
    else map (fun k => (k, g k)) ks ++ [(page, accumulate P (emptyAcc P page) f)].
Proof.
  induction 1 as [|k ks Hk Hks IH]; [done|].
  cbn [map visit].
  destruct (String.eqb_spec k page) as [->|Hne].
  - rewrite decide_True by (apply elem_of_cons; auto).
    rewrite decide_True by done. f_equal.
    apply map_ext_in. intros k Hin%list_elem_of_In.
    rewrite decide_False; [done|]. by intros ->.
  - rewrite IH. destruct (decide (page ∈ ks)) as [Hin|Hin].
    + rewrite decide_True by (apply elem_of_cons; auto).
      by rewrite decide_False by done.
    + rewrite decide_False; [done|].
      intros [->|?]%elem_of_cons; done.
Qed.

(** The map [buildPageDocs] builds: one entry per page, in the order of
    first appearance, each holding the accumulation of the fragments of
    that page. *)
Lemma fold_step_grouped fs :
  fold_left (step P) fs [] = map (fun k => (k, accOf P k fs)) (pageKeys P fs).
Proof.
  induction fs as [|f fs IH] using rev_ind; [done|].
  rewrite fold_left_app, IH. simpl. unfold step.
  rewrite pageKeys_snoc.
  destruct (Js.isEmpty (pageOf P f)) eqn:E.
  - apply map_ext_in. intros k Hk%list_elem_of_In.
    rewrite accOf_snoc, decide_False; [done|].
    intros Hp. apply pageKeys_elem in Hk as [Hne _].
    apply isEmpty_true in E. congruence.
  - rewrite visit_map by apply pageKeys_NoDup.
    unfold setAdd. destruct (decide (pageOf P f ∈ pageKeys P fs)) as [Hin|Hin].
    + apply map_ext_in. intros k _. rewrite accOf_snoc.
      destruct (decide (pageOf P f = k)); done.
    + rewrite map_app. simpl. f_equal.
      * apply map_ext_in. intros k Hk%list_elem_of_In.
        rewrite accOf_snoc, decide_False; [done|]. by intros <-.
      * rewrite accOf_snoc, decide_True by done.
        unfold accOf. rewrite fragmentsOfPage_not_key; [done| |done].
        intros E'. rewrite E' in E. discriminate.
Qed.

Lemma buildPageDocs_grouped (V : Z) fs (now : Z) :
  buildPageDocs P V fs now
  = map (fun k => finalize V now (accOf P k fs)) (pageKeys P fs).
Proof.
  unfold buildPageDocs. rewrite fold_step_grouped, map_map. done.
Qed.

End GroupingFacts.

Section AccumulateFacts.
Context (P : Platform).

Implicit Types (fs : list Frag.Fragment) (f : Frag.Fragment) (acc : Page.Acc).

Lemma fold_accumulate_url fs acc :
  Page.a_url (fold_left (accumulate P) fs acc) = Page.a_url acc.
Proof. revert acc. induction fs as [|f fs IH]; intros acc; simpl; [done|]. by rewrite IH. Qed.

Lemma fold_accumulate_id fs acc :
  Page.a_id (fold_left (accumulate P) fs acc) = Page.a_id acc.
Proof. revert acc. induction fs as [|f fs IH]; intros acc; simpl; [done|]. by rewrite IH. Qed.

Lemma fold_accumulate_host fs acc :
  Page.a_host (fold_left (accumulate P) fs acc) = Page.a_host acc.
Proof. revert acc. induction fs as [|f fs IH]; intros acc; simpl; [done|]. by rewrite IH. Qed.

Lemma fold_accumulate_ids fs acc :
  Page.a_fragment_ids (fold_left (accumulate P) fs acc)
  = Page.a_fragment_ids acc ++ map Frag.idOf fs.
Proof.
  revert acc. induction fs as [|f fs IH]; intros acc; simpl.
  - by rewrite app_nil_r.
  - rewrite IH. simpl. by rewrite <- app_assoc.
Qed.

Lemma fold_accumulate_count fs acc :
  Page.a_fragment_count (fold_left (accumulate P) fs acc)
  = Page.a_fragment_count acc + length fs.
Proof.
  revert acc. induction fs as [|f fs IH]; intros acc; simpl; [lia|].
  rewrite IH. simpl. lia.
Qed.

(** One [href] adds its link and its tokens to the two sets. *)
Lemma addLink_sets page (sets : list string * list string) (h : string) :
  (NoDup (fst sets) -> NoDup (fst (addLink P page sets h)))
  /\ (NoDup (snd sets) -> NoDup (snd (addLink P page sets h)))
  /\ (forall x, x ∈ fst (addLink P page sets h) <-> x ∈ fst sets \/ x ∈ linkOf P page h)
  /\ (forall x, x ∈ snd (addLink P page sets h) <-> x ∈ snd sets \/ x ∈ tokensOf P page h).
Proof.
  unfold linkOf, tokensOf, addLink.
  destruct (new_URL P h (Some page)) as [u|]; simpl.
  2:{ repeat split; auto; try (intros [?|?%elem_of_nil]; done). }
  destruct (String.eqb (protocol u) "http:" || String.eqb (protocol u) "https:"); simpl.
  2:{ repeat split; auto; try (intros [?|?%elem_of_nil]; done). }
  destruct sets as [ls ts]. simpl.
  split; [apply setAdd_NoDup|].
  split.
  { intros Hts.
    destruct (Js.isEmpty (Js.toLowerCase (hostname u))); simpl; [done|].
    destruct (negb (Js.isEmpty _)); by repeat apply setAdd_NoDup. }
  split.
  { intros x. rewrite !setAdd_elem, elem_of_nil. tauto. }
  intros x.
  destruct (Js.isEmpty (Js.toLowerCase (hostname u))); simpl.
  { rewrite elem_of_nil. tauto. }
  destruct (negb (Js.isEmpty _)); rewrite !setAdd_elem, ?elem_of_nil; tauto.
Qed.

Lemma fold_addLink page (hs : list string) (sets : list string * list string) :
  (NoDup (fst sets) -> NoDup (fst (fold_left (addLink P page) hs sets)))
  /\ (NoDup (snd sets) -> NoDup (snd (fold_left (addLink P page) hs sets)))
  /\ (forall x, x ∈ fst (fold_left (addLink P page) hs sets)
                <-> x ∈ fst sets \/ x ∈ concat (map (linkOf P page) hs))
  /\ (forall x, x ∈ snd (fold_left (addLink P page) hs sets)
                <-> x ∈ snd sets \/ x ∈ concat (map (tokensOf P page) hs)).
Proof.
  revert sets. induction hs as [|h hs IH]; intros sets; simpl.
  - repeat split; auto; try (intros [?|?%elem_of_nil]; done).
  - destruct (IH (addLink P page sets h)) as (I1 & I2 & I3 & I4).
    destruct (addLink_sets page sets h) as (A1 & A2 & A3 & A4).
    split; [auto|]. split; [auto|]. split.
    + intros x. rewrite I3, A3, elem_of_app. tauto.
    + intros x. rewrite I4, A4, elem_of_app. tauto.
Qed.

End AccumulateFacts.

(** A field of the accumulator that is a set: every fragment adds the
    members [elems] gives for it. *)
Section SetField.
Context (P : Platform).
Variable proj : Page.Acc -> list string.
Variable elems : string -> Frag.Fragment -> list string.
Hypothesis step_NoDup :
  forall acc f, NoDup (proj acc) -> NoDup (proj (accumulate P acc f)).
Hypothesis step_elem :
  forall acc f x,
    x ∈ proj (accumulate P acc f) <-> x ∈ proj acc \/ x ∈ elems (Page.a_url acc) f.

Lemma fold_field_NoDup fs acc :
  NoDup (proj acc) -> NoDup (proj (fold_left (accumulate P) fs acc)).
Proof. revert acc. induction fs as [|f fs IH]; intros acc H; simpl; auto. Qed.

Lemma fold_field_elem fs acc x :
  x ∈ proj (fold_left (accumulate P) fs acc)
  <-> x ∈ proj acc \/ exists f, f ∈ fs /\ x ∈ elems (Page.a_url acc) f.
Proof.
  revert acc. induction fs as [|f fs IH]; intros acc; simpl.
  - split; [auto|]. intros [?|(f & ?%elem_of_nil & _)]; done.
  - rewrite IH, step_elem. split.
    + intros [[?|?]|(g & Hg & Hx)]; [by left| |].
      * right. exists f. split; [apply elem_of_cons; auto | done].
      * right. exists g. split; [apply elem_of_cons; auto | done].
    + intros [?|(g & [->|Hg]%elem_of_cons & Hx)]; [by left; left| |].
      * left. by right.
      * right. eauto.
Qed.

(** The field does not depend on the order of the fragments, as a set. *)
Lemma field_Permutation page fs fs' :
  proj (emptyAcc P page) = [] ->
  fs ≡ₚ fs' ->
  proj (accOf P page fs) ≡ₚ proj (accOf P page fs').
Proof.
  intros Hempty Hperm. unfold accOf.
  apply same_members_Permutation.
  - apply fold_field_NoDup. rewrite Hempty. constructor.
  - apply fold_field_NoDup. rewrite Hempty. constructor.
  - intros x. rewrite !fold_field_elem.
    assert (forall f, f ∈ fragmentsOfPage P page fs <-> f ∈ fragmentsOfPage P page fs') as Hf.
    { intros f. unfold fragmentsOfPage. rewrite !list_elem_of_filter.
      by rewrite Hperm. }
    split; (intros [?|(f & Hin & Hx)]; [by left | right; exists f; split; [by apply Hf | done]]).
Qed.

End SetField.

Section FieldInstances.
Context (P : Platform).

Lemma perm_of_setAddAll (proj : Page.Acc -> list string)
    (elems : Frag.Fragment -> list string) :
  (forall page, proj (emptyAcc P page) = []) ->
  (forall acc f, proj (accumulate P acc f) = setAddAll (elems f) (proj acc)) ->
  forall page fs fs', fs ≡ₚ fs' -> proj (accOf P page fs) ≡ₚ proj (accOf P page fs').
Proof.
  intros Hempty Hstep page fs fs' Hperm.
  apply (field_Permutation P proj (fun _ f => elems f)); [| |done|done].
  - intros acc f Hnd. rewrite Hstep. by apply setAddAll_NoDup.
  - intros acc f x. rewrite Hstep, setAddAll_elem. tauto.
Qed.

Lemma life_events_Permutation page fs fs' :
  fs ≡ₚ fs' ->
  Page.a_life_events (accOf P page fs) ≡ₚ Page.a_life_events (accOf P page fs').
Proof.
  apply (perm_of_setAddAll Page.a_life_events
           (fun f => default [] (Frag.life_events (Frag.raw f)))); done.
Qed.

Lemma categories_Permutation page fs fs' :
  fs ≡ₚ fs' ->
  Page.a_categories (accOf P page fs) ≡ₚ Page.a_categories (accOf P page fs').
Proof.
  apply (perm_of_setAddAll Page.a_categories
           (fun f => default [] (Frag.categories (Frag.raw f)))); done.
Qed.

Lemma states_Permutation page fs fs' :
  fs ≡ₚ fs' ->
  Page.a_states (accOf P page fs) ≡ₚ Page.a_states (accOf P page fs').
Proof.
  apply (perm_of_setAddAll Page.a_states
           (fun f => default [] (Frag.states (Frag.raw f)))); done.
Qed.

Lemma keywords_Permutation page fs fs' :
  fs ≡ₚ fs' ->
  Page.a_keywords (accOf P page fs) ≡ₚ Page.a_keywords (accOf P page fs').
Proof.
  apply (perm_of_setAddAll Page.a_keywords
           (fun f => default [] (Frag.search_keywords (Frag.raw f)))); done.
Qed.

Lemma provider_Permutation page fs fs' :
  fs ≡ₚ fs' ->
  Page.a_provider (accOf P page fs) ≡ₚ Page.a_provider (accOf P page fs').
Proof.
  apply (perm_of_setAddAll Page.a_provider
           (fun f => truthyValue (Frag.provider (Frag.raw f)))); [done|].
  intros. apply setAddTruthy_all.
Qed.

Lemma governance_Permutation page fs fs' :
  fs ≡ₚ fs' ->
  Page.a_governance (accOf P page fs) ≡ₚ Page.a_governance (accOf P page fs').
Proof.
  apply (perm_of_setAddAll Page.a_governance
           (fun f => truthyValue (Frag.governance (Frag.raw f)))); [done|].
  intros. apply setAddTruthy_all.
Qed.

Lemma stage_Permutation page fs fs' :
  fs ≡ₚ fs' ->
  Page.a_stage (accOf P page fs) ≡ₚ Page.a_stage (accOf P page fs').
Proof.
  apply (perm_of_setAddAll Page.a_stage
           (fun f => truthyValue (Frag.stage (Frag.raw f)))); [done|].
  intros. apply setAddTruthy_all.
Qed.

Lemma stage_variant_Permutation page fs fs' :
  fs ≡ₚ fs' ->
  Page.a_stage_variant (accOf P page fs) ≡ₚ Page.a_stage_variant (accOf P page fs').
Proof.
  apply (perm_of_setAddAll Page.a_stage_variant
           (fun f => truthyValue (Frag.stage_variant (Frag.raw f)))); [done|].
  intros. apply setAddTruthy_all.
Qed.

Lemma out_links_Permutation page fs fs' :
  fs ≡ₚ fs' ->
  Page.a_out_links (accOf P page fs) ≡ₚ Page.a_out_links (accOf P page fs').
Proof.
  apply (field_Permutation P Page.a_out_links
           (fun url f => concat (map (linkOf P url)
                                     (Href.hrefs (Frag.content_html (Frag.raw f)))))).
  - intros acc f. apply (fold_addLink P (Page.a_url acc) _ (_, _)).
  - intros acc f x. apply (fold_addLink P (Page.a_url acc) _ (_, _)).
  - done.
Qed.

Lemma out_link_tokens_Permutation page fs fs' :
  fs ≡ₚ fs' ->
  Page.a_out_link_tokens (accOf P page fs) ≡ₚ Page.a_out_link_tokens (accOf P page fs').
Proof.
  apply (field_Permutation P Page.a_out_link_tokens
           (fun url f => concat (map (tokensOf P url)
                                     (Href.hrefs (Frag.content_html (Frag.raw f)))))).
  - intros acc f. apply (fold_addLink P (Page.a_url acc) _ (_, _)).
  - intros acc f x. apply (fold_addLink P (Page.a_url acc) _ (_, _)).
  - done.
Qed.

Lemma fragmentsOfPage_Permutation page fs fs' :
  fs ≡ₚ fs' -> fragmentsOfPage P page fs ≡ₚ fragmentsOfPage P page fs'.
Proof. intros H. unfold fragmentsOfPage. by rewrite H. Qed.

Lemma accOf_url page fs : Page.a_url (accOf P page fs) = page.
Proof. unfold accOf. by rewrite fold_accumulate_url. Qed.

Lemma accOf_ids page fs :
  Page.a_fragment_ids (accOf P page fs) = map Frag.idOf (fragmentsOfPage P page fs).
Proof. unfold accOf. by rewrite fold_accumulate_ids. Qed.

Lemma accOf_count page fs :
  Page.a_fragment_count (accOf P page fs) = length (fragmentsOfPage P page fs).
Proof. unfold accOf. by rewrite fold_accumulate_count. Qed.

Lemma pageKeys_Permutation fs fs' : fs ≡ₚ fs' -> pageKeys P fs ≡ₚ pageKeys P fs'.
Proof.
  intros H. apply same_members_Permutation; [apply pageKeys_NoDup..|].
  intros x. rewrite !pageKeys_elem.
  split; intros (Hne & f & Hf & Hp); (split; [done|]); exists f; (split; [|done]).
  - by rewrite <- H.
  - by rewrite H.
Qed.

(** A cut at [n] keeps a set that has fewer than [n] members whole, and
    so the same set in another order. *)
Lemma take_Permutation (n : nat) (l l' : list string) :
  l ≡ₚ l' -> length (take n l) < n -> take n l ≡ₚ take n l'.
Proof.
  intros H Hlen. rewrite length_take in Hlen.
  assert (length l < n) as Hl by lia.
  rewrite !take_ge; [done | | lia].
  apply Permutation_length in H. lia.
Qed.

(** A set in insertion order whose members are all the same has at most
    that one member, in any order. *)
Lemma hd_Permutation (l l' : list string) :
  NoDup l -> l ≡ₚ l' -> (forall x y, x ∈ l -> y ∈ l -> x = y) ->
  List.hd "" l = List.hd "" l'.
Proof.
  intros Hnd Hperm Hall.
  destruct l as [|a [|b l]].
  - by apply Permutation_nil_l in Hperm as ->.
  - by apply Permutation_singleton_l in Hperm as ->.
  - exfalso. assert (a = b) as -> by (apply Hall; repeat constructor).
    apply NoDup_cons in Hnd as [Hnd _]. apply Hnd. constructor.
Qed.

Lemma stage_NoDup page fs : NoDup (Page.a_stage (accOf P page fs)).
Proof.
  unfold accOf.
  apply (fold_field_NoDup P Page.a_stage); [|constructor].
  intros acc f Hnd. simpl. rewrite setAddTruthy_all. by apply setAddAll_NoDup.
Qed.

Lemma stage_variant_NoDup page fs : NoDup (Page.a_stage_variant (accOf P page fs)).
Proof.
  unfold accOf.
  apply (fold_field_NoDup P Page.a_stage_variant); [|constructor].
  intros acc f Hnd. simpl. rewrite setAddTruthy_all. by apply setAddAll_NoDup.
Qed.

Lemma stage_elem page fs x :
  x ∈ Page.a_stage (accOf P page fs)
  <-> exists f, f ∈ fs /\ pageOf P f = page /\ x ∈ truthyValue (Frag.stage (Frag.raw f)).
Proof.
  unfold accOf.
  rewrite (fold_field_elem P Page.a_stage
             (fun _ f => truthyValue (Frag.stage (Frag.raw f)))).
  - simpl. split.
    + intros [?%elem_of_nil|(f & Hf & Hx)]; [done|].
      apply list_elem_of_filter in Hf as [Hp Hf]. eauto.
    + intros (f & Hf & Hp & Hx). right. exists f. split; [|done].
      by apply list_elem_of_filter.
  - intros acc f y. simpl. rewrite setAddTruthy_all, setAddAll_elem. tauto.
Qed.

Lemma stage_variant_elem page fs x :
  x ∈ Page.a_stage_variant (accOf P page fs)
  <-> exists f, f ∈ fs /\ pageOf P f = page
                /\ x ∈ truthyValue (Frag.stage_variant (Frag.raw f)).
Proof.
  unfold accOf.
  rewrite (fold_field_elem P Page.a_stage_variant
             (fun _ f => truthyValue (Frag.stage_variant (Frag.raw f)))).
  - simpl. split.
    + intros [?%elem_of_nil|(f & Hf & Hx)]; [done|].
      apply list_elem_of_filter in Hf as [Hp Hf]. eauto.
    + intros (f & Hf & Hp & Hx). right. exists f. split; [|done].
      by apply list_elem_of_filter.
  - intros acc f y. simpl. rewrite setAddTruthy_all, setAddAll_elem. tauto.
Qed.

End FieldInstances.

(** The title vote. *)
Section TitleFacts.
Context (P : Platform).

Lemma hd_insertByCount (x : string * nat) (l : list (string * nat)) :
  List.hd_error (insertByCount x l)
  = match l with
    | [] => Some x
    | y :: _ => if snd y <=? snd x then Some x else Some y
    end.
Proof. destruct l as [|y l]; simpl; [done|]. by destruct (snd y <=? snd x). Qed.

(** The head of the sorted entries is the first entry with the highest
    count. *)
Lemma hd_sortByCountDesc (m : list (string * nat)) :
  List.hd_error (sortByCountDesc m) = firstMax m.
Proof.
  induction m as [|x m IH]; [done|].
  cbn [sortByCountDesc fold_right firstMax].
  fold (sortByCountDesc m). rewrite hd_insertByCount, <- IH.
  by destruct (sortByCountDesc m).
Qed.

Lemma pickTitle_firstMax (m : list (string * nat)) :
  pickTitle m = fst <$> firstMax m.
Proof.
  unfold pickTitle. rewrite <- hd_sortByCountDesc.
  by destruct (sortByCountDesc m) as [|[t n] l].
Qed.

Lemma firstMax_elem (m : list (string * nat)) (y : string * nat) :
  firstMax m = Some y -> y ∈ m.
Proof.
  revert y. induction m as [|x m IH]; intros y; [done|].
  cbn [firstMax]. destruct (firstMax m) as [z|].
  - destruct (snd z <=? snd x); intros [= <-].
    + apply elem_of_cons. by left.
    + apply elem_of_cons. right. by apply IH.
  - intros [= <-]. apply elem_of_cons. by left.
Qed.

(** An entry that counts more than every other one is the first maximum,
    wherever it stands. *)
Lemma firstMax_winner (m : list (string * nat)) (w : string * nat) :
  w ∈ m ->
  (forall y, y ∈ m -> y = w \/ snd y < snd w) ->
  firstMax m = Some w.
Proof.
  induction m as [|x m IH]; intros Hin Hwin; [by apply elem_of_nil in Hin|].
  cbn [firstMax].
  assert (forall y, y ∈ m -> y = w \/ snd y < snd w) as Hwin'.
  { intros y Hy. apply Hwin, elem_of_cons. by right. }
  destruct (Hwin x) as [->|Hx]; [apply elem_of_cons; by left| |].
  - destruct (firstMax m) as [z|] eqn:E; [|done].
    apply firstMax_elem in E. destruct (Hwin' z E) as [->|Hz].
    + by rewrite Nat.leb_refl.
    + by rewrite (proj2 (Nat.leb_le _ _)) by lia.
  - apply elem_of_cons in Hin as [->|Hin]; [lia|].
    rewrite (IH Hin Hwin').
    by rewrite (proj2 (Nat.leb_gt _ _)) by lia.
Qed.

Lemma countOf_countUp (k x : string) (m : list (string * nat)) :
  countOf k (countUp x m) = if String.eqb x k then S (countOf k m) else countOf k m.
Proof.
  induction m as [|[k' n] m IH]; cbn [countUp countOf].
  - by destruct (String.eqb x k).
  - destruct (String.eqb_spec k' x) as [->|Hne]; cbn [countOf].
    + by destruct (String.eqb x k).
    + destruct (String.eqb_spec k' k) as [->|Hne'].
      * destruct (String.eqb_spec x k); [congruence | done].
      * apply IH.
Qed.

Lemma countUp_keys (x : string) (m : list (string * nat)) (k : string) :
  k ∈ map fst (countUp x m) <-> k = x \/ k ∈ map fst m.
Proof.
  induction m as [|[k' n] m IH]; cbn [countUp map fst].
  - rewrite list_elem_of_singleton, elem_of_nil. tauto.
  - destruct (String.eqb_spec k' x) as [->|Hne]; cbn [map fst].
    + rewrite !elem_of_cons. tauto.
    + rewrite !elem_of_cons, IH. tauto.
Qed.

Lemma countUp_NoDup (x : string) (m : list (string * nat)) :
  NoDup (map fst m) -> NoDup (map fst (countUp x m)).
Proof.
  induction m as [|[k' n] m IH]; cbn [countUp map fst]; intros Hnd.
  - apply NoDup_singleton.
  - apply NoDup_cons in Hnd as [Hk Hnd].
    destruct (String.eqb_spec k' x) as [->|Hne]; cbn [map fst].
    + by apply NoDup_cons.
    + apply NoDup_cons. split; [|auto].
      rewrite countUp_keys. intros [->|?]; done.
Qed.

Lemma countOf_entry (m : list (string * nat)) (k : string) (n : nat) :
  NoDup (map fst m) -> (k, n) ∈ m -> countOf k m = n.
Proof.
  induction m as [|[k' n'] m IH]; intros Hnd Hin; [by apply elem_of_nil in Hin|].
  cbn [map fst] in Hnd. apply NoDup_cons in Hnd as [Hk Hnd].
  cbn [countOf]. apply elem_of_cons in Hin as [[= -> ->]|Hin].
  - by rewrite String.eqb_refl.
  - destruct (String.eqb_spec k' k) as [->|Hne]; [|by apply IH].
    exfalso. apply Hk. apply list_elem_of_fmap. by exists (k, n).
Qed.

Lemma countOf_pos_entry (m : list (string * nat)) (k : string) :
  0 < countOf k m -> (k, countOf k m) ∈ m.
Proof.
  induction m as [|[k' n'] m IH]; cbn [countOf]; [lia|].
  destruct (String.eqb_spec k' k) as [->|Hne]; intros Hpos.
  - apply elem_of_cons. by left.
  - apply elem_of_cons. right. by apply IH.
Qed.

Lemma countUp_entry (x : string) (m : list (string * nat)) (k : string) (n : nat) :
  (k, n) ∈ countUp x m -> (k = x /\ 0 < n) \/ (k, n) ∈ m.
Proof.
  induction m as [|[k' n'] m IH]; cbn [countUp].
  - intros [= -> ->]%list_elem_of_singleton. left. split; [done | lia].
  - destruct (String.eqb_spec k' x) as [->|Hne].
    + intros [[= -> ->]|Hin]%elem_of_cons.
      * left. split; [done | lia].
      * right. apply elem_of_cons. by right.
    + intros [[= -> ->]|Hin]%elem_of_cons.
      * right. apply elem_of_cons. by left.
      * destruct (IH Hin) as [?|?]; [by left|]. right. apply elem_of_cons. by right.
Qed.

Lemma countUp_wellCounted (x : string) (m : list (string * nat)) :
  x <> "" -> wellCounted m -> wellCounted (countUp x m).
Proof.
  intros Hx [Hnd Hent]. split; [by apply countUp_NoDup|].
  intros k n Hin.
  assert (countOf k (countUp x m) = n) as Hc
    by (apply countOf_entry; [by apply countUp_NoDup | done]).
  apply countUp_entry in Hin as [[-> Hpos]|Hin].
  - done.
  - destruct (Hent k n Hin) as (Hk & Hn & _). done.
Qed.

Implicit Types (fs : list Frag.Fragment) (f : Frag.Fragment) (acc : Page.Acc).

Lemma accumulate_counts acc f :
  Page.a_lvl0Counts (accumulate P acc f)
  = if Js.isEmpty (lvl0Of f) then Page.a_lvl0Counts acc
    else countUp (lvl0Of f) (Page.a_lvl0Counts acc).
Proof. reflexivity. Qed.

Lemma fold_counts_wellCounted fs acc :
  wellCounted (Page.a_lvl0Counts acc) ->
  wellCounted (Page.a_lvl0Counts (fold_left (accumulate P) fs acc)).
Proof.
  revert acc. induction fs as [|f fs IH]; intros acc Hw; [done|].
  cbn [fold_left]. apply IH. rewrite accumulate_counts.
  destruct (Js.isEmpty (lvl0Of f)) eqn:E; [done|].
  apply countUp_wellCounted; [|done]. intros E'. by rewrite E' in E.
Qed.

Lemma fold_counts_countOf fs acc (k : string) :
  k <> "" ->
  countOf k (Page.a_lvl0Counts (fold_left (accumulate P) fs acc))
  = countOf k (Page.a_lvl0Counts acc) + length (filter (fun f => lvl0Of f = k) fs).
Proof.
  intros Hk. revert acc. induction fs as [|f fs IH]; intros acc; [simpl; lia|].
  cbn [fold_left]. rewrite IH, accumulate_counts.
  destruct (decide (lvl0Of f = k)) as [E|E].
  - rewrite filter_cons_True by done. rewrite E.
    destruct (Js.isEmpty k) eqn:Ek; [by apply isEmpty_true in Ek|].
    rewrite countOf_countUp, String.eqb_refl. simpl. lia.
  - rewrite filter_cons_False by done.
    destruct (Js.isEmpty (lvl0Of f)); [done|].
    rewrite countOf_countUp.
    destruct (String.eqb_spec (lvl0Of f) k); [done | lia].
Qed.

Lemma accOf_counts_wellCounted page fs :
  wellCounted (Page.a_lvl0Counts (accOf P page fs)).
Proof.
  apply fold_counts_wellCounted. split; [constructor|].
  intros k n Hin. by apply elem_of_nil in Hin.
Qed.

(** The count of a title in the map of a page is its number of votes. *)
Lemma accOf_countOf page fs (k : string) :
  k <> "" -> countOf k (Page.a_lvl0Counts (accOf P page fs)) = votes P page k fs.
Proof. intros Hk. unfold accOf, votes. by rewrite fold_counts_countOf. Qed.

(** A title with more votes than any other is the title of the page. *)
Lemma pickTitle_winner page fs (t : string) :
  t <> "" ->
  0 < votes P page t fs ->
  (forall t', t' <> t -> votes P page t' fs < votes P page t fs) ->
  pickTitle (Page.a_lvl0Counts (accOf P page fs)) = Some t.
Proof.
  intros Ht Hpos Hwin.
  destruct (accOf_counts_wellCounted page fs) as [Hnd Hent].
  rewrite pickTitle_firstMax.
  rewrite (firstMax_winner _ (t, votes P page t fs)); [done| |].
  - rewrite <- (accOf_countOf page fs t Ht). apply countOf_pos_entry.
    by rewrite accOf_countOf.
  - intros [k n] Hin. destruct (Hent k n Hin) as (Hk & Hn & Hc).
    rewrite accOf_countOf in Hc by done. subst n.
    destruct (decide (k = t)) as [->|Hne]; [by left|].
    right. simpl. by apply Hwin.
Qed.

Lemma votes_Permutation page (t : string) fs fs' :
  fs ≡ₚ fs' -> votes P page t fs = votes P page t fs'.
Proof. intros H. unfold votes, fragmentsOfPage. by rewrite H. Qed.

End TitleFacts.

(** ** The embedding *)

Section TokenFacts.
Import Embedding.

Lemma splitOn_space_cons (r : string) :
  Js.splitOn " " (String " " r) = "" :: Js.splitOn " " r.
Proof. reflexivity. Qed.

Lemma splitOn_word_cons (c : ascii) (r : string) (w : string) (ws : list string) :
  Js.isSpace c = false -> Js.splitOn " " r = w :: ws ->
  Js.splitOn " " (String c r) = String c w :: ws.
Proof.
  intros Hc E. simpl. rewrite E.
  by destruct (Ascii.eqb_spec c " ") as [->|].
Qed.

(** Cutting a collapsed text at its spaces gives its words; the first
    piece is empty exactly when the text does not start with a word. *)
Lemma split_collapse (z : string) :
  (forall b, filter (fun t => Js.isEmpty t = false)
                    (Js.splitOn " " (Js.collapseFrom b z)) = words z)
  /\ exists w ws, Js.splitOn " " (Js.collapseFrom false z) = w :: ws
                  /\ Js.isEmpty w = negb (startsWord z).
Proof.
  induction z as [|c r [IH1 (w & ws & IH2 & IH3)]].
  - split; [done|]. by exists "", [].
  - cbn [Js.collapseFrom words startsWord].
    destruct (Js.isSpace c) eqn:Hc.
    + split.
      * intros [|]; [apply IH1|]. rewrite splitOn_space_cons.
        rewrite filter_cons_False by (simpl; congruence). apply IH1.
      * rewrite splitOn_space_cons. by eexists _, _.
    + split.
      * intros b. rewrite (splitOn_word_cons c _ w ws Hc IH2).
        rewrite filter_cons_True by done.
        pose proof (IH1 false) as E. rewrite IH2 in E.
        destruct (startsWord r); simpl in IH3.
        -- rewrite filter_cons_True in E by done. by rewrite <- E.
        -- rewrite filter_cons_False in E by (rewrite IH3; congruence).
           apply isEmpty_true in IH3 as ->. by rewrite <- E.
      * rewrite (splitOn_word_cons c _ w ws Hc IH2). by eexists _, _.
Qed.

Lemma collapse_plainSpaces (b : bool) (z : string) :
  Js.plainSpaces (Js.collapseFrom b z).
Proof.
  revert b. induction z as [|c r IH]; intros b; [done|].
  cbn [Js.collapseFrom]. destruct (Js.isSpace c) eqn:Hc.
  - destruct b; cbv iota; [apply IH|]. split; [done | apply IH].
  - split; [intros; congruence | apply IH].
Qed.

Lemma trimStart_plainSpaces (x : string) :
  Js.plainSpaces x -> Js.plainSpaces (Js.trimStart x).
Proof.
  induction x as [|c r IH]; [done|]. intros [Hc Hr]. cbn [Js.trimStart].
  destruct (Js.isSpace c) eqn:E; [auto|].
  split; [intros; congruence | done].
Qed.

Lemma trimStart_split (x : string) :
  Js.plainSpaces x ->
  filter (fun t => Js.isEmpty t = false) (Js.splitOn " " (Js.trimStart x))
  = filter (fun t => Js.isEmpty t = false) (Js.splitOn " " x).
Proof.
  induction x as [|c r IH]; [done|]. intros [Hc Hr]. cbn [Js.trimStart].
  destruct (Js.isSpace c) eqn:E; [|done].
  rewrite (Hc eq_refl), splitOn_space_cons.
  rewrite filter_cons_False by (simpl; congruence). auto.
Qed.

Lemma trimEnd_split (x : string) :
  Js.plainSpaces x ->
  exists w ws ws',
    Js.splitOn " " (Js.trimEnd x) = w :: ws
    /\ Js.splitOn " " x = w :: ws'
    /\ filter (fun t => Js.isEmpty t = false) ws
       = filter (fun t => Js.isEmpty t = false) ws'.
Proof.
  induction x as [|c r IH]; [by exists "", [], []|].
  intros [Hc Hr]. destruct (IH Hr) as (w & ws & ws' & E1 & E2 & E3).
  cbn [Js.trimEnd]. destruct (Js.isSpace c) eqn:Hs.
  - rewrite (Hc eq_refl), splitOn_space_cons, E2. cbn [andb].
    destruct (Js.isEmpty (Js.trimEnd r)) eqn:Ee.
    + apply isEmpty_true in Ee. rewrite Ee in E1. injection E1 as <- <-.
      exists "", [], ("" :: ws'). repeat split.
      rewrite filter_cons_False by (simpl; congruence). done.
    + rewrite splitOn_space_cons, E1.
      exists "", (w :: ws), (w :: ws'). repeat split.
      destruct (Js.isEmpty w) eqn:Ew.
      * rewrite !filter_cons_False by congruence. done.
      * rewrite !filter_cons_True by done. by rewrite E3.
  - cbn [andb].
    rewrite (splitOn_word_cons c _ w ws Hs E1), (splitOn_word_cons c _ w ws' Hs E2).
    by exists (String c w), ws, ws'.
Qed.

(** The tokens of [buildHashedEmbedding] are the words of the text, once
    lower-cased and cleared of what is neither a letter nor a digit. *)
Lemma tokens_words (text : string) :
  tokens text = words (Js.smap alnumOrSpace (Js.toLowerCase text)).
Proof.
  unfold tokens, normalizeText, Js.trim, Js.collapseSpaces.
  set (z := Js.smap alnumOrSpace (Js.toLowerCase text)).
  pose proof (collapse_plainSpaces false z) as Hp.
  destruct (trimEnd_split _ (trimStart_plainSpaces _ Hp)) as (w & ws & ws' & E1 & E2 & E3).
  rewrite E1. rewrite <- (proj1 (split_collapse z) false).
  rewrite <- (trimStart_split _ Hp), E2.
  destruct (Js.isEmpty w) eqn:Ew.
  - rewrite !filter_cons_False by congruence. done.
  - rewrite !filter_cons_True by done. by rewrite E3.
Qed.

Lemma startsWord_app (x : string) (c : ascii) (y : string) :
  Js.isSpace c = true -> startsWord (x +:+ String c y) = startsWord x.
Proof. intros Hc. destruct x; simpl; [by rewrite Hc | done]. Qed.

Lemma startsWord_words (x : string) : startsWord x = true -> words x <> [].
Proof.
  destruct x as [|c r]; [done|]. simpl. intros Hc.
  destruct (Js.isSpace c); [done|].
  destruct (startsWord r); [by destruct (words r) | done].
Qed.

Lemma words_cons (d : ascii) (r : string) :
  words (String d r)
  = if Js.isSpace d then words r
    else if startsWord r
         then match words r with
              | w :: ws => String d w :: ws
              | [] => [String d EmptyString]
              end
         else String d EmptyString :: words r.
Proof. reflexivity. Qed.

(** White space between two texts keeps their words apart. *)
Lemma words_app (x : string) (c : ascii) (y : string) :
  Js.isSpace c = true -> words (x +:+ String c y) = words x ++ words y.
Proof.
  intros Hc. induction x as [|d x IH].
  - simpl. by rewrite Hc.
  - change (String d x +:+ String c y) with (String d (x +:+ String c y)).
    rewrite !words_cons, IH, (startsWord_app _ _ _ Hc).
    destruct (Js.isSpace d); [done|].
    destruct (startsWord x) eqn:Es; [|done].
    apply startsWord_words in Es. by destruct (words x).
Qed.

Lemma smap_app (f : ascii -> ascii) (x y : string) :
  Js.smap f (x +:+ y) = Js.smap f x +:+ Js.smap f y.
Proof. induction x as [|c x IH]; simpl; [done | by rewrite IH]. Qed.

(** What one fragment adds to [content_text] adds its tokens. *)
Lemma tokens_append (content add : string) :
  tokens (content +:+ (if Js.isEmpty content then "" else newline) +:+ add)
  = tokens content ++ tokens add.
Proof.
  destruct content as [|c content]; [done|].
  cbn [Js.isEmpty]. rewrite !tokens_words. unfold Js.toLowerCase.
  change (newline +:+ add) with (String "010"%char add).
  rewrite !smap_app.
  change (Js.smap alnumOrSpace (Js.smap Js.lowerChar (String "010" add)))
    with (String (alnumOrSpace (Js.lowerChar "010"))
                 (Js.smap alnumOrSpace (Js.smap Js.lowerChar add))).
  by rewrite words_app.
Qed.

End TokenFacts.

Section EmbeddingFacts.
Context (P : Platform).
Import Embedding.

Lemma bump_bump (vec : list nat) (i j : nat) :
  bump (bump vec i) j = bump (bump vec j) i.
Proof.
  unfold bump. destruct (decide (i = j)) as [->|Hne]; [done|].
  by apply list_alter_alter_ne.
Qed.

(** The bucket counts depend on the tokens as a multiset. *)
Lemma fold_bump_Permutation (f : string -> nat) (l l' : list string) (vec : list nat) :
  l ≡ₚ l' ->
  fold_left (fun v t => bump v (f t)) l vec = fold_left (fun v t => bump v (f t)) l' vec.
Proof.
  intros H. revert vec. induction H as [|x l l' H IH|x y l|l l' l'' H1 IH1 H2 IH2];
    intros vec; cbn [fold_left].
  - done.
  - apply IH.
  - by rewrite bump_bump.
  - by rewrite IH1.
Qed.

Lemma concat_map_Permutation {A B : Type} (f : A -> list B) (l l' : list A) :
  l ≡ₚ l' -> concat (map f l) ≡ₚ concat (map f l').
Proof.
  induction 1 as [|x l l' H IH|x y l|l l' l'' H1 IH1 H2 IH2]; cbn [map concat].
  - done.
  - by rewrite IH.
  - rewrite !app_assoc. f_equiv. apply Permutation_app_comm.
  - by rewrite IH1.
Qed.

Lemma length_append (a b : string) :
  String.length (a +:+ b) = String.length a + String.length b.
Proof. induction a as [|c a IH]; simpl; [done | by rewrite IH]. Qed.

Lemma length_sliceTo (n : nat) (s : string) :
  String.length (Js.sliceTo n s) <= min n (String.length s).
Proof.
  unfold Js.sliceTo. revert s. induction n as [|n IH]; intros [|c s]; simpl; try lia.
  specialize (IH s). lia.
Qed.

Implicit Types (fs : list Frag.Fragment) (f : Frag.Fragment) (acc : Page.Acc).

Lemma accumulate_content acc f :
  Page.a_content_text (accumulate P acc f)
  = if String.length (Page.a_content_text acc) <? 40000
    then Page.a_content_text acc
         +:+ (if Js.isEmpty (Page.a_content_text acc) then "" else newline)
         +:+ Js.sliceTo 4000 (Frag.content_text (Frag.raw f))
    else Page.a_content_text acc.
Proof. reflexivity. Qed.

(** While the texts fit under the cap, the tokens of [content_text] are
    the tokens of the (cut) texts of the fragments, in their order. *)
Lemma fold_content_tokens fs acc :
  String.length (Page.a_content_text acc)
  + sum_list_with (fun f => S (min 4000 (String.length (Frag.content_text (Frag.raw f))))) fs
    <= 40000 ->
  tokens (Page.a_content_text (fold_left (accumulate P) fs acc))
  = tokens (Page.a_content_text acc)
    ++ concat (map (fun f => tokens (Js.sliceTo 4000 (Frag.content_text (Frag.raw f)))) fs).
Proof.
  revert acc. induction fs as [|f fs IH]; intros acc Hload; cbn [fold_left map concat].
  - by rewrite app_nil_r.
  - cbn [sum_list_with] in Hload.
    pose proof (length_sliceTo 4000 (Frag.content_text (Frag.raw f))) as Hs.
    rewrite IH.
    + rewrite accumulate_content.
      rewrite (proj2 (Nat.ltb_lt _ _)) by lia.
      by rewrite tokens_append, <- app_assoc.
    + rewrite accumulate_content.
      rewrite (proj2 (Nat.ltb_lt _ _)) by lia.
      rewrite !length_append.
      assert (String.length (if Js.isEmpty (Page.a_content_text acc) then "" else newline) <= 1)
        by (destruct (Js.isEmpty _); simpl; lia).
      lia.
Qed.

(** Under the cap, the bucket counts of a page do not depend on the order
    of its fragments. *)
Lemma bucketCounts_Permutation page fs fs' :
  fs ≡ₚ fs' ->
  contentLoad P page fs <= 40000 ->
  bucketCounts (Page.a_content_text (accOf P page fs)) 256
  = bucketCounts (Page.a_content_text (accOf P page fs')) 256.
Proof.
  intros Hperm Hload. unfold bucketCounts.
  apply fold_bump_Permutation.
  pose proof (fragmentsOfPage_Permutation P page fs fs' Hperm) as Hgroup.
  unfold accOf. rewrite !fold_content_tokens.
  - cbn [Page.a_content_text emptyAcc]. f_equiv. by apply concat_map_Permutation.
  - cbn [Page.a_content_text emptyAcc String.length]. unfold contentLoad in Hload.
    by rewrite <- Hgroup.
  - done.
Qed.

End EmbeddingFacts.

Section DocFacts.
Context (P : Platform) (V : Z).

(** A page document is the final form of the accumulation of its page. *)
Lemma buildPageDocs_doc fs now d :
  In d (buildPageDocs P V fs now) ->
  exists page, page ∈ pageKeys P fs /\ d = finalize V now (accOf P page fs)
               /\ Page.url d = page.
Proof.
  rewrite buildPageDocs_grouped. intros (page & <- & Hin)%in_map_iff.
  exists page. split; [by apply list_elem_of_In|]. split; [done|].
  apply accOf_url.
Qed.

Lemma buildPageDocs_urls fs now :
  map Page.url (buildPageDocs P V fs now) = pageKeys P fs.
Proof.
  rewrite buildPageDocs_grouped, map_map.
  rewrite <- (map_id (pageKeys P fs)) at 2.
  apply map_ext. intros page. apply accOf_url.
Qed.

End DocFacts.

(** C10.  For every page document of [buildPageDocs], [fragment_count] is
    the length of [fragment_ids], and [fragment_ids] lists the
    identifiers of exactly the input fragments whose page URL
    ([f.page_url || baseUrl(f.url)]) is the [url] of the document, in the
    order of the input. *)
Theorem fragment_ids_of_page (P : Platform) (V : Z) (fs : list Frag.Fragment)
    (now : Z) (d : Page.Doc) :
  In d (buildPageDocs P V fs now) ->
  Page.fragment_count d = length (Page.fragment_ids d)
  /\ Page.fragment_ids d
     = map Frag.idOf (filter (fun f => pageOf P f = Page.url d) fs).
Proof.
  intros (page & _ & -> & Hurl)%buildPageDocs_doc.
  unfold finalize in *. cbn [Page.fragment_count Page.fragment_ids Page.url] in *.
  rewrite accOf_count, accOf_ids, Hurl, length_map. done.
Qed.

Lemma fragment_ids_of_page_witness :
  let fs := extractFragments Fixture.platform 1%Z Fixture.national
              Fixture.paymentsPage Fixture.paymentsUrl 0%Z in
  exists d,
    buildPageDocs Fixture.platform 1%Z fs 5%Z = [d]
    /\ Page.url d = "https://my.gov.au/payments"
    /\ Page.fragment_count d = 3
    /\ Page.fragment_ids d = map Frag.idOf fs.
Proof.
  eexists. split; [vm_compute; reflexivity|].
  split; [reflexivity|].
  match goal with
  | |- Page.fragment_count ?d = _ /\ _ =>
      destruct (fragment_ids_of_page Fixture.platform 1%Z
                  (extractFragments Fixture.platform 1%Z Fixture.national
                     Fixture.paymentsPage Fixture.paymentsUrl 0%Z) 5%Z d) as [Hc Hi]
  end.
  - vm_compute. left. reflexivity.
  - split; [rewrite Hc; reflexivity | rewrite Hi; reflexivity].
Defined.

(** C1 (as amended).  Reordering the input fragments of [buildPageDocs]
    changes neither the set of pages (one document per page URL) nor, page
    by page, the [id], the [host], the [fragment_count], the crawl stamps,
    nor, up to the order of their elements, [fragment_ids], the taxonomy
    sets ([life_events], [categories], [states], [provider],
    [governance]), [keywords], and, below their caps of 500 and 1000,
    [out_links] and [out_link_tokens]; the bucket counts of the
    [embedding] are unchanged when the texts of the page fit under the cap
    of [content_text]; the [title] is unchanged when one top-level heading
    has more votes than any other; [stage] and
    [stage_variant] are unchanged when the fragments of the page carry at
    most one stage and one variant. *)
Theorem buildPageDocs_order_independent_fields (P : Platform) (V : Z)
    (fs fs' : list Frag.Fragment) (now : Z) :
  fs ≡ₚ fs' ->
  let docs := buildPageDocs P V fs now in
  let docs' := buildPageDocs P V fs' now in
  NoDup (map Page.url docs)
  /\ map Page.url docs ≡ₚ map Page.url docs'
  /\ forall d d', In d docs -> In d' docs' -> Page.url d = Page.url d' ->
       Page.id d = Page.id d'
       /\ Page.host d = Page.host d'
       /\ Page.fragment_count d = Page.fragment_count d'
       /\ Page.crawl_version d = Page.crawl_version d'
       /\ Page.last_seen_at d = Page.last_seen_at d'
       /\ Page.fragment_ids d ≡ₚ Page.fragment_ids d'
       /\ Page.life_events d ≡ₚ Page.life_events d'
       /\ Page.categories d ≡ₚ Page.categories d'
       /\ Page.states d ≡ₚ Page.states d'
       /\ Page.provider d ≡ₚ Page.provider d'
       /\ Page.governance d ≡ₚ Page.governance d'
       /\ Page.keywords d ≡ₚ Page.keywords d'
       /\ (length (Page.out_links d) < 500 -> Page.out_links d ≡ₚ Page.out_links d')
       /\ (length (Page.out_link_tokens d) < 1000 ->
           Page.out_link_tokens d ≡ₚ Page.out_link_tokens d')
       /\ (contentLoad P (Page.url d) fs <= 40000 ->
           Page.embedding_counts d = Page.embedding_counts d')
       /\ (forall t, t <> "" -> 0 < votes P (Page.url d) t fs ->
             (forall t', t' <> t ->
                votes P (Page.url d) t' fs < votes P (Page.url d) t fs) ->
             Page.title d = Some t /\ Page.title d' = Some t)
       /\ ((forall f g, f ∈ fs -> g ∈ fs ->
              pageOf P f = Page.url d -> pageOf P g = Page.url d ->
              truthyValue (Frag.stage (Frag.raw f)) <> [] ->
              truthyValue (Frag.stage (Frag.raw g)) <> [] ->
              Frag.stage (Frag.raw f) = Frag.stage (Frag.raw g)) ->
           Page.stage d = Page.stage d')
       /\ ((forall f g, f ∈ fs -> g ∈ fs ->
              pageOf P f = Page.url d -> pageOf P g = Page.url d ->
              truthyValue (Frag.stage_variant (Frag.raw f)) <> [] ->
              truthyValue (Frag.stage_variant (Frag.raw g)) <> [] ->
              Frag.stage_variant (Frag.raw f) = Frag.stage_variant (Frag.raw g)) ->
           Page.stage_variant d = Page.stage_variant d').
Proof.
  intros Hperm docs docs'. subst docs docs'.
  rewrite !buildPageDocs_urls.
  split; [apply pageKeys_NoDup|].
  split; [by apply pageKeys_Permutation|].
  intros d d' (page & _ & -> & Hurl)%buildPageDocs_doc
         (page' & _ & -> & Hurl')%buildPageDocs_doc Heq.
  assert (page' = page) as -> by congruence.
  unfold finalize in *.
  cbn [Page.id Page.host Page.fragment_count Page.crawl_version Page.last_seen_at
       Page.fragment_ids Page.life_events Page.categories Page.states Page.provider
       Page.governance Page.keywords Page.out_links Page.out_link_tokens
       Page.stage Page.stage_variant Page.url Page.title Page.embedding_counts] in *.
  rewrite !accOf_url.
  unfold accOf at 1 2 3 4.
  rewrite !fold_accumulate_id, !fold_accumulate_host.
  rewrite !accOf_count, !accOf_ids.
  pose proof (fragmentsOfPage_Permutation P page fs fs' Hperm) as Hgroup.
  split; [done|]. split; [done|].
  split; [by rewrite Hgroup|].
  split; [done|]. split; [done|].
  split; [by rewrite Hgroup|].
  split; [by apply life_events_Permutation|].
  split; [by apply categories_Permutation|].
  split; [by apply states_Permutation|].
  split; [by apply provider_Permutation|].
  split; [by apply governance_Permutation|].
  split; [by apply keywords_Permutation|].
  split; [by apply take_Permutation, out_links_Permutation|].
  split; [by apply take_Permutation, out_link_tokens_Permutation|].
  split; [by apply bucketCounts_Permutation|].
  split.
  { intros t Ht Hpos Hwin. split; [by apply pickTitle_winner|].
    apply pickTitle_winner; [done | by rewrite <- (votes_Permutation P page t fs fs') |].
    intros t' Hne. rewrite <- !(votes_Permutation P page _ fs fs') by done. auto. }
  split.
  - intros Hone. apply hd_Permutation;
      [apply stage_NoDup | by apply stage_Permutation |].
    intros x y (f & Hf & Hpf & Hx)%stage_elem (g & Hg & Hpg & Hy)%stage_elem.
    assert (Frag.stage (Frag.raw f) = Frag.stage (Frag.raw g)) as E.
    { apply Hone; try done; intros E; rewrite E in *;
        (by apply elem_of_nil in Hx) || (by apply elem_of_nil in Hy). }
    rewrite E in Hx. unfold truthyValue in Hx, Hy.
    destruct (Frag.stage (Frag.raw g)) as [s|]; [|by apply elem_of_nil in Hx].
    destruct (Js.isEmpty s); [by apply elem_of_nil in Hx|].
    apply list_elem_of_singleton in Hx, Hy. congruence.
  - intros Hone. apply hd_Permutation;
      [apply stage_variant_NoDup | by apply stage_variant_Permutation |].
    intros x y (f & Hf & Hpf & Hx)%stage_variant_elem (g & Hg & Hpg & Hy)%stage_variant_elem.
    assert (Frag.stage_variant (Frag.raw f) = Frag.stage_variant (Frag.raw g)) as E.
    { apply Hone; try done; intros E; rewrite E in *;
        (by apply elem_of_nil in Hx) || (by apply elem_of_nil in Hy). }
    rewrite E in Hx. unfold truthyValue in Hx, Hy.
    destruct (Frag.stage_variant (Frag.raw g)) as [s|]; [|by apply elem_of_nil in Hx].
    destruct (Js.isEmpty s); [by apply elem_of_nil in Hx|].
    apply list_elem_of_singleton in Hx, Hy. congruence.
Qed.

Lemma buildPageDocs_order_independent_fields_witness :
  Fixture.twoOfOnePage ≡ₚ rev Fixture.twoOfOnePage
  /\ map Page.url (buildPageDocs Fixture.platform 1%Z Fixture.twoOfOnePage 0%Z)
     ≡ₚ map Page.url (buildPageDocs Fixture.platform 1%Z (rev Fixture.twoOfOnePage) 0%Z).
Proof.
  split; [apply Permutation_rev|].
  apply (buildPageDocs_order_independent_fields Fixture.platform 1%Z
           Fixture.twoOfOnePage (rev Fixture.twoOfOnePage) 0%Z).
  apply Permutation_rev.
Defined.

(** C1 as stated fails: the two fragments of one page, taken in the two
    possible orders, give page documents with different [title] (the two
    top-level headings are equally frequent, the first one met wins),
    different [content_text] (the texts are joined in input order) and
    different [stage] and [stage_variant] (the first one met wins).  None
    of these fields can be put in a canonical order. *)
Lemma buildPageDocs_order_counterexample :
  Fixture.twoOfOnePage ≡ₚ rev Fixture.twoOfOnePage
  /\ exists d d',
       buildPageDocs Fixture.platform 1%Z Fixture.twoOfOnePage 0%Z = [d]
       /\ buildPageDocs Fixture.platform 1%Z (rev Fixture.twoOfOnePage) 0%Z = [d']
       /\ Page.url d = Page.url d'
       /\ Page.title d = Some "Retirement"
       /\ Page.title d' = Some "Age Pension - myGov"
       /\ Page.content_text d = "Plan early." +:+ newline +:+ "Claim the pension."
       /\ Page.content_text d' = "Claim the pension." +:+ newline +:+ "Plan early."
       /\ Page.stage d = "Planning" /\ Page.stage d' = "Claiming"
       /\ Page.stage_variant d = "Early" /\ Page.stage_variant d' = "Late".
Proof.
  split; [apply Permutation_rev|].
  eexists. eexists.
  split; [vm_compute; reflexivity|].
  split; [vm_compute; reflexivity|].
  repeat split.
Qed.

(** Past the cap the embedding follows the order as well: with ten long
    sections and a short one, the word of the short section is counted
    when its fragment comes first and is left out when it comes last. *)
Example embedding_follows_order_past_the_cap :
  Fixture.elevenOfOnePage ≡ₚ rev Fixture.elevenOfOnePage
  /\ (40000 <? contentLoad Fixture.platform "https://my.gov.au/long"
                           Fixture.elevenOfOnePage) = true
  /\ Z.to_nat (Embedding.tokenHash "zebra" mod 256) = 219
  /\ map (fun d => nth 219 (Page.embedding_counts d) 0)
         (buildPageDocs Fixture.platform 1%Z Fixture.elevenOfOnePage 0%Z) = [0]
  /\ map (fun d => nth 219 (Page.embedding_counts d) 0)
         (buildPageDocs Fixture.platform 1%Z (rev Fixture.elevenOfOnePage) 0%Z) = [1].
Proof.
  split; [apply Permutation_rev|].
  split; [vm_compute; reflexivity|].
  split; [vm_compute; reflexivity|].
  split; vm_compute; reflexivity.
Qed.

(** ** Indexing *)

Section IndexingFacts.
Context {St D : Type}.
Context (api : StoreApi St D).

Implicit Types (p : Progress (St := St) (D := D)) (batch docs : list D).

(** The slices of a list are the list, cut. *)
Lemma slices_concat (n fuel : nat) docs :
  0 < n -> length docs <= fuel -> concat (slices n fuel docs) = docs.
Proof.
  intros Hn. revert docs. induction fuel as [|fuel IH]; intros docs Hlen.
  - destruct docs; [done | simpl in Hlen; lia].
  - destruct docs as [|d docs]; [done|].
    cbn [slices concat]. rewrite IH.
    + apply take_drop.
    + rewrite length_drop. simpl in *. lia.
Qed.

Lemma slices_length (n fuel : nat) docs batch :
  0 < n -> In batch (slices n fuel docs) -> 0 < length batch <= n.
Proof.
  intros Hn. revert docs. induction fuel as [|fuel IH]; intros docs; [done|].
  destruct docs as [|d docs]; [done|].
  intros [<-|Hin]; [|by apply IH in Hin].
  rewrite length_take. simpl. lia.
Qed.

(** The trace of the fallback loop: one upsert per document of the
    batch, in order, each failure logged right after it. *)
Lemma fallback_events p batch :
  exists evs,
    events (fallback api p batch) = events p ++ evs
    /\ importedBatches evs = []
    /\ failedBatches evs = []
    /\ upsertAttempts evs = batch
    /\ loggedFailures evs = failedUpserts evs.
Proof.
  unfold fallback, importedBatches, failedBatches, upsertAttempts, loggedFailures,
    failedUpserts.
  revert p. induction batch as [|d batch IH]; intros p.
  - exists []. by rewrite app_nil_r.
  - cbn [fold_left]. destruct (IH (upsertOne api p d)) as (evs & -> & H1 & H2 & H3 & H4).
    unfold upsertOne. destruct (upsert api (store p) d) as [s' [|]]; cbn [events].
    + exists (Upserted d true :: evs). rewrite <- app_assoc.
      repeat split; cbn; [done | done | by rewrite H3 | done].
    + exists (Upserted d false :: LoggedFailure d :: evs). rewrite <- app_assoc.
      repeat split; cbn; [done | done | by rewrite H3 | by rewrite H4].
Qed.

(** What one turn of either indexing loop adds to the trace. *)
Lemma batch_events (turn : Progress -> list D -> Progress) p batch :
  turn = indexFragmentBatch api \/ turn = indexPageBatch api ->
  exists threw evs,
    events (turn p batch) = events p ++ Imported batch threw :: evs
    /\ importedBatches evs = []
    /\ failedBatches evs = []
    /\ upsertAttempts evs = (if threw then batch else [])
    /\ loggedFailures evs = failedUpserts evs.
Proof.
  intros [-> | ->]; unfold indexFragmentBatch, indexPageBatch.
  1: destruct (post_import api (store p) batch) as [s' [a|]];
       [destruct (parsedResults a) as [results|]|].
  4: destruct (client_import api (store p) batch) as [s' [|]].
  1,4: exists false, []; done.
  all: match goal with
       | |- context [fallback api ?q ?b] =>
           destruct (fallback_events q b) as (evs & -> & H1 & H2 & H3 & H4)
       end; exists true, evs; cbn [events]; rewrite <- app_assoc; done.
Qed.

Lemma loop_events (turn : Progress -> list D -> Progress) (bs : list (list D)) p :
  turn = indexFragmentBatch api \/ turn = indexPageBatch api ->
  upsertAttempts (events p) = concat (failedBatches (events p)) ->
  loggedFailures (events p) = failedUpserts (events p) ->
  let q := fold_left turn bs p in
  importedBatches (events q) = importedBatches (events p) ++ bs
  /\ upsertAttempts (events q) = concat (failedBatches (events q))
  /\ loggedFailures (events q) = failedUpserts (events q).
Proof.
  intros Hturn. revert p. induction bs as [|b bs IH]; intros p Hu Hl; cbn [fold_left].
  - by rewrite app_nil_r.
  - destruct (batch_events turn p b Hturn) as (threw & evs & E & H1 & H2 & H3 & H4).
    destruct (IH (turn p b)) as (I1 & I2 & I3).
    + rewrite E. unfold upsertAttempts, failedBatches in *.
      rewrite !omap_app, concat_app, Hu. f_equal.
      destruct threw; cbn; rewrite H2, H3; cbn; by rewrite ?app_nil_r.
    + rewrite E. unfold loggedFailures, failedUpserts in *.
      rewrite !omap_app, Hl. f_equal. cbn. by rewrite H4.
    + split; [|done]. rewrite I1, E. unfold importedBatches in *.
      rewrite omap_app. cbn. rewrite H1. by rewrite <- app_assoc.
Qed.

End IndexingFacts.

(** X25.  Both indexing loops send every batch of at most 100 documents,
    whatever happened to the batches before.  When the [try] block of a
    batch throws, they attempt one upsert for each document of that batch,
    in order and once each, and for no other document; every upsert that
    fails is logged and is not attempted again, and the upserts after it
    in the batch are still made. *)
Lemma fallback_exactly_when_thrown {St D : Type} (api : StoreApi St D)
    (s : St) (docs : list D) :
  concat (batches docs) = docs
  /\ (forall batch, In batch (batches docs) -> 0 < length batch <= 100)
  /\ (let log := events (indexFragments api s docs) in
      importedBatches log = batches docs
      /\ upsertAttempts log = concat (failedBatches log)
      /\ loggedFailures log = failedUpserts log)
  /\ (let log := events (indexPages api s docs) in
      importedBatches log = batches docs
      /\ upsertAttempts log = concat (failedBatches log)
      /\ loggedFailures log = failedUpserts log).
Proof.
  split; [apply slices_concat; lia|].
  split; [intros batch; apply slices_length; lia|].
  split.
  - apply (loop_events api (indexFragmentBatch api) (batches docs)
             {| store := s; events := []; indexed := 0 |}); auto.
  - apply (loop_events api (indexPageBatch api) (batches docs)
             {| store := s; events := []; indexed := 0 |}); auto.
Qed.

(** The fallback at work: the bulk write is refused, the three documents
    are upserted one by one, the bad one is logged and skipped, the one
    after it is written. *)
Example fallback_skips_bad_document :
  let p := indexPages Fixture.flakyStore [] ["a"; "bad"; "b"] in
  events p = [ Imported ["a"; "bad"; "b"] true; Upserted "a" true;
               Upserted "bad" false; LoggedFailure "bad"; Upserted "b" true ]
  /\ store p = ["a"; "b"]
  /\ indexed p = 2%Z
  /\ events (indexFragments Fixture.flakyStore [] ["a"; "bad"; "b"]) = events p.
Proof. vm_compute. repeat split. Qed.

(** C7 (defect of the code).  When the store answers the bulk import of
    [indexFragments] with an error status and an error body, the batch
    write has failed, but nothing is thrown: no per-document write is
    attempted, none of the three documents reaches the store, and two of
    them are counted as indexed.  [indexPages], whose bulk import goes
    through the client library, falls back and writes all three. *)
Lemma indexFragments_no_fallback_on_error_status :
  let p := indexFragments Fixture.busyStore [] ["a"; "b"; "c"] in
  let q := indexPages Fixture.busyStore [] ["a"; "b"; "c"] in
  post_import Fixture.busyStore [] ["a"; "b"; "c"]
  = ([], Some {| http_status := 503; body_lines := [Some false] |})
  /\ events p = [Imported ["a"; "b"; "c"] false]
  /\ upsertAttempts (events p) = []
  /\ store p = []
  /\ indexed p = 2%Z
  /\ upsertAttempts (events q) = ["a"; "b"; "c"]
  /\ store q = ["a"; "b"; "c"].
Proof. vm_compute. repeat split. Qed.

(** ** Pruning *)

Section PruneFacts.
Context (V : Z).

(** X26.  The page delete is scoped by an exact match on [host]: a
    page of another host is kept, however old its generation. *)
Lemma prune_keeps_pages_of_other_hosts (targetHost : option string)
    (fragmentsThrow pagesThrow : bool) (c : Collections) (d : Page.Doc) :
  Some (Page.host d) <> targetHost ->
  In d (content_pages c) ->
  In d (content_pages (pruneStaleDocs V targetHost fragmentsThrow pagesThrow c)).
Proof.
  intros Hhost Hin. unfold pruneStaleDocs.
  destruct (Js.truthy targetHost) eqn:Ht; [|done].
  destruct targetHost as [host|]; [|done].
  destruct pagesThrow; simpl; [done|].
  apply list_elem_of_In, list_elem_of_filter. split; [|by apply list_elem_of_In].
  unfold pageFilter. cbn [default].
  destruct (String.eqb_spec (Page.host d) host) as [E|]; [by rewrite E in Hhost|].
  apply andb_false_r.
Qed.

(** The fragment delete is scoped by containment: what it removes is
    stale and has a [page_url] that contains the target host. *)
Lemma prune_removes_matching_fragments (targetHost : option string)
    (fragmentsThrow pagesThrow : bool) (c : Collections) (d : Frag.Fragment) :
  In d (content_fragments c) ->
  ~ In d (content_fragments (pruneStaleDocs V targetHost fragmentsThrow pagesThrow c)) ->
  exists host u,
    targetHost = Some host /\ Frag.page_url d = Some u
    /\ Js.includes host u = true /\ (Frag.crawl_version d < V)%Z.
Proof.
  intros Hin Hout. unfold pruneStaleDocs in Hout.
  destruct (Js.truthy targetHost) eqn:Ht; [|done].
  destruct targetHost as [host|]; [|done].
  destruct fragmentsThrow; cbn [content_fragments default] in Hout; [done|].
  destruct (fragmentFilter V host d) eqn:E.
  - unfold fragmentFilter in E. apply andb_prop in E as [Ev Eu].
    destruct (Frag.page_url d) as [u|]; [|done].
    exists host, u. repeat split; [done | lia].
  - exfalso. apply Hout, list_elem_of_In, list_elem_of_filter.
    split; [done | by apply list_elem_of_In].
Qed.

End PruneFacts.

(** C2 (defect of the code).  After a crawl of my.gov.au, the prune
    deletes the stale fragment of beta.my.gov.au/help, a page of another
    host: the fragment filter asks that [page_url] contain the target
    host, and "https://beta.my.gov.au/help" contains "my.gov.au". *)
Lemma prune_deletes_fragment_of_other_host :
  let old := extractFragments Fixture.platform 1%Z Fixture.national
               Fixture.helpPage Fixture.helpUrl 0%Z in
  let target := targetHostOf Fixture.platform Fixture.homeUrl in
  target = Some "my.gov.au"
  /\ map (fun d => (fragmentHost d, Frag.page_url d, Frag.crawl_version d)) old
     = [(Some "beta.my.gov.au", Some "https://beta.my.gov.au/help", 1%Z)]
  /\ content_fragments
       (pruneStaleDocs 2%Z target false false
          {| content_fragments := old; content_pages := [] |}) = [].
Proof. vm_compute. repeat split. Qed.

(** ** The crawl *)

Section CrawlFacts.
Context (P : Platform) (V : Z) (classify : Enricher) (cfg : Config) (W : World).

Lemma countRequest_visited s : visited (countRequest W s) = visited s.
Proof. unfold countRequest. by destruct (_ && _). Qed.

Lemma countRequest_fetches url s : fetchesOf url (countRequest W s) = fetchesOf url s.
Proof.
  unfold countRequest, fetchesOf, emit. destruct (_ && _); simpl; [|done].
  by rewrite filter_app, app_nil_r.
Qed.

(** A crawl of a URL already visited does nothing. *)
Lemma crawl_visited retries url depth s :
  url ∈ visited s -> crawl P V classify cfg W retries url depth s = s.
Proof.
  intros Hin. destruct retries; simpl; by rewrite bool_decide_eq_true_2.
Qed.

(** A fetch that fails is never attempted again: whatever the number of
    retries left, the crawl of a URL whose navigation throws makes that
    one navigation, records the failure, waits when a retry is left, and
    returns, since the retry finds the URL among the visited ones. *)
Lemma crawl_failed_fetch retries url depth s :
  url ∉ visited s ->
  depth <= maxDepth cfg ->
  allowed W url = true ->
  goto W url (fetchesOf url s) = None ->
  trace (crawl P V classify cfg W retries url depth s)
  = trace (countRequest W s)
    ++ [Goto url; Recorded url false]
    ++ (match retries with O => [] | S _ => [Delay 1000] end).
Proof.
  intros Hnew Hdepth Hallowed Hfail.
  assert (crawl P V classify cfg W retries url depth s
          = let s1 := markVisited url (countRequest W s) in
            let s3 := emit (Recorded url false) (emit (Goto url) s1) in
            match retries with
            | S r => crawl P V classify cfg W r url depth (emit (Delay 1000) s3)
            | O => s3
            end) as ->.
  { destruct retries; simpl;
      rewrite bool_decide_eq_false_2 by done;
      rewrite (proj2 (Nat.ltb_ge _ _) Hdepth), Hallowed; simpl;
      unfold attempt;
      replace (fetchesOf url (markVisited url (countRequest W s)))
        with (fetchesOf url s) by (symmetry; apply countRequest_fetches);
      rewrite Hfail; reflexivity. }
  cbv zeta. destruct retries as [|r].
  - simpl. by rewrite <- app_assoc.
  - rewrite crawl_visited.
    + simpl. by rewrite <- !app_assoc.
    + simpl. apply setAdd_elem. by left.
Qed.

End CrawlFacts.

(** C3 (defect of the code).  On a site where the first navigation to the
    start page times out and a second one would succeed, the crawl with 3
    retries fetches the page once: it records the failure at once, waits
    1000 ms, and the retry returns without a fetch because the URL is
    already in the visited set.  No fragment is extracted. *)
Lemma crawl_never_refetches :
  let s := crawl Fixture.platform 1%Z Fixture.national Fixture.onePage
             Fixture.flakyWorld 3 Fixture.homeUrl 0 newScraper in
  goto Fixture.flakyWorld Fixture.homeUrl 0 = None
  /\ goto Fixture.flakyWorld Fixture.homeUrl 1 <> None
  /\ trace s = [Goto Fixture.homeUrl; Recorded Fixture.homeUrl false; Delay 1000]
  /\ fetchesOf Fixture.homeUrl s = 1
  /\ fragments s = [].
Proof. vm_compute. repeat split. discriminate. Qed.

(** C4 (defect of the code).  With [maxPages] = 1, the crawl of a start
    page that links to two pages fetches three pages: [maxPages] only cuts
    the list of sitemap URLs and is not read anywhere else. *)
Lemma crawl_exceeds_maxPages :
  maxPages Fixture.onePage = 1
  /\ exists s,
       runCrawl Fixture.platform 1%Z Fixture.national Fixture.onePage
                Fixture.steadyWorld 10 Fixture.homeUrl = Some s
       /\ fetchCount s = 3
       /\ visited s = [Fixture.homeUrl; "https://my.gov.au/a"; "https://my.gov.au/b"].
Proof.
  split; [reflexivity|].
  eexists. split; [vm_compute; reflexivity|]. split; reflexivity.
Qed.
(** ** Crawls that interleave *)

Section ScheduleFacts.
Context (P : Platform) (V : Z) (classify : Enricher) (cfg : Config) (W : World).

Import Schedule.

Implicit Types (s : Scraper) (c : Call) (o : Outcome) (r : Run).

Lemma fetched_emit e s :
  fetched (emit e s) = fetched s ++ match e with Goto u => [u] | _ => [] end.
Proof.
  unfold fetched, emit. cbn [trace]. rewrite omap_app. by destruct e.
Qed.

Lemma fetchCount_fetched s : fetchCount s = length (fetched s).
Proof.
  unfold fetchCount, fetched. induction (trace s) as [|e l IH]; [done|].
  rewrite filter_cons. destruct e; cbn [omap list_omap].
  - rewrite decide_True by done. cbn. by rewrite IH.
  - rewrite decide_False by done. done.
  - rewrite decide_False by done. done.
  - rewrite decide_False by done. done.
Qed.

Lemma priorityLinks_length (currentOrigin : string) (ls : list (string * string)) :
  length (priorityLinks P cfg currentOrigin ls) <= maxLinksPerPage cfg.
Proof.
  unfold priorityLinks. rewrite length_map, length_take. lia.
Qed.

Lemma countRequest_same_fetched s : fetched (countRequest W s) = fetched s.
Proof.
  unfold countRequest. destruct (_ && _); [|done].
  rewrite fetched_emit. cbn. by rewrite app_nil_r.
Qed.

Lemma countRequest_same_pending s : pendingCrawls (countRequest W s) = pendingCrawls s.
Proof. unfold countRequest. by destruct (_ && _). Qed.

Lemma countRequest_same_visited s : visited (countRequest W s) = visited s.
Proof. unfold countRequest. by destruct (_ && _). Qed.

Lemma countRequest_count s : requestCount (countRequest W s) = S (requestCount s).
Proof. unfold countRequest. by destruct (_ && _). Qed.

Lemma reach_pos d : 1 <= reach cfg d.
Proof. unfold reach. destruct (maxDepth cfg - d); simpl; lia. Qed.

Lemma reach_step d :
  d < maxDepth cfg ->
  reach cfg d = 1 + maxLinksPerPage cfg * reach cfg (S d).
Proof.
  intros H. unfold reach.
  replace (maxDepth cfg - d) with (S (maxDepth cfg - S d)) by lia. done.
Qed.

Lemma stepsAt_ge d : 8 <= stepsAt cfg d.
Proof. unfold stepsAt. destruct (maxDepth cfg - d); simpl; lia. Qed.

Lemma stepsAt_step d :
  d < maxDepth cfg ->
  stepsAt cfg d = 8 + maxLinksPerPage cfg * (1 + stepsAt cfg (S d)).
Proof.
  intros H. unfold stepsAt.
  replace (maxDepth cfg - d) with (S (maxDepth cfg - S d)) by lia. done.
Qed.

(** The head of [crawl]: it returns at the guard, or waits for the
    throttle, or marks the URL visited. *)
Lemma enter_cases c s :
  (enter cfg W c s = (at_ c Returned, s)
   /\ ((url c ∈ visited s) \/ maxDepth cfg < depth c \/ allowed W (url c) = false))
  \/ ((url c ∉ visited s) /\ depth c <= maxDepth cfg /\ allowed W (url c) = true
      /\ ((enter cfg W c s = (at_ c Throttled, countRequest W s)
           /\ throttled W (S (requestCount s)) = true)
          \/ enter cfg W c s = (at_ c Opening, markVisited (url c) (countRequest W s)))).
Proof.
  unfold enter.
  destruct (bool_decide (url c ∈ visited s)) eqn:Hv; cbn [orb].
  { left. split; [done|]. left. by apply bool_decide_eq_true in Hv. }
  apply bool_decide_eq_false in Hv.
  destruct (maxDepth cfg <? depth c) eqn:Hd; cbn [orb].
  { left. split; [done|]. right. left. by apply Nat.ltb_lt. }
  apply Nat.ltb_ge in Hd.
  destruct (allowed W (url c)) eqn:Ha; cbn [negb].
  2: { left. split; [done|]. by right; right. }
  right. split; [done|]. split; [done|]. split; [done|].
  rewrite countRequest_count.
  destruct (_ && _) eqn:E; [|by right].
  left. split; [done|]. by apply andb_prop in E as [_ E].
Qed.

Lemma caught_cases c s :
  exists p, (p = Retrying \/ p = Closing)
    /\ fst (caught c s) = at_ c p
    /\ visited (snd (caught c s)) = visited s
    /\ fetched (snd (caught c s)) = fetched s
    /\ pendingCrawls (snd (caught c s)) = pendingCrawls s.
Proof.
  unfold caught. destruct (0 <? retries c).
  - exists Retrying. cbn [fst snd]. rewrite !fetched_emit. cbn. rewrite !app_nil_r. by split; [left|].
  - exists Closing. cbn [fst snd]. rewrite !fetched_emit. cbn. rewrite !app_nil_r. by split; [right|].
Qed.

(** The cases of a step. *)
Ltac step_cases H :=
  unfold advance, enter, caught, at_ in H;
  match type of H with
  | context [phase ?c] =>
      let u := fresh "u" in let d := fresh "d" in let k := fresh "k" in
      let p := fresh "p" in
      destruct c as [u d k p]; cbn [phase url depth retries] in *;
      destruct p
  end;
  match type of H with
  | context [match ?o with Resolves => _ | _ => _ end] => destruct o
  | _ => idtac
  end;
  try discriminate H;
  repeat match type of H with
  | context [match ?l with [] => _ | _ :: _ => _ end] => destruct l
  | context [match new_URL ?Q ?u None with _ => _ end] =>
      let E := fresh "Eurl" in destruct (new_URL Q u None) eqn:E
  | context [if ?b then _ else _] => let E := fresh "E" in destruct b eqn:E
  end;
  try discriminate H;
  injection H as <- <- <-.

Lemma guard_false (u : string) (d : nat) s :
  bool_decide (u ∈ visited s) || (maxDepth cfg <? d) || negb (allowed W u) = false ->
  (u ∉ visited s) /\ d <= maxDepth cfg /\ allowed W u = true.
Proof.
  intros [[H1 H2]%orb_false_elim H3]%orb_false_elim.
  apply bool_decide_eq_false in H1. apply Nat.ltb_ge in H2.
  apply negb_false_iff in H3. done.
Qed.

Lemma visited_emit e s : visited (emit e s) = visited s.
Proof. done. Qed.
Lemma visited_pushFragments fs s : visited (pushFragments fs s) = visited s.
Proof. done. Qed.
Lemma visited_markVisited (u : string) s :
  visited (markVisited u s) = setAdd u (visited s).
Proof. done. Qed.
Lemma visited_queueCrawl (d : nat) s (l : string) :
  visited (queueCrawl d s l) = visited s.
Proof. done. Qed.

Lemma fetched_pushFragments fs s : fetched (pushFragments fs s) = fetched s.
Proof. done. Qed.
Lemma fetched_markVisited (u : string) s : fetched (markVisited u s) = fetched s.
Proof. done. Qed.
Lemma fetched_queueCrawl (d : nat) s (l : string) : fetched (queueCrawl d s l) = fetched s.
Proof. unfold queueCrawl. rewrite fetched_emit. cbn. by rewrite app_nil_r. Qed.
Lemma fetched_other e s :
  match e with Goto _ => False | _ => True end -> fetched (emit e s) = fetched s.
Proof. intros He. rewrite fetched_emit. destruct e; [done|by rewrite app_nil_r..]. Qed.

Lemma pending_emit e s : pendingCrawls (emit e s) = pendingCrawls s.
Proof. done. Qed.
Lemma pending_pushFragments fs s : pendingCrawls (pushFragments fs s) = pendingCrawls s.
Proof. done. Qed.
Lemma pending_markVisited (u : string) s :
  pendingCrawls (markVisited u s) = pendingCrawls s.
Proof. done. Qed.
Lemma pending_queueCrawl (d : nat) s (l : string) :
  pendingCrawls (queueCrawl d s l) = pendingCrawls s ++ [(l, d)].
Proof. done. Qed.

(** Rewriting the fields of the scraper after a step. *)
Ltac fields :=
  repeat first
    [ rewrite visited_emit | rewrite visited_pushFragments | rewrite visited_markVisited
    | rewrite visited_queueCrawl | rewrite countRequest_same_visited
    | rewrite fetched_pushFragments | rewrite fetched_markVisited
    | rewrite fetched_queueCrawl | rewrite countRequest_same_fetched
    | rewrite fetched_other by exact I
    | rewrite pending_emit | rewrite pending_pushFragments | rewrite pending_markVisited
    | rewrite pending_queueCrawl | rewrite countRequest_same_pending ].

(** A step forgets no visited URL. *)
Lemma advance_visited c o s c' s' made (x : string) :
  advance P V classify cfg W c o s = Some (c', s', made) ->
  x ∈ visited s -> x ∈ visited s'.
Proof.
  intros H Hx. step_cases H; fields; try done; apply setAdd_elem; by right.
Qed.

Lemma sound_mono s s' c :
  (forall x : string, x ∈ visited s -> x ∈ visited s') ->
  sound cfg W s c -> sound cfg W s' c.
Proof.
  intros Hv. unfold sound. destruct (phase c); try done; intros (H1 & H2 & H3); auto.
Qed.

(** Reading the tests of a step. *)
Ltac tests :=
  repeat match goal with
  | E : (_ <? _) = true |- _ => apply Nat.ltb_lt in E
  | E : (_ <? _) = false |- _ => apply Nat.ltb_ge in E
  | E : _ || _ || _ = false |- _ =>
      apply guard_false in E; destruct E as (? & ? & ?)
  end.

(** A step keeps what holds of a call by the [await] it is at. *)
Lemma advance_sound c o s c' s' made :
  advance P V classify cfg W c o s = Some (c', s', made) ->
  sound cfg W s c ->
  sound cfg W s' c' /\ Forall (sound cfg W s') made.
Proof.
  intros H. step_cases H; tests; unfold sound; cbn [phase url depth]; fields;
    intros Hs; (split; [|repeat constructor]); cbn [phase url depth]; fields;
    rewrite ?setAdd_elem; try tauto; try (destruct Hs as (? & ? & ?); done);
    try (intuition lia).
Qed.

(** Every step takes one of the steps that are left. *)
Lemma advance_stepsLeft c o s c' s' made :
  advance P V classify cfg W c o s = Some (c', s', made) ->
  sound cfg W s c ->
  stepsLeft cfg c' + sum_list_with (stepsLeft cfg) made < stepsLeft cfg c.
Proof.
  intros H. step_cases H; tests; unfold sound, stepsLeft, newCall;
    cbn [phase url depth sum_list_with length];
    pose proof (stepsAt_ge d) as Ha; pose proof (stepsAt_ge (S d)) as Hb;
    pose proof (stepsAt_step d) as Hc;
    try pose proof (priorityLinks_length (origin u0) ls) as Hl;
    intros Hs; try lia; try (destruct Hs as (? & ? & ?); first [done | lia | nia]).
Qed.

(** No step adds to the pages fetched and still to fetch. *)
Lemma advance_fetchesLeft c o s c' s' made :
  advance P V classify cfg W c o s = Some (c', s', made) ->
  sound cfg W s c ->
  length (fetched s') + fetchesLeft cfg c' + sum_list_with (fetchesLeft cfg) made
  <= length (fetched s) + fetchesLeft cfg c.
Proof.
  intros H. step_cases H; tests; unfold sound, fetchesLeft, newCall;
    cbn [phase url depth sum_list_with length]; fields;
    rewrite ?fetched_emit, ?length_app; cbn [length];
    pose proof (reach_pos d) as Ha; pose proof (reach_pos (S d)) as Hb;
    pose proof (reach_step d) as Hc;
    try pose proof (priorityLinks_length (origin u0) ls) as Hl;
    intros Hs; try lia; try (destruct Hs as (? & ? & ?); first [done | lia | nia]).
Qed.

(** What a step adds to the queue and to the fetches, and where the
    calls it makes come from. *)
Lemma advance_known (roots : list string) c o s c' s' made :
  advance P V classify cfg W c o s = Some (c', s', made) ->
  sound cfg W s c -> known roots s c ->
  known roots s' c' /\ Forall (known roots s') made
  /\ (forall q, q ∈ pendingCrawls s -> q ∈ pendingCrawls s')
  /\ (forall (x : string) (n : nat), (x, n) ∈ pendingCrawls s' ->
        ((x, n) ∈ pendingCrawls s) \/ 1 <= n <= maxDepth cfg)
  /\ (forall x : string, x ∈ fetched s' ->
        (x ∈ fetched s) \/ (x = url c /\ (x ∈ visited s') /\ allowed W x = true)).
Proof.
  intros H. step_cases H; tests; unfold sound, known, newCall;
    cbn [phase url depth]; fields; rewrite ?fetched_emit;
    intros Hs Hk;
    (split; [|split; [first [apply Forall_nil_2 | apply Forall_singleton]|split; [|split]]]);
    cbn [phase url depth]; fields;
    try done; try tauto; try (by left);
    try (intros q Hq; apply elem_of_app; by left);
    try (intros x n; rewrite elem_of_app, list_elem_of_singleton; intros [?|Heq];
         [by left|injection Heq as -> ->; right; lia]);
    try (intros x; rewrite elem_of_app, list_elem_of_singleton; intros [? | ->];
         [by left|right; tauto]);
    try (destruct Hk as [?|?]; [by left|right; apply elem_of_app; by left]);
    try (right; apply elem_of_app; right; by apply list_elem_of_singleton).
Qed.

(** Without throttling, a step keeps apart the URLs fetched and about
    to be fetched. *)
Lemma advance_due c o s c' s' made (rest : list string) :
  (forall n, throttled W n = false) ->
  advance P V classify cfg W c o s = Some (c', s', made) ->
  sound cfg W s c -> isThrottled c = false ->
  NoDup (omap toFetch [c] ++ rest ++ fetched s) ->
  (forall x : string, x ∈ omap toFetch [c] ++ rest ++ fetched s -> x ∈ visited s) ->
  NoDup (omap toFetch [c'] ++ omap toFetch made ++ rest ++ fetched s')
  /\ (forall x : string,
        x ∈ omap toFetch [c'] ++ omap toFetch made ++ rest ++ fetched s' ->
        x ∈ visited s')
  /\ isThrottled c' = false /\ Forall (fun m => isThrottled m = false) made.
Proof.
  intros Hw H. step_cases H; tests; unfold sound, isThrottled, newCall;
    cbn [toFetch phase url depth omap list_omap app]; fields;
    intros Hs Ht Hnd Hv; try discriminate Ht;
    try (rewrite Hw, andb_false_r in E0; discriminate E0);
    try (destruct Hs as (? & ? & ?); done);
    try (split; [|split; [|split; [done|first [apply Forall_nil_2 | by apply Forall_singleton]]]];
         [done|done]).
  - (* the URL is marked visited *)
    split; [|split; [|split; [done|apply Forall_nil_2]]].
    + apply NoDup_cons. split; [|done]. intros Hin. by apply Hv in Hin.
    + intros x [-> | Hx]%elem_of_cons; apply setAdd_elem; [by left|right; by apply Hv].
  - (* [browser.newPage()] rejects *)
    apply NoDup_cons in Hnd as [_ Hnd].
    split; [done|]. split; [|split; [done|apply Forall_nil_2]].
    intros x Hx. apply Hv. by right.
  - (* [page.goto] is called *)
    rewrite fetched_emit.
    split; [|split; [|split; [done|apply Forall_nil_2]]].
    + rewrite app_assoc. by rewrite <- Permutation_cons_append.
    + intros x Hx. apply Hv. rewrite app_assoc in Hx.
      apply elem_of_app in Hx as [Hx | ->%list_elem_of_singleton]; [|by left].
      by right.
  - apply NoDup_cons in Hnd as [_ Hnd].
    split; [done|]. split; [|split; [done|apply Forall_nil_2]].
    intros x Hx. apply Hv. by right.
  - apply NoDup_cons in Hnd as [_ Hnd].
    split; [done|]. split; [|split; [done|apply Forall_nil_2]].
    intros x Hx. apply Hv. by right.
Qed.

(** A step of a run, as the step of one of its calls. *)
Lemma turn_calls r i o r' :
  turn P V classify cfg W r (i, o) = Some r' ->
  exists l1 c l2 c' made,
    calls r = l1 ++ c :: l2
    /\ calls r' = l1 ++ c' :: l2 ++ made
    /\ advance P V classify cfg W c o (scraper r) = Some (c', scraper r', made).
Proof.
  unfold turn. cbn [fst snd].
  destruct (calls r !! i) as [c|] eqn:Hc; [|done].
  destruct (advance P V classify cfg W c o (scraper r)) as [[[c' s'] made]|] eqn:E; [|done].
  intros [= <-]. cbn [calls scraper].
  exists (take i (calls r)), c, (drop (S i) (calls r)), c', made.
  split; [by rewrite take_drop_middle|]. split; [|done].
  rewrite insert_take_drop by by eapply lookup_lt_Some.
  by rewrite <- app_assoc.
Qed.

Lemma turn_wellRun (roots : list string) r ch r' :
  turn P V classify cfg W r ch = Some r' ->
  wellRun cfg W roots r -> wellRun cfg W roots r'.
Proof.
  destruct ch as [i o].
  intros (l1 & c & l2 & c' & made & Hl & Hl' & Hc)%turn_calls (Hs & Hk & Hf & Hq).
  unfold wellRun. rewrite Hl in Hs, Hk. rewrite Hl'.
  apply Forall_app in Hs as [Hs1 [Hsc Hs2]%Forall_cons].
  apply Forall_app in Hk as [Hk1 [Hkc Hk2]%Forall_cons].
  destruct (advance_sound _ _ _ _ _ _ Hc Hsc) as [Hsc' Hsm].
  destruct (advance_known roots _ _ _ _ _ _ Hc Hsc Hkc) as (Hkc' & Hkm & Hpm & Hpn & Hfn).
  assert (forall c0, sound cfg W (scraper r) c0 -> sound cfg W (scraper r') c0) as Hmono.
  { intros c0. apply sound_mono. intros x. by eapply advance_visited. }
  assert (forall c0, known roots (scraper r) c0 -> known roots (scraper r') c0) as Hkmono.
  { intros c0 [?|?]; [by left|right; by apply Hpm]. }
  split; [|split; [|split]].
  - apply Forall_app. split; [exact (Forall_impl _ _ _ Hs1 Hmono)|].
    apply Forall_cons. split; [done|].
    apply Forall_app. split; [exact (Forall_impl _ _ _ Hs2 Hmono)|done].
  - apply Forall_app. split; [exact (Forall_impl _ _ _ Hk1 Hkmono)|].
    apply Forall_cons. split; [done|].
    apply Forall_app. split; [exact (Forall_impl _ _ _ Hk2 Hkmono)|done].
  - intros x [Hx|(-> & Hv & Ha)]%Hfn.
    + destruct (Hf x Hx) as (H1 & H2 & H3). split; [by eapply advance_visited|].
      split; [done|]. destruct H3 as [?|[n ?]]; [by left|right; exists n; by apply Hpm].
    + split; [done|]. split; [done|].
      destruct Hkc as [[? _]|?]; [by left|]. right. exists (depth c). by apply Hpm.
  - intros x n [?|?]%Hpn; [by eapply Hq|done].
Qed.

Lemma turn_stepsLeft (roots : list string) r ch r' :
  turn P V classify cfg W r ch = Some r' ->
  wellRun cfg W roots r ->
  sum_list_with (stepsLeft cfg) (calls r') < sum_list_with (stepsLeft cfg) (calls r).
Proof.
  destruct ch as [i o].
  intros (l1 & c & l2 & c' & made & Hl & Hl' & Hc)%turn_calls (Hs & _).
  rewrite Hl in Hs. apply Forall_app in Hs as [_ [Hsc _]%Forall_cons].
  pose proof (advance_stepsLeft _ _ _ _ _ _ Hc Hsc) as Hlt.
  rewrite Hl, Hl'. rewrite !sum_list_with_app. cbn [sum_list_with].
  rewrite sum_list_with_app. lia.
Qed.

Lemma turn_fetchesLeft (roots : list string) r ch r' :
  turn P V classify cfg W r ch = Some r' ->
  wellRun cfg W roots r ->
  length (fetched (scraper r')) + sum_list_with (fetchesLeft cfg) (calls r')
  <= length (fetched (scraper r)) + sum_list_with (fetchesLeft cfg) (calls r).
Proof.
  destruct ch as [i o].
  intros (l1 & c & l2 & c' & made & Hl & Hl' & Hc)%turn_calls (Hs & _).
  rewrite Hl in Hs. apply Forall_app in Hs as [_ [Hsc _]%Forall_cons].
  pose proof (advance_fetchesLeft _ _ _ _ _ _ Hc Hsc) as Hlt.
  rewrite Hl, Hl'. rewrite !sum_list_with_app. cbn [sum_list_with].
  rewrite sum_list_with_app. lia.
Qed.

Lemma turn_apart (roots : list string) r ch r' :
  (forall n, throttled W n = false) ->
  turn P V classify cfg W r ch = Some r' ->
  wellRun cfg W roots r -> apart r -> apart r'.
Proof.
  destruct ch as [i o].
  intros Hw (l1 & c & l2 & c' & made & Hl & Hl' & Hc)%turn_calls (Hs & _) (Hnd & Hv & Ht).
  rewrite Hl in Hs. apply Forall_app in Hs as [_ [Hsc _]%Forall_cons].
  unfold apart. rewrite Hl in Hnd, Hv, Ht. rewrite Hl'.
  apply Forall_app in Ht as [Ht1 [Htc Ht2]%Forall_cons].
  assert (forall (x : Call) (l l' : list Call) (f : list string),
            omap toFetch (l ++ x :: l') ++ f
            ≡ₚ omap toFetch [x] ++ (omap toFetch l ++ omap toFetch l') ++ f) as Hperm.
  { intros x l l' f. change (x :: l') with ([x] ++ l'). rewrite !omap_app.
    rewrite <- !app_assoc. rewrite (app_assoc (omap toFetch l)).
    rewrite (Permutation_app_comm (omap toFetch l)). by rewrite <- !app_assoc. }
  rewrite Hperm in Hnd. setoid_rewrite Hperm in Hv.
  destruct (advance_due _ _ _ _ _ _ _ Hw Hc Hsc Htc Hnd Hv) as (Hnd' & Hv' & Htc' & Htm).
  assert (omap toFetch (l1 ++ c' :: l2 ++ made) ++ fetched (scraper r')
          ≡ₚ omap toFetch [c'] ++ omap toFetch made
             ++ (omap toFetch l1 ++ omap toFetch l2) ++ fetched (scraper r')) as Hperm'.
  { change (c' :: l2 ++ made) with ([c'] ++ l2 ++ made). rewrite !omap_app.
    rewrite <- !app_assoc. rewrite (app_assoc (omap toFetch l1)).
    rewrite (Permutation_app_comm (omap toFetch l1)). rewrite <- !app_assoc.
    apply Permutation_app_head.
    rewrite (app_assoc (omap toFetch l1)), (app_assoc _ (omap toFetch made)).
    rewrite (Permutation_app_comm _ (omap toFetch made)). by rewrite <- !app_assoc. }
  split; [by rewrite Hperm'|]. split; [intros x Hx; apply Hv'; by rewrite <- Hperm'|].
  apply Forall_app. split; [done|]. apply Forall_cons. split; [done|].
  apply Forall_app. done.
Qed.

(** [run] starts well. *)
Lemma run_wellRun (startUrl : string) :
  wellRun cfg W (seedsOf cfg W startUrl ++ [startUrl]) (run cfg W startUrl).
Proof.
  unfold wellRun, run. cbn [scraper calls].
  split; [|split; [|split]].
  - apply Forall_fmap, Forall_forall. by intros.
  - apply Forall_fmap, Forall_forall. intros x Hx. by left.
  - intros x Hx. by apply elem_of_nil in Hx.
  - intros x n Hx. by apply elem_of_nil in Hx.
Qed.

Lemma run_apart (startUrl : string) : apart (run cfg W startUrl).
Proof.
  unfold apart, run. cbn [scraper calls].
  assert (forall l : list string, omap toFetch (map (fun u => newCall u 0) l) = []) as ->.
  { induction l as [|x l IH]; [done|]. cbn. exact IH. }
  split; [apply NoDup_nil_2|]. split.
  - intros x Hx. by apply elem_of_nil in Hx.
  - apply Forall_fmap, Forall_forall. by intros.
Qed.

Lemma run_stepsLeft (startUrl : string) :
  sum_list_with (stepsLeft cfg) (calls (run cfg W startUrl))
  = (1 + length (seedsOf cfg W startUrl))
    * stepsUnder (maxLinksPerPage cfg) (maxDepth cfg).
Proof.
  unfold run. cbn [calls].
  assert (forall l : list string,
            sum_list_with (stepsLeft cfg) (map (fun u => newCall u 0) l)
            = length l * stepsUnder (maxLinksPerPage cfg) (maxDepth cfg)) as ->.
  { induction l as [|x l IH]; [done|]. cbn [map sum_list_with length]. rewrite IH.
    unfold stepsLeft, newCall, stepsAt. cbn [phase depth]. rewrite Nat.sub_0_r. lia. }
  rewrite length_app. cbn [length]. lia.
Qed.

Lemma run_fetchesLeft (startUrl : string) :
  length (fetched (scraper (run cfg W startUrl)))
  + sum_list_with (fetchesLeft cfg) (calls (run cfg W startUrl))
  = crawlBound cfg (length (seedsOf cfg W startUrl)).
Proof.
  unfold run, crawlBound. cbn [calls scraper].
  assert (forall l : list string,
            sum_list_with (fetchesLeft cfg) (map (fun u => newCall u 0) l)
            = length l * pagesUnder (maxLinksPerPage cfg) (maxDepth cfg)) as ->.
  { induction l as [|x l IH]; [done|]. cbn [map sum_list_with length]. rewrite IH.
    unfold fetchesLeft, newCall, reach. cbn [phase depth]. rewrite Nat.sub_0_r. lia. }
  rewrite length_app. cbn [length]. change (fetched newScraper) with (@nil string).
  cbn [length]. lia.
Qed.

(** What holds all along a schedule. *)
Lemma turns_wellRun (roots : list string) schedule r r' :
  turns P V classify cfg W schedule r = Some r' ->
  wellRun cfg W roots r ->
  wellRun cfg W roots r'
  /\ length schedule + sum_list_with (stepsLeft cfg) (calls r')
     <= sum_list_with (stepsLeft cfg) (calls r)
  /\ length (fetched (scraper r')) + sum_list_with (fetchesLeft cfg) (calls r')
     <= length (fetched (scraper r)) + sum_list_with (fetchesLeft cfg) (calls r).
Proof.
  revert r. induction schedule as [|ch rest IH]; intros r; cbn [turns length].
  - intros [= <-] Hr. split; [done|]. lia.
  - destruct (turn P V classify cfg W r ch) as [r1|] eqn:E; [|done].
    intros Hrest Hr.
    pose proof (turn_wellRun roots _ _ _ E Hr) as Hr1.
    pose proof (turn_stepsLeft roots _ _ _ E Hr) as Hs.
    pose proof (turn_fetchesLeft roots _ _ _ E Hr) as Hf.
    destruct (IH r1 Hrest Hr1) as (H1 & H2 & H3).
    split; [done|]. lia.
Qed.

Lemma turns_apart (roots : list string) schedule r r' :
  (forall n, throttled W n = false) ->
  turns P V classify cfg W schedule r = Some r' ->
  wellRun cfg W roots r -> apart r -> apart r'.
Proof.
  intros Hw. revert r. induction schedule as [|ch rest IH]; intros r; cbn [turns].
  - by intros [= <-].
  - destruct (turn P V classify cfg W r ch) as [r1|] eqn:E; [|done].
    intros Hrest Hr Ha. apply (IH r1 Hrest).
    + by eapply turn_wellRun.
    + by eapply turn_apart.
Qed.

Lemma filter_eq_absent (l : list string) (x : string) :
  x ∉ l -> filter (fun u => u = x) l = [].
Proof.
  induction l as [|y l IH]; [done|].
  intros [Hy Hl]%not_elem_of_cons. rewrite filter_cons.
  rewrite decide_False by congruence. by apply IH.
Qed.

Lemma NoDup_filter_eq_length (l : list string) (x : string) :
  NoDup l -> length (filter (fun u => u = x) l) <= 1.
Proof.
  induction l as [|y l IH]; [cbn; lia|].
  intros [Hy Hl]%NoDup_cons. rewrite filter_cons.
  destruct (decide (y = x)) as [->|]; [|by apply IH].
  rewrite filter_eq_absent by done. cbn. lia.
Qed.

Lemma fetchesOf_fetched (x : string) s :
  fetchesOf x s = length (filter (fun u => u = x) (fetched s)).
Proof.
  unfold fetchesOf, fetched. induction (trace s) as [|e l IH]; [done|].
  rewrite filter_cons. destruct e as [u| | |]; cbn [omap list_omap isGoto].
  - rewrite filter_cons. destruct (String.eqb_spec u x) as [->|Hne].
    + rewrite !decide_True by done. cbn. by rewrite IH.
    + rewrite !decide_False by done. done.
  - rewrite decide_False by done. done.
  - rewrite decide_False by done. done.
  - rewrite decide_False by done. done.
Qed.

End ScheduleFacts.

(** X1.  The depth and link limits bound the crawl, however its calls
    interleave and whatever the site and the browser answer: a run takes
    at most (1 + seeds) * [stepsUnder maxLinksPerPage maxDepth] steps from
    one [await] of a call of [crawl] to the next, so that it cannot go on
    for ever, and it fetches at most
    (1 + seeds) * (1 + L + L^2 + ... + L^maxDepth) pages, where seeds is
    the number of sitemap URLs it started from (at most [maxPages]) and L
    is [maxLinksPerPage]. *)
Theorem crawls_end_within_depth_and_link_limits (P : Platform) (V : Z)
    (classify : Enricher) (cfg : Config) (W : World) (startUrl : string)
    (schedule : list (nat * Schedule.Outcome)) (r : Schedule.Run) :
  Schedule.turns P V classify cfg W schedule (Schedule.run cfg W startUrl) = Some r ->
  length schedule
  <= (1 + length (seedsOf cfg W startUrl))
     * Schedule.stepsUnder (maxLinksPerPage cfg) (maxDepth cfg)
  /\ fetchCount (Schedule.scraper r) <= crawlBound cfg (length (seedsOf cfg W startUrl))
  /\ length (seedsOf cfg W startUrl) <= maxPages cfg.
Proof.
  intros Hrun.
  destruct (turns_wellRun P V classify cfg W _ _ _ _ Hrun (run_wellRun cfg W startUrl))
    as (_ & Hs & Hf).
  rewrite run_stepsLeft in Hs. rewrite run_fetchesLeft in Hf.
  rewrite fetchCount_fetched.
  split; [lia|]. split; [lia|].
  unfold seedsOf. rewrite length_take. lia.
Qed.

Lemma crawls_end_within_depth_and_link_limits_witness :
  exists r,
    Schedule.turns Fixture.platform 1%Z Fixture.national Runs.cfg Runs.hurried Runs.race
                   (Schedule.run Runs.cfg Runs.hurried Fixture.homeUrl) = Some r
    /\ length Runs.race <= 9 * Schedule.stepsUnder 5 2
    /\ fetchCount (Schedule.scraper r) <= crawlBound Runs.cfg 8.
Proof.
  pose proof (crawls_end_within_depth_and_link_limits Fixture.platform 1%Z Fixture.national
                Runs.cfg Runs.hurried Fixture.homeUrl Runs.race) as H.
  destruct (Schedule.turns Fixture.platform 1%Z Fixture.national Runs.cfg Runs.hurried
              Runs.race (Schedule.run Runs.cfg Runs.hurried Fixture.homeUrl))
    as [r|] eqn:E; [|vm_compute in E; discriminate].
  exists r. destruct (H r eq_refl) as (H1 & H2 & _).
  split; [reflexivity|]. split; [exact H1|exact H2].
Defined.

(** X2.  When the crawl is never throttled, no URL is fetched twice,
    however the calls of [crawl] interleave: between the guard and
    [visited.add] a call then gives way to no other.  (With the throttle
    it does, and two calls for one URL can both pass the guard; see
    [throttled_crawls_fetch_twice].) *)
Theorem unthrottled_crawls_fetch_each_url_once (P : Platform) (V : Z)
    (classify : Enricher) (cfg : Config) (W : World) (startUrl : string)
    (schedule : list (nat * Schedule.Outcome)) (r : Schedule.Run) :
  (forall n, throttled W n = false) ->
  Schedule.turns P V classify cfg W schedule (Schedule.run cfg W startUrl) = Some r ->
  NoDup (fetched (Schedule.scraper r))
  /\ (forall url, fetchesOf url (Schedule.scraper r) <= 1).
Proof.
  intros Hw Hrun.
  destruct (turns_apart P V classify cfg W _ _ _ _ Hw Hrun (run_wellRun cfg W startUrl)
              (run_apart cfg W startUrl)) as (Hnd & _ & _).
  apply NoDup_app in Hnd as (_ & _ & Hnd).
  split; [done|]. intros url. rewrite fetchesOf_fetched. by apply NoDup_filter_eq_length.
Qed.

Lemma unthrottled_crawls_fetch_each_url_once_witness :
  (forall n, throttled Fixture.steadyWorld n = false)
  /\ exists r,
       Schedule.turns Fixture.platform 1%Z Fixture.national Runs.cfg Fixture.steadyWorld
                      Runs.linkedTwice
                      (Schedule.run Runs.cfg Fixture.steadyWorld Fixture.homeUrl) = Some r
       /\ fetched (Schedule.scraper r) = [Fixture.homeUrl; Runs.dupUrl]
       /\ NoDup (fetched (Schedule.scraper r)).
Proof.
  pose proof (unthrottled_crawls_fetch_each_url_once Fixture.platform 1%Z Fixture.national
                Runs.cfg Fixture.steadyWorld Fixture.homeUrl Runs.linkedTwice) as H.
  destruct (Schedule.turns Fixture.platform 1%Z Fixture.national Runs.cfg
              Fixture.steadyWorld Runs.linkedTwice
              (Schedule.run Runs.cfg Fixture.steadyWorld Fixture.homeUrl))
    as [r|] eqn:E; [|vm_compute in E; discriminate].
  split; [reflexivity|].
  exists r. destruct (H r (fun _ => eq_refl) eq_refl) as (H1 & _).
  split; [reflexivity|]. split; [|exact H1].
  vm_compute in E. injection E as <-. vm_compute. reflexivity.
Defined.

(** X3.  However its calls interleave, a run fetches only what the
    robots policy allows, and only the start URL, the sitemap URLs it was
    seeded with and the links it queued; it queues links at the depths 1
    to [maxDepth] only, and past its guard every call of [crawl] is for an
    allowed URL at a depth within [maxDepth]. *)
Theorem crawls_respect_robots_and_depth (P : Platform) (V : Z)
    (classify : Enricher) (cfg : Config) (W : World) (startUrl : string)
    (schedule : list (nat * Schedule.Outcome)) (r : Schedule.Run) :
  Schedule.turns P V classify cfg W schedule (Schedule.run cfg W startUrl) = Some r ->
  (forall url, url ∈ fetched (Schedule.scraper r) ->
     allowed W url = true /\ (url ∈ visited (Schedule.scraper r)))
  /\ (forall url, url ∈ fetched (Schedule.scraper r) ->
        url = startUrl \/ (url ∈ seedsOf cfg W startUrl)
        \/ exists depth, (url, depth) ∈ pendingCrawls (Schedule.scraper r))
  /\ (forall url depth, (url, depth) ∈ pendingCrawls (Schedule.scraper r) ->
        1 <= depth <= maxDepth cfg)
  /\ Forall (Schedule.sound cfg W (Schedule.scraper r)) (Schedule.calls r).
Proof.
  intros Hrun.
  destruct (turns_wellRun P V classify cfg W _ _ _ _ Hrun (run_wellRun cfg W startUrl))
    as ((Hs & _ & Hf & Hq) & _ & _).
  split; [|split; [|split; [done|done]]].
  - intros url Hu. destruct (Hf url Hu) as (H1 & H2 & _). done.
  - intros url Hu. destruct (Hf url Hu) as (_ & _ & [Hr|Hr]).
    + apply elem_of_app in Hr as [Hr | ->%list_elem_of_singleton]; auto.
    + by right; right.
Qed.

Lemma crawls_respect_robots_and_depth_witness :
  exists r,
    Schedule.turns Fixture.platform 1%Z Fixture.national Runs.cfg Runs.listed
                   Runs.childFirst
                   (Schedule.run Runs.cfg Runs.listed Fixture.homeUrl) = Some r
    /\ forall url depth, (url, depth) ∈ pendingCrawls (Schedule.scraper r) ->
         1 <= depth <= 2.
Proof.
  pose proof (crawls_respect_robots_and_depth Fixture.platform 1%Z Fixture.national
                Runs.cfg Runs.listed Fixture.homeUrl Runs.childFirst) as H.
  destruct (Schedule.turns Fixture.platform 1%Z Fixture.national Runs.cfg Runs.listed
              Runs.childFirst (Schedule.run Runs.cfg Runs.listed Fixture.homeUrl))
    as [r|] eqn:E; [|vm_compute in E; discriminate].
  exists r. destruct (H r eq_refl) as (_ & _ & H3 & _). split; [reflexivity|exact H3].
Defined.

(** The throttle at work: the tenth request waits between the guard and
    [visited.add], a second call for the same URL passes the guard
    meanwhile, and the URL is fetched twice. *)
Example throttled_crawls_fetch_twice :
  option_map (fun r => (fetchesOf Runs.dupUrl (Schedule.scraper r),
                        drop 9 (fetched (Schedule.scraper r)),
                        pendingCrawls (Schedule.scraper r)))
    (Schedule.turns Fixture.platform 1%Z Fixture.national Runs.cfg Runs.hurried Runs.race
                    (Schedule.run Runs.cfg Runs.hurried Fixture.homeUrl))
  = Some (2, [Runs.dupUrl; Runs.dupUrl], [(Runs.dupUrl, 1); (Runs.dupUrl, 1)]).
Proof. vm_compute. reflexivity. Qed.

(** The order of the calls at work: the call a sitemap page queued for
    the start URL starts before [run] calls [crawl] on it, so that the
    start URL is fetched by a call at depth 1 and the call of [run], at
    depth 0, returns at its guard. *)
Example start_url_fetched_by_queued_crawl :
  option_map (fun r => (fetched (Schedule.scraper r),
                        pendingCrawls (Schedule.scraper r),
                        map Schedule.phase (Schedule.calls r)))
    (Schedule.turns Fixture.platform 1%Z Fixture.national Runs.cfg Runs.listed
                    Runs.childFirst
                    (Schedule.run Runs.cfg Runs.listed Fixture.homeUrl))
  = Some (["https://my.gov.au/s1"; Fixture.homeUrl],
          [(Fixture.homeUrl, 1)],
          [Schedule.Returned; Schedule.Returned; Schedule.Navigating]).
Proof. vm_compute. reflexivity. Qed.

(** The browser at work: when [browser.newPage()] rejects, the call is
    rejected with its URL visited and never fetched, nothing recorded. *)
Example newPage_rejected :
  option_map (fun r => (map Schedule.phase (Schedule.calls r),
                        visited (Schedule.scraper r), trace (Schedule.scraper r)))
    (Schedule.turns Fixture.platform 1%Z Fixture.national Fixture.onePage
                    Fixture.steadyWorld Runs.noPage
                    (Schedule.run Fixture.onePage Fixture.steadyWorld Fixture.homeUrl))
  = Some ([Schedule.Rejected], [Fixture.homeUrl], []).
Proof. vm_compute. reflexivity. Qed.

(** One call alone: its steps leave the scraper as [crawl] does, when
    the navigation times out and the retry returns at the guard, and when
    the page loads and its links are queued. *)
Example one_call_alone :
  option_map Schedule.scraper
    (Schedule.turns Fixture.platform 1%Z Fixture.national Fixture.onePage
                    Fixture.flakyWorld Runs.timedOut
                    (Schedule.run Fixture.onePage Fixture.flakyWorld Fixture.homeUrl))
  = Some (crawl Fixture.platform 1%Z Fixture.national Fixture.onePage Fixture.flakyWorld
                3 Fixture.homeUrl 0 newScraper)
  /\ option_map Schedule.scraper
       (Schedule.turns Fixture.platform 1%Z Fixture.national Fixture.onePage
                       Fixture.steadyWorld Runs.loaded
                       (Schedule.run Fixture.onePage Fixture.steadyWorld Fixture.homeUrl))
     = Some (crawl Fixture.platform 1%Z Fixture.national Fixture.onePage
                   Fixture.steadyWorld 3 Fixture.homeUrl 0 newScraper).
Proof. split; vm_compute; reflexivity. Qed.
(** ** Sorting by count *)

Section SortFacts.

Implicit Types (x y : string * nat) (l : list (string * nat)).

Lemma insertByCount_Permutation x l : insertByCount x l ≡ₚ x :: l.
Proof.
  induction l as [|y l IH]; [done|]. cbn [insertByCount].
  destruct (snd y <=? snd x); [done|]. rewrite IH. apply perm_swap.
Qed.

Lemma sortByCountDesc_Permutation l : sortByCountDesc l ≡ₚ l.
Proof.
  induction l as [|x l IH]; [done|]. cbn [sortByCountDesc fold_right].
  fold (sortByCountDesc l). rewrite insertByCount_Permutation. by rewrite IH.
Qed.

Lemma insertByCount_descending x l : descending l -> descending (insertByCount x l).
Proof.
  induction l as [|y l IH]; intros Hl; cbn [insertByCount].
  - split; [|done]. intros z Hz. by apply elem_of_nil in Hz.
  - destruct Hl as [Hy Hl]. destruct (snd y <=? snd x) eqn:E.
    + apply Nat.leb_le in E. split; [|by split].
      intros z [->|Hz]%elem_of_cons; [done|]. specialize (Hy z Hz). lia.
    + apply Nat.leb_gt in E. split; [|by apply IH].
      intros z Hz. rewrite insertByCount_Permutation in Hz.
      apply elem_of_cons in Hz as [->|Hz]; [lia|by apply Hy].
Qed.

Lemma sortByCountDesc_descending l : descending (sortByCountDesc l).
Proof.
  induction l as [|x l IH]; [done|]. cbn [sortByCountDesc fold_right].
  by apply insertByCount_descending.
Qed.

(** In a descending list, what [take] keeps counts at least as much as
    what it leaves. *)
Lemma descending_take_drop (n : nat) l x y :
  descending l -> x ∈ take n l -> y ∈ drop n l -> snd y <= snd x.
Proof.
  revert n. induction l as [|z l IH]; intros n Hl Hx Hy.
  - rewrite take_nil in Hx. by apply elem_of_nil in Hx.
  - destruct n as [|n]; [by apply elem_of_nil in Hx|].
    destruct Hl as [Hz Hl]. cbn in Hx, Hy.
    apply elem_of_cons in Hx as [->|Hx]; [|by apply (IH n)].
    apply Hz. rewrite <- (take_drop n l). apply elem_of_app. by right.
Qed.

Lemma descending_lookup l (i j : nat) x y :
  descending l -> i < j -> l !! i = Some x -> l !! j = Some y -> snd y <= snd x.
Proof.
  revert i j. induction l as [|z l IH]; intros i j Hl Hij Hi Hj; [done|].
  destruct Hl as [Hz Hl]. destruct j as [|j]; [lia|]. cbn in Hj.
  destruct i as [|i].
  - cbn in Hi. injection Hi as ->. apply Hz. by apply list_elem_of_lookup_2 with j.
  - cbn in Hi. apply (IH i j); [done|lia|done|done].
Qed.

Lemma descending_take (n : nat) l : descending l -> descending (take n l).
Proof.
  revert n. induction l as [|z l IH]; intros n Hl; [by rewrite take_nil|].
  destruct n as [|n]; [done|]. destruct Hl as [Hz Hl]. cbn. split; [|by apply IH].
  intros y Hy. apply Hz. rewrite <- (take_drop n l). apply elem_of_app. by left.
Qed.

End SortFacts.

(** X4.  The links a page hands to the crawl: at most [maxLinksPerPage]
    of them; each one a link of the page that parses as a URL of the
    page's origin, does not end in a document extension, holds no [#] and
    matches no exclude pattern; and they are the first ones of the kept
    links once these are ranked by relevance score, highest first. *)
Theorem priorityLinks_most_relevant (P : Platform) (cfg : Config)
    (currentOrigin : string) (ls : list (string * string)) :
  let out := priorityLinks P cfg currentOrigin ls in
  length out <= maxLinksPerPage cfg
  /\ (forall href, href ∈ out ->
        exists text u,
          (href, text) ∈ ls
          /\ new_URL P href None = Some u /\ origin u = currentOrigin
          /\ isDocumentLink href = false
          /\ Js.includes "#" href = false
          /\ forall pattern, pattern ∈ excludePatterns cfg -> pattern href = false)
  /\ exists ranked,
       ranked ≡ₚ map (fun l => (fst l, scoreLinkRelevance (snd l)))
                     (filter (fun l => keepLink P cfg currentOrigin l = true) ls)
       /\ descending ranked
       /\ out = map fst (take (maxLinksPerPage cfg) ranked).
Proof.
  cbv zeta. split; [|split].
  - unfold priorityLinks. rewrite length_map, length_take. lia.
  - intros href Hin. unfold priorityLinks in Hin.
    apply list_elem_of_fmap in Hin as ([h n] & -> & Hin).
    apply subseteq_take in Hin.
    rewrite sortByCountDesc_Permutation in Hin.
    apply list_elem_of_fmap in Hin as ([h' text] & [= -> ->] & Hin).
    apply list_elem_of_filter in Hin as [Hkeep Hin].
    exists text. unfold keepLink in Hkeep. cbn [fst snd] in *.
    destruct (new_URL P h' None) as [u|]; [|done].
    apply andb_prop in Hkeep as [Hkeep Hex].
    apply andb_prop in Hkeep as [Hkeep Hhash].
    apply andb_prop in Hkeep as [Horigin Hdoc].
    exists u. split; [done|]. split; [done|].
    split; [by apply String.eqb_eq|].
    split; [by apply negb_true_iff|].
    split; [by apply negb_true_iff|].
    intros pattern Hp. apply negb_true_iff in Hex.
    destruct (pattern h') eqn:E; [|done].
    assert (existsb (fun pattern => pattern h') (excludePatterns cfg) = true) as Hex'.
    { apply existsb_exists. exists pattern. split; [by apply list_elem_of_In|done]. }
    congruence.
  - eexists. split; [apply sortByCountDesc_Permutation|].
    split; [apply sortByCountDesc_descending|]. done.
Qed.
(** ** What extraction guarantees of every fragment *)

Section ExtractionFacts.
Context (P : Platform) (V : Z) (classify : Enricher).

Lemma trimEnd_idem (s : string) : Js.trimEnd (Js.trimEnd s) = Js.trimEnd s.
Proof.
  induction s as [|c r IH]; [done|]. cbn [Js.trimEnd].
  destruct (Js.isSpace c && Js.isEmpty (Js.trimEnd r)) eqn:E; [done|].
  cbn [Js.trimEnd]. rewrite IH, E. done.
Qed.

Lemma trimStart_unspaced (s : string) :
  match s with String c _ => Js.isSpace c = false | EmptyString => True end ->
  Js.trimStart (Js.trimEnd s) = Js.trimEnd s.
Proof.
  destruct s as [|c r]; [done|]. intros Hc. cbn [Js.trimEnd]. rewrite Hc. cbn.
  by rewrite Hc.
Qed.

(** [trim] leaves a trimmed string as it is. *)
Lemma trim_idem (s : string) : Js.trim (Js.trim s) = Js.trim s.
Proof.
  unfold Js.trim. rewrite trimStart_unspaced; [apply trimEnd_idem|].
  destruct (Js.trimStart s) as [|c r] eqn:E; [done|]. by apply trimStart_head in E.
Qed.

Lemma extractBreadcrumbs_clean (root : Dom.Node) (c : string) :
  c ∈ extractBreadcrumbs root -> c <> "" /\ c <> ">" /\ c <> "/" /\ Js.trim c = c.
Proof.
  unfold extractBreadcrumbs. intros [Hk Hc]%list_elem_of_filter.
  apply list_elem_of_fmap in Hc as (n & -> & _).
  unfold keepCrumb in Hk.
  apply andb_prop in Hk as [Hk H3]. apply andb_prop in Hk as [H1 H2].
  split; [|split; [|split]].
  - intros E. rewrite E in H1. done.
  - intros E. rewrite E in H2. done.
  - intros E. rewrite E in H3. done.
  - apply trim_idem.
Qed.

Lemma buildHierarchy_levels (h : Located) (headingText : string)
    (crumbs : list string) (pageTitle : string) :
  let hy := buildHierarchy h headingText crumbs pageTitle in
  (exists l0, lvl0 hy = Some l0 /\ l0 <> "")
  /\ lvl1 hy <> Some "" /\ lvl2 hy <> Some "" /\ lvl3 hy <> Some "".
Proof.
  cbv zeta. unfold buildHierarchy.
  set (levels := match headingLevelOf (node h) with Some 1 => _ | _ => _ end).
  assert (lvl1 levels <> Some "" /\ lvl2 levels <> Some "" /\ lvl3 levels <> Some "") as Hl.
  { unfold levels.
    destruct (headingLevelOf (node h)) as [[|[|[|[|n]]]]|]; cbn [lvl1 lvl2 lvl3];
      repeat split; try discriminate;
      intros [= E]; revert E; by apply orElse_nonempty. }
  destruct (Js.truthy (lvl0 levels)) eqn:E; cbn [lvl0 lvl1 lvl2 lvl3].
  - split; [|done]. destruct (lvl0 levels) as [l0|]; [|done].
    exists l0. split; [done|]. intros ->. done.
  - split; [|done]. by exists "Content".
Qed.

(** The fields of a fragment the taxonomy leaves alone. *)
Lemma enrich_fields (f e : Frag.Raw) :
  enrichWithTaxonomy classify f = Some e ->
  Frag.title e = Frag.title f
  /\ Frag.hierarchy_lvl0 e = Frag.hierarchy_lvl0 f
  /\ Frag.hierarchy_lvl1 e = Frag.hierarchy_lvl1 f
  /\ Frag.hierarchy_lvl2 e = Frag.hierarchy_lvl2 f
  /\ Frag.hierarchy_lvl3 e = Frag.hierarchy_lvl3 f
  /\ Frag.page_hierarchy e = Frag.page_hierarchy f
  /\ Frag.popularity_score e = Frag.popularity_score f.
Proof.
  unfold enrichWithTaxonomy. destruct (classify f) as [t|]; [|done].
  intros [= <-]. done.
Qed.

Implicit Types (root : Dom.Node) (url : string) (now : Z) (f : Frag.Fragment).

(** Membership in the two halves of [extractFragments]. *)
Lemma headingFragments_elem root url now f :
  f ∈ headingFragments P V classify root url now ->
  exists main hp next,
    mainOf root = Some main
    /\ hp ∈ Dom.find root main Dom.headingsSel
    /\ f ∈ headingFragment P V classify root url (extractBreadcrumbs root)
             (Dom.textOf (Dom.nodesAt root (Dom.select root (Dom.tags ["title"]))))
             now hp next.
Proof.
  unfold headingFragments. destruct (mainOf root) as [main|]; [|by intros ?%elem_of_nil].
  intros Hf%list_elem_of_In. apply in_concat_map in Hf as ([hp next] & Hhp & Hf).
  exists main, hp, next. split; [done|]. split; [|by apply list_elem_of_In].
  clear Hf. apply list_elem_of_In.
  induction (Dom.find root main Dom.headingsSel) as [|q l IH]; [done|].
  destruct Hhp as [[= <- _]|Hhp]; [by left|right; by apply IH].
Qed.

Lemma standaloneFragments_elem root url now f :
  f ∈ standaloneFragments P V classify root url now ->
  exists ep, f ∈ standaloneFragment P V classify root url (extractBreadcrumbs root) now ep.
Proof.
  unfold standaloneFragments. destruct (mainOf root) as [main|]; [|by intros ?%elem_of_nil].
  intros Hf%list_elem_of_In. apply in_concat_map in Hf as (sel & _ & Hf).
  apply in_concat_map in Hf as (ep & _ & Hf).
  exists ep. by apply list_elem_of_In.
Qed.

Lemma headingFragment_elem root url crumbs title now hp next f :
  f ∈ headingFragment P V classify root url crumbs title now hp next ->
  let fragment := extractFragment P (locate root hp)
                    (Dom.nodesAt root (contentOf root hp next)) url crumbs title now in
  exists e,
    enrichWithTaxonomy classify fragment = Some e
    /\ f = {| Frag.raw := e; Frag.crawl_version := V; Frag.last_seen_at := now;
              Frag.popularity_sort := popularitySortOf e;
              Frag.page_url := Some (baseUrl P url) |}.
Proof.
  unfold headingFragment. cbv zeta.
  destruct (negb _ || _); [|by intros ?%elem_of_nil].
  destruct (enrichWithTaxonomy classify _) as [e|]; [|by intros ?%elem_of_nil].
  intros ->%list_elem_of_singleton. by exists e.
Qed.

Lemma standaloneFragment_elem root url crumbs now ep f :
  f ∈ standaloneFragment P V classify root url crumbs now ep ->
  exists e,
    enrichWithTaxonomy classify
      (extractStandaloneFragment P (nodeOr root ep) url crumbs now) = Some e
    /\ f = {| Frag.raw := e; Frag.crawl_version := V; Frag.last_seen_at := now;
              Frag.popularity_sort := popularitySortOf e; Frag.page_url := None |}.
Proof.
  unfold standaloneFragment. cbv zeta.
  destruct (enrichWithTaxonomy classify _) as [e|]; [|by intros ?%elem_of_nil].
  intros ->%list_elem_of_singleton. by exists e.
Qed.

Lemma extractFragments_fields root url now f :
  f ∈ extractFragments P V classify root url now ->
  Frag.title (Frag.raw f) <> ""
  /\ (exists l0, Frag.hierarchy_lvl0 (Frag.raw f) = Some l0 /\ l0 <> "")
  /\ Frag.hierarchy_lvl1 (Frag.raw f) <> Some ""
  /\ Frag.hierarchy_lvl2 (Frag.raw f) <> Some ""
  /\ Frag.hierarchy_lvl3 (Frag.raw f) <> Some ""
  /\ Forall (fun c => c <> "") (Frag.page_hierarchy (Frag.raw f)).
Proof.
  unfold extractFragments. intros [Hf|Hf]%elem_of_app.
  - apply headingFragments_elem in Hf as (main & hp & next & _ & _ & Hf).
    apply headingFragment_elem in Hf as (e & He & ->). cbv zeta in He.
    apply enrich_fields in He as (Ht & H0 & H1 & H2 & H3 & Hp & _).
    cbn [Frag.raw]. rewrite Ht, H0, H1, H2, H3, Hp.
    unfold extractFragment. cbn [Frag.title Frag.hierarchy_lvl0 Frag.hierarchy_lvl1
      Frag.hierarchy_lvl2 Frag.hierarchy_lvl3 Frag.page_hierarchy].
    match goal with
    | |- context [buildHierarchy ?h ?t ?c ?p] =>
        destruct (buildHierarchy_levels h t c p) as (L0 & L1 & L2 & L3)
    end.
    split; [by apply orElse_nonempty|]. split; [done|]. split; [done|].
    split; [done|]. split; [done|].
    apply Forall_forall. intros c [Hc _]%list_elem_of_filter. intros ->. done.
  - apply standaloneFragments_elem in Hf as (ep & Hf).
    apply standaloneFragment_elem in Hf as (e & He & ->).
    apply enrich_fields in He as (Ht & H0 & H1 & H2 & H3 & Hp & _).
    cbn [Frag.raw]. rewrite Ht, H0, H1, H2, H3, Hp.
    unfold extractStandaloneFragment. cbn [Frag.title Frag.hierarchy_lvl0
      Frag.hierarchy_lvl1 Frag.hierarchy_lvl2 Frag.hierarchy_lvl3 Frag.page_hierarchy].
    split; [by apply orElse_nonempty, optOr_nonempty|].
    split; [eexists; split; [reflexivity|]; by apply optOr_nonempty, orElse_nonempty|].
    split; [done|]. split; [done|]. split; [done|].
    apply Forall_forall. intros c Hc. by apply extractBreadcrumbs_clean in Hc as [? _].
Qed.

End ExtractionFacts.

(** X5.  Every fragment extracted from a page, under a heading or
    standalone, has a title and a [hierarchy_lvl0] that are not empty; no
    hierarchy level it carries is the empty string; and no entry of its
    [page_hierarchy] is empty. *)
Theorem extracted_fragments_have_required_fields (P : Platform) (V : Z)
    (classify : Enricher) (root : Dom.Node) (url : string) (now : Z) :
  Forall (fun f =>
            Frag.title (Frag.raw f) <> ""
            /\ (exists l0, Frag.hierarchy_lvl0 (Frag.raw f) = Some l0 /\ l0 <> "")
            /\ Frag.hierarchy_lvl1 (Frag.raw f) <> Some ""
            /\ Frag.hierarchy_lvl2 (Frag.raw f) <> Some ""
            /\ Frag.hierarchy_lvl3 (Frag.raw f) <> Some ""
            /\ Forall (fun c => c <> "") (Frag.page_hierarchy (Frag.raw f)))
         (extractFragments P V classify root url now).
Proof. apply Forall_forall. intros f. apply extractFragments_fields. Qed.

(** X6.  The breadcrumbs of a page are trimmed texts, none of them
    empty, and none of them one of the separators [>] and [/]. *)
Theorem breadcrumbs_are_clean (root : Dom.Node) :
  Forall (fun c => c <> "" /\ c <> ">" /\ c <> "/" /\ Js.trim c = c)
         (extractBreadcrumbs root).
Proof. apply Forall_forall. intros c. apply extractBreadcrumbs_clean. Qed.
(** ** Popularity *)

Section PopularityFacts.
Context (P : Platform) (V : Z) (classify : Enricher).

(** What [find] returns matches its selector. *)
Lemma find_matches (root : Dom.Node) (p q : Dom.Path) (sel : Dom.Selector) :
  q ∈ Dom.find root p sel -> Dom.matchesAt root sel q = true.
Proof.
  unfold Dom.find. destruct (Dom.nodeAt root p); [|by intros ?%elem_of_nil].
  by intros [? _]%list_elem_of_filter.
Qed.

(** A node selected as a heading is an [h1], [h2], [h3] or [h4]. *)
Lemma heading_level (root : Dom.Node) (q : Dom.Path) :
  Dom.matchesAt root Dom.headingsSel q = true ->
  exists level, headingLevelOf (nodeOr root q) = Some level /\ 1 <= level <= 4.
Proof.
  unfold Dom.matchesAt, nodeOr. destruct (Dom.nodeAt root q) as [n|]; [|done].
  cbn [default from_option]. unfold id, Dom.matches, Dom.headingsSel, Dom.tags.
  cbn [map existsb Dom.matchChain Dom.matchCompound Dom.matchAncestors forallb Dom.matchSimple].
  intros H.
  assert (Dom.tagName n = "h1" \/ Dom.tagName n = "h2"
          \/ Dom.tagName n = "h3" \/ Dom.tagName n = "h4") as Htag.
  { unfold Dom.matchCompound, Dom.matchSimple in H. cbn [forallb] in H.
    destruct (Dom.isTag n); [|done]. cbn [andb orb] in H.
    destruct (String.eqb_spec "h1" (Dom.tagName n)); [by left|].
    destruct (String.eqb_spec "h2" (Dom.tagName n)); [by right; left|].
    destruct (String.eqb_spec "h3" (Dom.tagName n)); [by right; right; left|].
    destruct (String.eqb_spec "h4" (Dom.tagName n)); [by right; right; right|].
    done. }
  destruct Htag as [E|[E|[E|E]]]; rewrite (headingLevelOf_tag n _ E).
  - exists 1. split; [reflexivity|lia].
  - exists 2. split; [reflexivity|lia].
  - exists 3. split; [reflexivity|lia].
  - exists 4. split; [reflexivity|lia].
Qed.

Lemma calculatePopularityScore_range (container : Dom.Node) (level : nat) :
  exists score,
    calculatePopularityScore container (Some level) = Some score
    /\ (0 <= score <= 100)%Z
    /\ (level <= 4 -> (70 <= score)%Z).
Proof.
  unfold calculatePopularityScore. eexists. split; [reflexivity|].
  repeat match goal with |- context [if ?b then _ else _] => destruct b end;
    split; lia.
Qed.

End PopularityFacts.

(** X7.  [popularity_sort] is always between 0 and 100.  A fragment
    extracted under a heading has a [popularity_score] between 70 and
    100, so a [popularity_sort] of at most 30; a standalone fragment has
    no score and the [popularity_sort] 100: sorted on this field in
    ascending order, as the search API does by default, heading
    fragments come before standalone ones. *)
Theorem popularity_sort_range (P : Platform) (V : Z) (classify : Enricher)
    (root : Dom.Node) (url : string) (now : Z) :
  Forall (fun f => (0 <= Frag.popularity_sort f <= 100)%Z)
         (extractFragments P V classify root url now)
  /\ Forall (fun f =>
               exists score,
                 Frag.popularity_score (Frag.raw f) = Some score
                 /\ (70 <= score <= 100)%Z
                 /\ Frag.popularity_sort f = (100 - score)%Z)
            (headingFragments P V classify root url now)
  /\ Forall (fun f =>
               Frag.popularity_score (Frag.raw f) = None
               /\ Frag.popularity_sort f = 100%Z)
            (standaloneFragments P V classify root url now).
Proof.
  assert (Forall (fun f =>
               exists score,
                 Frag.popularity_score (Frag.raw f) = Some score
                 /\ (70 <= score <= 100)%Z
                 /\ Frag.popularity_sort f = (100 - score)%Z)
            (headingFragments P V classify root url now)) as Hh.
  { apply Forall_forall. intros f Hf.
    apply headingFragments_elem in Hf as (main & hp & next & _ & Hhp & Hf).
    apply headingFragment_elem in Hf as (e & He & ->). cbv zeta in He.
    apply enrich_fields in He as (_ & _ & _ & _ & _ & _ & Hs).
    cbn [Frag.raw Frag.popularity_sort]. unfold popularitySortOf. rewrite Hs.
    unfold extractFragment. cbn [Frag.popularity_score node locate].
    apply find_matches, heading_level in Hhp as (level & -> & Hlevel).
    match goal with
    | |- context [calculatePopularityScore ?c (Some level)] =>
        destruct (calculatePopularityScore_range c level) as (score & -> & Hr & Hlow)
    end.
    exists score. split; [done|]. cbn [default]. split; [|done]. lia. }
  assert (Forall (fun f =>
               Frag.popularity_score (Frag.raw f) = None
               /\ Frag.popularity_sort f = 100%Z)
            (standaloneFragments P V classify root url now)) as Hs.
  { apply Forall_forall. intros f Hf.
    apply standaloneFragments_elem in Hf as (ep & Hf).
    apply standaloneFragment_elem in Hf as (e & He & ->).
    apply enrich_fields in He as (_ & _ & _ & _ & _ & _ & Hs).
    cbn [Frag.raw Frag.popularity_sort]. unfold popularitySortOf. rewrite Hs. done. }
  split; [|by split].
  unfold extractFragments. apply Forall_app. split.
  - eapply Forall_impl; [exact Hh|]. intros f (score & _ & Hr & ->). lia.
  - eapply Forall_impl; [exact Hs|]. intros f (_ & ->). lia.
Qed.
(** ** Normalized texts *)

Section NormalFacts.

Import Normal.

Implicit Types (s : string) (c : ascii) (b : bool).

Lemma smap_smap (f g : ascii -> ascii) s : Js.smap f (Js.smap g s) = Js.smap (fun c => f (g c)) s.
Proof. induction s as [|c r IH]; [done|]. cbn. by rewrite IH. Qed.

Lemma smap_fixed (g : ascii -> ascii) s :
  allChars (fun c => Ascii.eqb (g c) c) s = true -> Js.smap g s = s.
Proof.
  induction s as [|c r IH]; [done|]. cbn.
  intros [Hc Hr]%andb_prop. apply Ascii.eqb_eq in Hc. by rewrite Hc, IH.
Qed.

Lemma allChars_smap (p : ascii -> bool) (g : ascii -> ascii) s :
  (forall c, p (g c) = true) -> allChars p (Js.smap g s) = true.
Proof. intros Hg. induction s as [|c r IH]; [done|]. cbn. by rewrite Hg, IH. Qed.

Lemma allChars_collapse (p : ascii -> bool) b s :
  p " "%char = true -> allChars p s = true -> allChars p (Js.collapseFrom b s) = true.
Proof.
  intros Hsp. revert b. induction s as [|c r IH]; intros b; [done|]. cbn.
  intros [Hc Hr]%andb_prop.
  destruct (Js.isSpace c); [destruct b|]; cbn; rewrite ?Hsp, ?Hc; cbn; by apply IH.
Qed.

Lemma allChars_collapse_spaces (p : ascii -> bool) b s :
  allChars (fun c => p c || Js.isSpace c) s = true ->
  allChars (orSpace p) (Js.collapseFrom b s) = true.
Proof.
  revert b. induction s as [|c r IH]; intros b; [done|]. cbn [allChars Js.collapseFrom].
  intros [Hc Hr]%andb_prop.
  destruct (Js.isSpace c) eqn:E; [destruct b|].
  - by apply IH.
  - cbn [allChars]. rewrite IH by done. unfold orSpace. cbn. by rewrite orb_true_r.
  - cbn [allChars]. rewrite IH by done. unfold orSpace.
    rewrite orb_false_r in Hc. by rewrite Hc.
Qed.

Lemma allChars_trimStart (p : ascii -> bool) s :
  allChars p s = true -> allChars p (Js.trimStart s) = true.
Proof.
  induction s as [|c r IH]; [done|]. cbn. intros [Hc Hr]%andb_prop.
  destruct (Js.isSpace c); [by apply IH|]. cbn. by rewrite Hc, Hr.
Qed.

Lemma allChars_trimEnd (p : ascii -> bool) s :
  allChars p s = true -> allChars p (Js.trimEnd s) = true.
Proof.
  induction s as [|c r IH]; [done|]. cbn. intros [Hc Hr]%andb_prop.
  destruct (Js.isSpace c && Js.isEmpty (Js.trimEnd r)); [done|]. cbn.
  by rewrite Hc, IH.
Qed.

Lemma allChars_trim (p : ascii -> bool) s :
  allChars p s = true -> allChars p (Js.trim s) = true.
Proof. intros H. by apply allChars_trimEnd, allChars_trimStart. Qed.

Lemma singleSpaced_collapse b s : singleSpaced b (Js.collapseFrom b s) = true.
Proof.
  revert b. induction s as [|c r IH]; intros b; [done|]. cbn [Js.collapseFrom].
  destruct (Js.isSpace c) eqn:E; [destruct b|].
  - apply IH.
  - change (singleSpaced false (String " " (Js.collapseFrom true r)))
      with (singleSpaced true (Js.collapseFrom true r)). apply IH.
  - cbn [singleSpaced]. rewrite E. apply IH.
Qed.

Lemma singleSpaced_trimStart b b' s :
  singleSpaced b s = true -> singleSpaced b' (Js.trimStart s) = true.
Proof.
  revert b. induction s as [|c r IH]; intros b; [done|]. cbn.
  destruct (Js.isSpace c) eqn:E.
  - intros [_ Hr]%andb_prop. by apply (IH true).
  - intros Hr. cbn. by rewrite E.
Qed.

Lemma singleSpaced_trimEnd b s :
  singleSpaced b s = true -> singleSpaced b (Js.trimEnd s) = true.
Proof.
  revert b. induction s as [|c r IH]; intros b; [done|]. cbn.
  destruct (Js.isSpace c) eqn:E; cbn.
  - intros [Hc Hr]%andb_prop.
    destruct (Js.isEmpty (Js.trimEnd r)); [done|]. cbn. rewrite E, Hc. cbn.
    by apply IH.
  - intros Hr. rewrite E. by apply IH.
Qed.

Lemma collapse_fixed b s : singleSpaced b s = true -> Js.collapseFrom b s = s.
Proof.
  revert b. induction s as [|c r IH]; intros b; [done|]. cbn.
  destruct (Js.isSpace c) eqn:E.
  - intros [[Hc Hb]%andb_prop Hr]%andb_prop.
    apply Ascii.eqb_eq in Hc as ->. apply negb_true_iff in Hb as ->.
    by rewrite (IH true).
  - intros Hr. by rewrite (IH false).
Qed.

(** Lower-casing, replacing by [g], collapsing and trimming, done
    twice, is the same as done once. *)
Lemma normalize_idem (g : ascii -> ascii) s :
  (forall c, g (g c) = g c) -> g " "%char = " "%char ->
  let n := fun s => Js.trim (Js.collapseSpaces (Js.smap g s)) in
  n (n s) = n s.
Proof.
  intros Hg Hsp. cbv beta zeta.
  set (N := Js.trim (Js.collapseSpaces (Js.smap g s))).
  assert (Js.smap g N = N) as ->.
  { apply smap_fixed. apply allChars_trim, allChars_collapse; [by rewrite Hsp|].
    apply allChars_smap. intros c. apply Ascii.eqb_eq, Hg. }
  assert (Js.collapseSpaces N = N) as ->.
  { apply collapse_fixed. unfold N, Js.trim.
    apply singleSpaced_trimEnd, (singleSpaced_trimStart false), singleSpaced_collapse. }
  apply trim_idem.
Qed.

Lemma contentChar_idem c :
  punctToSpace (Js.lowerChar (punctToSpace (Js.lowerChar c))) = punctToSpace (Js.lowerChar c).
Proof. destruct c as [[] [] [] [] [] [] [] []]; reflexivity. Qed.

Lemma contentChar_range c :
  isKeyChar (punctToSpace (Js.lowerChar c)) || Js.isSpace (punctToSpace (Js.lowerChar c))
  = true.
Proof. destruct c as [[] [] [] [] [] [] [] []]; reflexivity. Qed.

Lemma embeddingChar_idem c :
  Embedding.alnumOrSpace (Js.lowerChar (Embedding.alnumOrSpace (Js.lowerChar c)))
  = Embedding.alnumOrSpace (Js.lowerChar c).
Proof. destruct c as [[] [] [] [] [] [] [] []]; reflexivity. Qed.

Lemma embeddingChar_range c :
  isLowerAlnum (Embedding.alnumOrSpace (Js.lowerChar c))
  || Js.isSpace (Embedding.alnumOrSpace (Js.lowerChar c)) = true.
Proof. destruct c as [[] [] [] [] [] [] [] []]; reflexivity. Qed.

Lemma normalizeContent_idem s : normalizeContent (normalizeContent s) = normalizeContent s.
Proof.
  unfold normalizeContent, Js.toLowerCase. rewrite !smap_smap.
  apply (normalize_idem (fun c => punctToSpace (Js.lowerChar c))); [apply contentChar_idem|done].
Qed.

Lemma normalizeText_idem s :
  Embedding.normalizeText (Embedding.normalizeText s) = Embedding.normalizeText s.
Proof.
  unfold Embedding.normalizeText, Js.toLowerCase. rewrite !smap_smap.
  apply (normalize_idem (fun c => Embedding.alnumOrSpace (Js.lowerChar c)));
    [apply embeddingChar_idem|done].
Qed.

End NormalFacts.

(** X8.  The text [calculateContentHash] digests is in normal form: code
    units among [a-z], [0-9], the underscore and the space, no two spaces
    in a row, none at either end.  Normalizing it again changes nothing,
    and the hash of a text is the hash of its normal form. *)
Theorem content_hash_of_normal_form (P : Platform) (text : string) :
  let normalized := normalizeContent text in
  Normal.allChars (Normal.orSpace Normal.isKeyChar) normalized = true
  /\ Normal.singleSpaced true normalized = true
  /\ Js.trim normalized = normalized
  /\ normalizeContent normalized = normalized
  /\ calculateContentHash P normalized = calculateContentHash P text.
Proof.
  cbv zeta. split; [|split; [|split; [|split]]].
  - unfold normalizeContent, Js.toLowerCase. rewrite smap_smap.
    apply allChars_trim, allChars_collapse_spaces.
    apply (allChars_smap (fun c => Normal.isKeyChar c || Js.isSpace c)), contentChar_range.
  - unfold normalizeContent, Js.trim.
    apply singleSpaced_trimEnd, (singleSpaced_trimStart false), singleSpaced_collapse.
  - apply trim_idem.
  - apply normalizeContent_idem.
  - by rewrite !calculateContentHash_normalized, normalizeContent_idem.
Qed.
(** ** The hashed embedding *)

Section BucketFacts.

Import Normal.

Lemma bump_length (vec : list nat) (i : nat) : length (Embedding.bump vec i) = length vec.
Proof. unfold Embedding.bump. apply length_alter. Qed.

Lemma bump_sum (vec : list nat) (i : nat) :
  i < length vec -> sum_list (Embedding.bump vec i) = S (sum_list vec).
Proof.
  unfold Embedding.bump. revert i. induction vec as [|x vec IH]; intros i Hi; [cbn in Hi; lia|].
  destruct i as [|i]; cbn; [done|]. cbn in Hi. rewrite IH by lia. lia.
Qed.

Lemma fold_bump_totals (f : string -> nat) (ts : list string) (vec : list nat) :
  let out := fold_left (fun v t => Embedding.bump v (f t)) ts vec in
  length out = length vec
  /\ ((forall t, f t < length vec) -> sum_list out = sum_list vec + length ts).
Proof.
  revert vec. induction ts as [|t ts IH]; intros vec; cbn [fold_left].
  - split; [done|]. intros _. cbn. lia.
  - destruct (IH (Embedding.bump vec (f t))) as [Hl Hs]. cbv zeta in *.
    rewrite Hl, bump_length. split; [done|]. intros Hf.
    rewrite Hs by (intros t'; rewrite bump_length; apply Hf).
    rewrite bump_sum by apply Hf. cbn. lia.
Qed.

Lemma sum_replicate_zero (n : nat) : sum_list (replicate n 0) = 0.
Proof. induction n as [|n IH]; [done|]. cbn. exact IH. Qed.

Lemma words_allChars (p : ascii -> bool) (s : string) :
  allChars (fun c => p c || Js.isSpace c) s = true ->
  Forall (fun w => w <> "" /\ allChars p w = true) (Embedding.words s).
Proof.
  induction s as [|c r IH]; [constructor|]. cbn [allChars].
  intros [Hc Hr]%andb_prop. specialize (IH Hr). rewrite words_cons.
  destruct (Js.isSpace c) eqn:E; [done|]. rewrite orb_false_r in Hc.
  destruct (Embedding.startsWord r).
  - destruct (Embedding.words r) as [|w ws].
    + constructor; [|done]. split; [done|]. cbn. by rewrite Hc.
    + apply Forall_cons in IH as [[_ Hw] Hws].
      constructor; [|done]. split; [done|]. cbn. by rewrite Hc, Hw.
  - constructor; [|done]. split; [done|]. cbn. by rewrite Hc.
Qed.

End BucketFacts.

(** X9.  The bucket counts of the hashed embedding: a vector of [dim]
    entries, whose entries add up to the number of tokens of the text
    (each token falls in exactly one bucket). *)
Theorem bucketCounts_totals (text : string) (dim : nat) :
  length (Embedding.bucketCounts text dim) = dim
  /\ sum_list (Embedding.bucketCounts text (S dim)) = length (Embedding.tokens text).
Proof.
  unfold Embedding.bucketCounts. split.
  - destruct (fold_bump_totals
                (fun t => Z.to_nat (Embedding.tokenHash t mod Z.of_nat dim))
                (Embedding.tokens text) (replicate dim 0)) as [-> _].
    apply length_replicate.
  - destruct (fold_bump_totals
                (fun t => Z.to_nat (Embedding.tokenHash t mod Z.of_nat (S dim)))
                (Embedding.tokens text) (replicate (S dim) 0)) as [_ ->].
    + by rewrite sum_replicate_zero.
    + intros t. rewrite length_replicate.
      pose proof (Z.mod_pos_bound (Embedding.tokenHash t) (Z.of_nat (S dim))). lia.
Qed.

(** X10.  The embedding reads a text through its tokens only, and these
    are the words of the normalized text: non-empty runs of [a-z] and
    [0-9].  Normalizing an already normalized text changes nothing, so a
    text and its normalized form have the same tokens and the same bucket
    counts. *)
Theorem embedding_of_normalized_text (text : string) (dim : nat) :
  Embedding.normalizeText (Embedding.normalizeText text) = Embedding.normalizeText text
  /\ Forall (fun t => t <> "" /\ Normal.allChars Normal.isLowerAlnum t = true)
            (Embedding.tokens text)
  /\ Embedding.tokens (Embedding.normalizeText text) = Embedding.tokens text
  /\ Embedding.bucketCounts (Embedding.normalizeText text) dim
     = Embedding.bucketCounts text dim.
Proof.
  split; [apply normalizeText_idem|]. split; [|split].
  - rewrite tokens_words. apply words_allChars.
    unfold Js.toLowerCase. rewrite smap_smap.
    apply (allChars_smap (fun c => Normal.isLowerAlnum c || Js.isSpace c)), embeddingChar_range.
  - unfold Embedding.tokens. by rewrite normalizeText_idem.
  - unfold Embedding.bucketCounts, Embedding.tokens. by rewrite normalizeText_idem.
Qed.
(** ** What page aggregation guarantees of every page *)

Section PageFacts.
Context (P : Platform) (V : Z).

Implicit Types (fs : list Frag.Fragment) (f : Frag.Fragment) (acc : Page.Acc)
  (page : string).

Lemma fold_content_length fs acc :
  String.length (Page.a_content_text acc) <= 40000 + 4000 ->
  String.length (Page.a_content_text (fold_left (accumulate P) fs acc)) <= 40000 + 4000.
Proof.
  revert acc. induction fs as [|f fs IH]; intros acc Hacc; cbn [fold_left]; [done|].
  apply IH. rewrite accumulate_content.
  destruct (String.length (Page.a_content_text acc) <? 40000) eqn:E; [|done].
  apply Nat.ltb_lt in E. rewrite !length_append.
  pose proof (length_sliceTo 4000 (Frag.content_text (Frag.raw f))) as Hs.
  assert (String.length (if Js.isEmpty (Page.a_content_text acc) then "" else newline) <= 1)
    by (destruct (Js.isEmpty _); simpl; lia).
  lia.
Qed.

(** Grouping the fragments by page loses none and repeats none. *)
Lemma concat_groups_absent (g : string -> list Frag.Fragment) (ks : list string) page f :
  page ∉ ks ->
  concat (map (fun k => g k ++ (if decide (page = k) then [f] else [])) ks)
  = concat (map g ks).
Proof.
  induction ks as [|k ks IH]; [done|].
  intros [Hk Hks]%not_elem_of_cons. cbn [map concat].
  rewrite decide_False by done. by rewrite app_nil_r, IH.
Qed.

Lemma concat_groups_present (g : string -> list Frag.Fragment) (ks : list string) page f :
  NoDup ks -> page ∈ ks ->
  concat (map (fun k => g k ++ (if decide (page = k) then [f] else [])) ks)
  ≡ₚ concat (map g ks) ++ [f].
Proof.
  induction ks as [|k ks IH]; [by intros _ ?%elem_of_nil|].
  intros [Hk Hks]%NoDup_cons Hin. cbn [map concat].
  destruct (decide (page = k)) as [->|Hne].
  - rewrite concat_groups_absent by done.
    rewrite <- !app_assoc. apply Permutation_app_head, Permutation_app_comm.
  - apply elem_of_cons in Hin as [?|Hin]; [done|].
    rewrite app_nil_r, IH by done. by rewrite app_assoc.
Qed.

Lemma grouped_Permutation fs :
  concat (map (fun k => fragmentsOfPage P k fs) (pageKeys P fs))
  ≡ₚ filter (fun f => pageOf P f <> "") fs.
Proof.
  induction fs as [|f fs IH] using rev_ind; [done|].
  rewrite filter_app, pageKeys_snoc.
  rewrite (List.map_ext _ _ (fun k => fragmentsOfPage_snoc P k fs f)).
  rewrite filter_cons, filter_nil.
  destruct (Js.isEmpty (pageOf P f)) eqn:E.
  - apply isEmpty_true in E. rewrite decide_False by (intros H; by apply H).
    rewrite app_nil_r, concat_groups_absent; [done|].
    rewrite E. intros [H _]%pageKeys_elem. done.
  - assert (pageOf P f <> "") as Hne by (intros H; by rewrite H in E).
    rewrite decide_True by done. unfold setAdd.
    destruct (decide (pageOf P f ∈ pageKeys P fs)) as [Hin|Hout].
    + rewrite concat_groups_present; [|apply pageKeys_NoDup|done]. by rewrite IH.
    + rewrite map_app, concat_app. cbn [map concat].
      rewrite concat_groups_absent by done.
      rewrite decide_True by done.
      rewrite (fragmentsOfPage_not_key P _ fs Hne Hout), app_nil_r. cbn [app].
      by rewrite IH.
Qed.

Lemma firstMax_max (m : list (string * nat)) (w y : string * nat) :
  firstMax m = Some w -> y ∈ m -> snd y <= snd w.
Proof.
  revert w. induction m as [|x m IH]; intros w; [done|]. cbn [firstMax].
  destruct (firstMax m) as [z|] eqn:E.
  - destruct (snd z <=? snd x) eqn:Hle; intros [= <-] [->|Hy]%elem_of_cons; try lia.
    + apply Nat.leb_le in Hle. specialize (IH z eq_refl Hy). lia.
    + apply Nat.leb_gt in Hle. lia.
    + by apply IH.
  - intros [= <-] [->|Hy]%elem_of_cons; [lia|].
    destruct m as [|x' m]; [by apply elem_of_nil in Hy|].
    cbn in E. destruct (firstMax m) as [z|]; [destruct (_ <=? _)|]; done.
Qed.

Lemma firstMax_None (m : list (string * nat)) : firstMax m = None -> m = [].
Proof.
  destruct m as [|x m]; [done|]. cbn.
  destruct (firstMax m) as [z|]; [destruct (_ <=? _)|]; done.
Qed.

(** The title of a page is one of the most frequent top-level headings
    of its fragments. *)
Lemma title_most_frequent page fs :
  match pickTitle (Page.a_lvl0Counts (accOf P page fs)) with
  | Some t =>
      t <> "" /\ 0 < votes P page t fs
      /\ forall t', t' <> "" -> votes P page t' fs <= votes P page t fs
  | None => forall t', t' <> "" -> votes P page t' fs = 0
  end.
Proof.
  rewrite pickTitle_firstMax.
  pose proof (accOf_counts_wellCounted P page fs) as [Hnd Hwc].
  destruct (firstMax (Page.a_lvl0Counts (accOf P page fs))) as [[t n]|] eqn:E; cbn.
  - pose proof (firstMax_elem _ _ E) as Hin.
    destruct (Hwc t n Hin) as (Ht & Hn & Hc).
    rewrite accOf_countOf in Hc by done.
    split; [done|]. split; [lia|]. intros t' Ht'.
    rewrite <- (accOf_countOf P page fs t') by done. rewrite Hc.
    destruct (countOf t' (Page.a_lvl0Counts (accOf P page fs))) as [|k] eqn:Hk; [lia|].
    rewrite <- Hk.
    apply (firstMax_max _ _ (t', countOf t' (Page.a_lvl0Counts (accOf P page fs))) E).
    apply countOf_pos_entry. lia.
  - intros t' Ht'. rewrite <- (accOf_countOf P page fs t') by done.
    by rewrite (firstMax_None _ E).
Qed.

Lemma sum_lengths {A : Type} (g : string -> list A) (ks : list string) :
  sum_list (map (fun k => length (g k)) ks) = length (concat (map g ks)).
Proof.
  induction ks as [|k ks IH]; [done|]. cbn [map concat]. rewrite length_app, <- IH. done.
Qed.

Lemma accOf_set_NoDup (proj : Page.Acc -> list string) page fs :
  (forall p, proj (emptyAcc P p) = []) ->
  (forall acc f, NoDup (proj acc) -> NoDup (proj (accumulate P acc f))) ->
  NoDup (proj (accOf P page fs)).
Proof.
  intros Hempty Hstep. unfold accOf. apply fold_field_NoDup; [done|].
  rewrite Hempty. apply NoDup_nil_2.
Qed.

End PageFacts.

(** X11.  [content_text] of a page document is capped: it never holds
    more than 40000 + 4000 code units, however many fragments the page
    has and however long they are. *)
Theorem content_text_is_capped (P : Platform) (V : Z) (fs : list Frag.Fragment) (now : Z) :
  Forall (fun d => String.length (Page.content_text d) <= 40000 + 4000)
         (buildPageDocs P V fs now).
Proof.
  apply Forall_forall. intros d Hd%list_elem_of_In.
  apply buildPageDocs_doc in Hd as (page & _ & -> & _).
  cbn [finalize Page.content_text]. apply fold_content_length.
  change (String.length (Page.a_content_text (emptyAcc P page))) with 0. lia.
Qed.

(** X12.  Page aggregation loses no fragment and counts none twice:
    the [fragment_ids] of all page documents together are the
    identifiers of the fragments that have a page (a [page_url], or a
    [url] with a base), each as often as it is in the input, and the
    [fragment_count]s add up to the number of these fragments. *)
Theorem every_fragment_in_one_page (P : Platform) (V : Z) (fs : list Frag.Fragment)
    (now : Z) :
  let docs := buildPageDocs P V fs now in
  let paged := filter (fun f => pageOf P f <> "") fs in
  concat (map Page.fragment_ids docs) ≡ₚ map Frag.idOf paged
  /\ sum_list (map Page.fragment_count docs) = length paged.
Proof.
  cbv zeta. rewrite buildPageDocs_grouped, !map_map. cbn [finalize Page.fragment_ids
    Page.fragment_count].
  rewrite (List.map_ext _ _ (fun k => accOf_ids P k fs)).
  rewrite (List.map_ext _ _ (fun k => accOf_count P k fs)).
  split.
  - rewrite <- (grouped_Permutation P fs).
    rewrite <- map_map, <- concat_map. done.
  - rewrite sum_lengths. apply Permutation_length, grouped_Permutation.
Qed.

(** X13.  The title of a page document is a most frequent one among
    the non-empty top-level headings ([hierarchy_lvl0], or else [title])
    of the page's fragments; a page document has no title only when
    every fragment of the page has neither. *)
Theorem page_title_is_most_frequent (P : Platform) (V : Z) (fs : list Frag.Fragment)
    (now : Z) :
  Forall (fun d =>
            match Page.title d with
            | Some t =>
                t <> "" /\ 0 < votes P (Page.url d) t fs
                /\ forall t', t' <> "" ->
                     votes P (Page.url d) t' fs <= votes P (Page.url d) t fs
            | None => forall t', t' <> "" -> votes P (Page.url d) t' fs = 0
            end)
         (buildPageDocs P V fs now).
Proof.
  apply Forall_forall. intros d Hd%list_elem_of_In.
  apply buildPageDocs_doc in Hd as (page & _ & -> & Hurl).
  cbn [finalize Page.url Page.title] in *. rewrite Hurl.
  apply title_most_frequent.
Qed.

(** X14.  The set-valued fields of a page document hold no value
    twice, and the two link fields respect their caps: at most 500
    [out_links] and 1000 [out_link_tokens]. *)
Theorem page_sets_are_duplicate_free (P : Platform) (V : Z) (fs : list Frag.Fragment)
    (now : Z) :
  Forall (fun d =>
            NoDup (Page.life_events d) /\ NoDup (Page.categories d)
            /\ NoDup (Page.states d) /\ NoDup (Page.provider d)
            /\ NoDup (Page.governance d) /\ NoDup (Page.keywords d)
            /\ NoDup (Page.out_links d) /\ NoDup (Page.out_link_tokens d)
            /\ length (Page.out_links d) <= 500
            /\ length (Page.out_link_tokens d) <= 1000)
         (buildPageDocs P V fs now).
Proof.
  apply Forall_forall. intros d Hd%list_elem_of_In.
  apply buildPageDocs_doc in Hd as (page & _ & -> & _).
  cbn [finalize Page.life_events Page.categories Page.states Page.provider
         Page.governance Page.keywords Page.out_links Page.out_link_tokens].
  repeat split;
    try (rewrite length_take; lia);
    try (eapply sublist_NoDup; [|apply sublist_take]);
    apply (accOf_set_NoDup P); try done;
    intros acc f Hacc; cbn [accumulate Page.a_life_events Page.a_categories
      Page.a_states Page.a_provider Page.a_governance Page.a_keywords
      Page.a_out_links Page.a_out_link_tokens];
    rewrite ?setAddTruthy_all;
    try (by apply setAddAll_NoDup);
    by apply fold_addLink.
Qed.
(** ** Links and titles *)

Section LinkFacts.

Import Normal.

Lemma spanNotQuote_fst (s : string) :
  allChars (fun c => negb (Ascii.eqb c Href.dquote)) (fst (Href.spanNotQuote s)) = true.
Proof.
  induction s as [|c r IH]; [done|]. cbn [Href.spanNotQuote].
  destruct (Ascii.eqb c Href.dquote) eqn:E; [done|].
  destruct (Href.spanNotQuote r) as [a b]. cbn in *. by rewrite E, IH.
Qed.

Lemma matchAt_capture (s cap : string) (n : nat) :
  Href.matchAt s = Some (cap, n) ->
  cap <> "" /\ allChars (fun c => negb (Ascii.eqb c Href.dquote)) cap = true.
Proof.
  unfold Href.matchAt.
  destruct s as [|c1 [|c2 [|c3 [|c4 r]]]]; try done.
  destruct (_ && _); [|done].
  destruct (Js.trimStart r) as [|eq r2]; [done|].
  destruct (Ascii.eqb eq "="); [|done].
  destruct (Js.trimStart r2) as [|q r3]; [done|].
  destruct (Ascii.eqb q Href.dquote); [|done].
  pose proof (spanNotQuote_fst r3) as Hq.
  destruct (Href.spanNotQuote r3) as [cap' rest]. cbn [fst] in Hq.
  destruct rest; [done|].
  destruct (Js.isEmpty cap') eqn:E; [done|].
  intros [= <- _]. split; [|done]. intros ->. done.
Qed.

Lemma scan_captures (skip : nat) (s : string) :
  Forall (fun h => h <> "" /\ allChars (fun c => negb (Ascii.eqb c Href.dquote)) h = true)
         (Href.scan skip s).
Proof.
  revert skip. induction s as [|c r IH]; intros skip; [constructor|].
  cbn [Href.scan]. destruct skip as [|k]; [|apply IH].
  destruct (Href.matchAt (String c r)) as [[cap n]|] eqn:E; [|apply IH].
  constructor; [by apply matchAt_capture in E|apply IH].
Qed.

End LinkFacts.

(** X15.  The [href] values [buildPageDocs] reads off the HTML of a
    fragment are never empty and never hold a double quote. *)
Theorem hrefs_are_quoted_values (html : string) :
  Forall (fun h =>
            h <> ""
            /\ Normal.allChars (fun c => negb (Ascii.eqb c Href.dquote)) h = true)
         (Href.hrefs html).
Proof. apply scan_captures. Qed.

(** X16.  Extraction and aggregation together: every page document
    built from the fragments extracted from any pages has a title, and
    the title is not empty. *)
Theorem pages_of_extracted_fragments_have_titles (P : Platform) (V V' : Z)
    (classify : Enricher) (pages : list (Dom.Node * string * Z)) (now : Z) :
  Forall (fun d => exists t, Page.title d = Some t /\ t <> "")
         (buildPageDocs P V' (extractAll P V classify pages) now).
Proof.
  apply Forall_forall. intros d Hd%list_elem_of_In.
  apply buildPageDocs_doc in Hd as (page & Hpage & -> & _).
  cbn [finalize Page.title].
  pose proof (title_most_frequent P page (extractAll P V classify pages)) as Ht.
  destruct (pickTitle _) as [t|]; [exists t; split; [done|apply Ht]|].
  exfalso. apply pageKeys_elem in Hpage as (_ & f & Hf & Hpf).
  assert (lvl0Of f <> "") as Hl.
  { unfold extractAll in Hf. apply list_elem_of_In, in_concat_map in Hf as (pg & _ & Hf).
    apply list_elem_of_In, extractFragments_fields in Hf as (_ & (l0 & H0 & Hne) & _).
    unfold lvl0Of. rewrite H0. cbn. by rewrite orElse_of_nonempty. }
  specialize (Ht (lvl0Of f) Hl). unfold votes, fragmentsOfPage in Ht.
  assert (f ∈ filter (fun g => lvl0Of g = lvl0Of f)
                (filter (fun g => pageOf P g = page) (extractAll P V classify pages))) as Hin.
  { apply list_elem_of_filter. split; [done|]. by apply list_elem_of_filter. }
  destruct (filter _ (filter _ _)); [by apply elem_of_nil in Hin|done].
Qed.
(** ** What indexing counts and what pruning keeps *)

Section CountFacts.
Context {St D : Type}.
Context (api : StoreApi St D).

Implicit Types (p : Progress (St := St) (D := D)) (batch docs : list D).

Lemma fallback_counts p batch :
  exists evs,
    events (fallback api p batch) = events p ++ evs
    /\ writtenBatches evs = []
    /\ length (writtenUpserts evs) <= length batch
    /\ indexed (fallback api p batch)
       = (indexed p + Z.of_nat (length (writtenUpserts evs)))%Z.
Proof.
  unfold fallback, writtenBatches, writtenUpserts.
  revert p. induction batch as [|d batch IH]; intros p.
  - exists []. rewrite app_nil_r. cbn. split; [done|]. split; [done|]. split; lia.
  - cbn [fold_left]. destruct (IH (upsertOne api p d)) as (evs & -> & H1 & H2 & ->).
    unfold upsertOne. destruct (upsert api (store p) d) as [s' [|]]; cbn [events indexed].
    + exists (Upserted d true :: evs). rewrite <- app_assoc.
      split; [done|]. cbn. split; [done|]. split; lia.
    + exists (Upserted d false :: LoggedFailure d :: evs). rewrite <- app_assoc.
      split; [done|]. cbn. split; [done|]. split; lia.
Qed.

(** One turn of the page loop counts what it wrote; one turn of the
    fragment loop counts no more than its batch. *)
Lemma indexPageBatch_counts p batch :
  exists evs,
    events (indexPageBatch api p batch) = events p ++ evs
    /\ length (concat (writtenBatches evs)) + length (writtenUpserts evs) <= length batch
    /\ indexed (indexPageBatch api p batch)
       = (indexed p + Z.of_nat (length (concat (writtenBatches evs))
                                + length (writtenUpserts evs)))%Z.
Proof.
  unfold indexPageBatch. destruct (client_import api (store p) batch) as [s' [|]].
  - exists [Imported batch false]. cbn [events indexed].
    change (writtenBatches [Imported batch false]) with [batch].
    change (writtenUpserts [Imported batch false]) with (@nil D).
    cbn [concat length]. rewrite app_nil_r, Nat.add_0_r. done.
  - match goal with
    | |- context [fallback api ?q batch] =>
        destruct (fallback_counts q batch) as (evs & -> & H1 & H2 & ->)
    end.
    cbn [events indexed]. exists (Imported batch true :: evs). rewrite <- app_assoc.
    split; [done|].
    change (writtenBatches (Imported batch true :: evs)) with (writtenBatches evs).
    change (writtenUpserts (Imported batch true :: evs)) with (writtenUpserts evs).
    rewrite H1. cbn [concat length]. split; lia.
Qed.

Lemma indexFragmentBatch_counts p batch :
  (indexed (indexFragmentBatch api p batch) <= indexed p + Z.of_nat (length batch))%Z.
Proof.
  unfold indexFragmentBatch.
  destruct (post_import api (store p) batch) as [s' [a|]];
    [destruct (parsedResults a) as [results|]|].
  - cbn. lia.
  - match goal with
    | |- context [fallback api ?q batch] =>
        destruct (fallback_counts q batch) as (evs & _ & _ & H2 & ->)
    end. cbn. lia.
  - match goal with
    | |- context [fallback api ?q batch] =>
        destruct (fallback_counts q batch) as (evs & _ & _ & H2 & ->)
    end. cbn. lia.
Qed.

Lemma indexPages_loop (bs : list (list D)) p :
  let q := fold_left (indexPageBatch api) bs p in
  exists evs,
    events q = events p ++ evs
    /\ length (concat (writtenBatches evs)) + length (writtenUpserts evs)
       <= length (concat bs)
    /\ indexed q = (indexed p + Z.of_nat (length (concat (writtenBatches evs))
                                          + length (writtenUpserts evs)))%Z.
Proof.
  revert p. induction bs as [|b bs IH]; intros p; cbn [fold_left].
  - exists []. rewrite app_nil_r. cbn. split; [done|]. split; lia.
  - destruct (indexPageBatch_counts p b) as (ev1 & E1 & L1 & I1).
    destruct (IH (indexPageBatch api p b)) as (ev2 & E2 & L2 & I2).
    cbv zeta in *. exists (ev1 ++ ev2).
    rewrite E2, E1, I2, I1, <- app_assoc. split; [done|].
    unfold writtenBatches, writtenUpserts in *.
    rewrite !omap_app, concat_app, !length_app. cbn [concat]. rewrite length_app.
    split; lia.
Qed.

Lemma indexFragments_loop (bs : list (list D)) p :
  (indexed (fold_left (indexFragmentBatch api) bs p)
   <= indexed p + Z.of_nat (length (concat bs)))%Z.
Proof.
  revert p. induction bs as [|b bs IH]; intros p; cbn [fold_left concat]; [lia|].
  specialize (IH (indexFragmentBatch api p b)).
  pose proof (indexFragmentBatch_counts p b). rewrite length_app. lia.
Qed.

End CountFacts.

(** X17.  The number [indexPages] reports is the number of documents it
    wrote: those of the batches whose bulk import went through, plus
    those whose single upsert went through.  Neither indexing loop ever
    reports more than the number of documents it was given. *)
Theorem indexed_counts_the_documents_written {St D : Type} (api : StoreApi St D)
    (s : St) (docs : list D) :
  let p := indexPages api s docs in
  indexed p = Z.of_nat (length (concat (writtenBatches (events p)))
                        + length (writtenUpserts (events p)))
  /\ (0 <= indexed p <= Z.of_nat (length docs))%Z
  /\ (indexed (indexFragments api s docs) <= Z.of_nat (length docs))%Z.
Proof.
  cbv zeta. unfold indexPages, indexFragments.
  assert (concat (batches docs) = docs) as Hb by (apply slices_concat; lia).
  destruct (indexPages_loop api (batches docs) {| store := s; events := []; indexed := 0 |})
    as (evs & E & L & I).
  cbv zeta in *. cbn [events indexed] in E, I. rewrite Hb in L.
  rewrite E, I. cbn [app]. split; [lia|]. split; [lia|].
  pose proof (indexFragments_loop api (batches docs)
                {| store := s; events := []; indexed := 0 |}) as H.
  rewrite Hb in H. cbn [indexed] in H. lia.
Qed.

Section PruneMoreFacts.
Context (V : Z).

Lemma filter_idem {A : Type} (p : A -> bool) (l : list A) :
  filter (fun d => p d = false) (filter (fun d => p d = false) l)
  = filter (fun d => p d = false) l.
Proof.
  induction l as [|x l IH]; [done|]. rewrite filter_cons.
  destruct (decide (p x = false)) as [E|E]; [|done].
  rewrite filter_cons, decide_True by done. by rewrite IH.
Qed.

End PruneMoreFacts.

(** X18.  Pruning never touches the current generation: a document
    whose [crawl_version] is not below the current one stays, in both
    collections; pruning only removes documents; and without a target
    host it removes nothing. *)
Theorem prune_keeps_current_generation (V : Z) (targetHost : option string)
    (fragmentsThrow pagesThrow : bool) (c : Collections) :
  let c' := pruneStaleDocs V targetHost fragmentsThrow pagesThrow c in
  (forall d, d ∈ content_fragments c -> (V <= Frag.crawl_version d)%Z ->
             d ∈ content_fragments c')
  /\ (forall d, d ∈ content_pages c -> (V <= Page.crawl_version d)%Z ->
                d ∈ content_pages c')
  /\ content_fragments c' `sublist_of` content_fragments c
  /\ content_pages c' `sublist_of` content_pages c
  /\ (Js.truthy targetHost = false -> c' = c).
Proof.
  cbv zeta. unfold pruneStaleDocs.
  destruct (Js.truthy targetHost); [|done].
  cbn [content_fragments content_pages].
  split; [|split; [|split; [|split]]].
  - intros d Hd Hv. destruct fragmentsThrow; [done|].
    apply list_elem_of_filter. split; [|done].
    unfold fragmentFilter. rewrite (proj2 (Z.ltb_ge _ _)) by done. done.
  - intros d Hd Hv. destruct pagesThrow; [done|].
    apply list_elem_of_filter. split; [|done].
    unfold pageFilter. rewrite (proj2 (Z.ltb_ge _ _)) by done. done.
  - destruct fragmentsThrow; [done|]. apply sublist_filter.
  - destruct pagesThrow; [done|]. apply sublist_filter.
  - done.
Qed.

(** X19.  Pruning twice is pruning once: a second prune with the same
    generation and target host, on what the first one left, deletes
    nothing. *)
Theorem prune_is_idempotent (V : Z) (targetHost : option string)
    (fragmentsThrow pagesThrow : bool) (c : Collections) :
  pruneStaleDocs V targetHost fragmentsThrow pagesThrow
    (pruneStaleDocs V targetHost fragmentsThrow pagesThrow c)
  = pruneStaleDocs V targetHost fragmentsThrow pagesThrow c.
Proof.
  unfold pruneStaleDocs. destruct (Js.truthy targetHost); [|done].
  cbn [content_fragments content_pages].
  destruct fragmentsThrow, pagesThrow; rewrite ?filter_idem; done.
Qed.

Lemma prune_keeps_pages_of_other_hosts_witness :
  Some (Page.host Scenario.otherHostPage) <> Some "my.gov.au"
  /\ In Scenario.otherHostPage (content_pages Scenario.twoHosts)
  /\ In Scenario.otherHostPage
        (content_pages (pruneStaleDocs 2%Z (Some "my.gov.au") false false Scenario.twoHosts)).
Proof.
  assert (Some (Page.host Scenario.otherHostPage) <> Some "my.gov.au") as H1
    by (vm_compute; discriminate).
  assert (In Scenario.otherHostPage (content_pages Scenario.twoHosts)) as H2
    by (right; left; reflexivity).
  split; [exact H1|]. split; [exact H2|].
  exact (prune_keeps_pages_of_other_hosts 2%Z (Some "my.gov.au") false false
           Scenario.twoHosts Scenario.otherHostPage H1 H2).
Defined.

Section BaseUrlFacts.
Context (P : Platform).

Import Normal.

Lemma splitOn_head (sep : ascii) (s : string) :
  let w := List.hd "" (Js.splitOn sep s) in
  allChars (fun c => negb (Ascii.eqb c sep)) w = true /\ String.prefix w s = true.
Proof.
  cbv zeta. induction s as [|c r IH]; [done|]. cbn [Js.splitOn].
  destruct (Ascii.eqb c sep) eqn:E; [done|].
  destruct (Js.splitOn sep r) as [|w ws]; cbn [List.hd] in *.
  - cbn. rewrite E. cbn. destruct (ascii_dec c c); [|done]. by destruct r.
  - destruct IH as [H1 H2]. cbn. rewrite E, H1. cbn.
    destruct (ascii_dec c c); done.
Qed.

Lemma includes_char (sep : ascii) (s : string) :
  allChars (fun c => negb (Ascii.eqb c sep)) s = true ->
  Js.includes (String sep "") s = false.
Proof.
  induction s as [|c r IH]; [done|]. cbn [allChars Js.includes].
  intros [Hc Hr]%andb_prop. rewrite IH by done. cbn.
  destruct (ascii_dec sep c) as [->|]; [|done].
  by rewrite Ascii.eqb_refl in Hc.
Qed.

End BaseUrlFacts.

(** X20.  When its argument does not parse as a URL, [baseUrl] returns
    what comes before the first [#]: a prefix of the argument that holds
    no [#]. *)
Theorem baseUrl_of_unparsable (P : Platform) (url : string) :
  new_URL P url None = None ->
  baseUrl P url = List.hd "" (Js.splitOn "#" url)
  /\ String.prefix (baseUrl P url) url = true
  /\ Js.includes "#" (baseUrl P url) = false.
Proof.
  intros E. unfold baseUrl. rewrite E.
  destruct (splitOn_head "#" url) as [H1 H2]. cbv zeta in *.
  split; [done|]. split; [done|]. by apply includes_char.
Qed.

Lemma baseUrl_of_unparsable_witness :
  new_URL Fixture.platform "see page 3#top" None = None
  /\ baseUrl Fixture.platform "see page 3#top" = "see page 3".
Proof.
  assert (new_URL Fixture.platform "see page 3#top" None = None) as E by reflexivity.
  split; [exact E|].
  rewrite (proj1 (baseUrl_of_unparsable Fixture.platform "see page 3#top" E)).
  reflexivity.
Defined.
(** ** Keywords *)

Section KeywordFacts.

Import Normal Keywords.

Implicit Types (m : list (string * nat)) (ws : list string) (k w : string).

(** The pieces of a split are made of the code units between the white
    space. *)
Lemma splitSpaces_allChars (p : ascii -> bool) (b : bool) (s : string) :
  allChars (fun c => p c || Js.isSpace c) s = true ->
  Forall (fun w => allChars p w = true) (splitSpacesFrom b s).
Proof.
  revert b. induction s as [|c r IH]; intros b; [by repeat constructor|].
  cbn [allChars splitSpacesFrom]. intros [Hc Hr]%andb_prop.
  destruct (Js.isSpace c) eqn:E.
  - destruct b; [by apply IH|]. constructor; [done|by apply IH].
  - rewrite orb_false_r in Hc. specialize (IH false Hr).
    destruct (splitSpacesFrom false r) as [|w ws'].
    + constructor; [|done]. cbn. by rewrite Hc.
    + apply Forall_cons in IH as [Hw Hws]. constructor; [|done]. cbn. by rewrite Hc, Hw.
Qed.

Lemma candidates_elem (text : string) w :
  w ∈ candidates text ->
  3 < String.length w /\ (w ∉ stopWords) /\ allChars isKeyChar w = true.
Proof.
  unfold candidates. intros [Hk Hw]%list_elem_of_filter.
  unfold keep in Hk. apply andb_prop in Hk as [Hlen Hstop].
  split; [by apply Nat.ltb_lt|]. split.
  - intros Hin. apply negb_true_iff in Hstop.
    assert (existsb (String.eqb w) stopWords = true) as E; [|congruence].
    apply existsb_exists. exists w. split; [by apply list_elem_of_In|apply String.eqb_refl].
  - clear Hlen Hstop. revert w Hw. apply Forall_forall, splitSpaces_allChars.
    unfold Js.toLowerCase. rewrite smap_smap.
    apply (allChars_smap (fun c => isKeyChar c || Js.isSpace c)), contentChar_range.
Qed.

(** [tally] counts every word but [__proto__]. *)
Lemma tally_step_countOf ws m k :
  k <> "__proto__" ->
  countOf k (fold_left (fun m w => if String.eqb w "__proto__" then m else countUp w m) ws m)
  = countOf k m + length (filter (fun x => x = k) ws).
Proof.
  intros Hk. revert m. induction ws as [|w ws IH]; intros m; cbn [fold_left].
  - cbn. lia.
  - rewrite IH, filter_cons. destruct (String.eqb_spec w "__proto__") as [->|Hw].
    + rewrite decide_False by done. done.
    + rewrite countOf_countUp. destruct (String.eqb_spec w k) as [->|Hne].
      * rewrite decide_True by done. cbn. lia.
      * rewrite decide_False by done. done.
Qed.

Lemma tally_step_entries ws m :
  NoDup (map fst m) -> (forall k n, (k, n) ∈ m -> 0 < n) ->
  let m' := fold_left (fun m w => if String.eqb w "__proto__" then m else countUp w m) ws m in
  NoDup (map fst m')
  /\ forall k n, (k, n) ∈ m' ->
       0 < n /\ (((k ∈ ws) /\ k <> "__proto__") \/ ((k, n) ∈ m) \/ (k ∈ map fst m)).
Proof.
  revert m. induction ws as [|w ws IH]; intros m Hnd Hpos; cbn [fold_left].
  - split; [done|]. intros k n Hin. split; [by apply (Hpos k)|]. right. by left.
  - destruct (String.eqb_spec w "__proto__") as [->|Hw].
    + destruct (IH m Hnd Hpos) as [H1 H2]. split; [done|].
      intros k n Hin. destruct (H2 k n Hin) as [Hn [[Hk Hk']|Hm]]; (split; [done|]).
      * left. split; [by right|done].
      * by right.
    + destruct (IH (countUp w m)) as [H1 H2].
      * by apply countUp_NoDup.
      * intros k n [[-> Hn]|Hin]%countUp_entry; [done|by apply (Hpos k)].
      * split; [done|]. intros k n Hin.
        destruct (H2 k n Hin) as [Hn [[Hk Hk']|[Hm|Hm]]]; (split; [done|]).
        -- left. split; [by right|done].
        -- apply countUp_entry in Hm as [[-> _]|Hm].
           ++ left. split; [by left|done].
           ++ right. by left.
        -- apply countUp_keys in Hm as [->|Hm].
           ++ left. split; [by left|done].
           ++ right. by right.
Qed.

Lemma tally_entries ws :
  NoDup (map fst (tally ws))
  /\ (forall k n, (k, n) ∈ tally ws ->
        (k ∈ ws) /\ k <> "__proto__" /\ n = length (filter (fun x => x = k) ws))
  /\ (forall k, k ∈ ws -> k <> "__proto__" ->
        (k, length (filter (fun x => x = k) ws)) ∈ tally ws).
Proof.
  destruct (tally_step_entries ws []) as [Hnd Hin]; [apply NoDup_nil_2| |].
  { intros k n H. by apply elem_of_nil in H. }
  cbv zeta in *. fold (tally ws) in *. split; [done|]. split.
  - intros k n Hkn. destruct (Hin k n Hkn) as [Hn [[Hk Hk']|[H|H]]];
      [|by apply elem_of_nil in H|by apply elem_of_nil in H].
    split; [done|]. split; [done|].
    rewrite <- (countOf_entry _ _ _ Hnd Hkn). unfold tally.
    by rewrite tally_step_countOf.
  - intros k Hk Hk'.
    replace (length (filter (fun x => x = k) ws)) with (countOf k (tally ws)).
    + apply countOf_pos_entry. unfold tally. rewrite tally_step_countOf by done.
      cbn. apply list_elem_of_In, in_split in Hk as (l1 & l2 & ->).
      rewrite filter_app, filter_cons, decide_True, length_app by done. cbn. lia.
    + unfold tally. by rewrite tally_step_countOf.
Qed.

Lemma insertByIndex_Permutation (x : N * (string * nat)) (l : list (N * (string * nat))) :
  insertByIndex x l ≡ₚ x :: l.
Proof.
  induction l as [|y l IH]; [done|]. cbn [insertByIndex].
  destruct (fst x <=? fst y)%N; [done|]. rewrite IH. apply perm_swap.
Qed.

(** Enumerating the keys reorders them, and no more. *)
Lemma entries_Permutation m : entries m ≡ₚ m.
Proof.
  unfold entries.
  assert (forall l : list (N * (string * nat)), fold_right insertByIndex [] l ≡ₚ l) as Hsort.
  { induction l as [|x l IH]; [done|]. cbn [fold_right].
    by rewrite insertByIndex_Permutation, IH. }
  rewrite Hsort. clear Hsort.
  induction m as [|x m IH]; [done|].
  cbn [omap list_omap]. rewrite filter_cons.
  destruct (arrayIndex (fst x)) as [i|] eqn:E.
  - rewrite decide_False by done. cbn [map snd app]. by rewrite IH.
  - rewrite decide_True by done. rewrite <- Permutation_middle. by rewrite IH.
Qed.

(** The keywords, read off the sorted entries. *)
Lemma extractKeywords_reordered (E : Engine) (text : string) :
  exists sorted,
    extractKeywords E text = map fst (take 10 sorted)
    /\ sorted ≡ₚ tally (candidates text).
Proof.
  eexists. split; [reflexivity|].
  by rewrite (sort_permutes E), entries_Permutation.
Qed.

Lemma entries_numbers (text : string) :
  ("constructor" ∉ candidates text) ->
  forallb isNumber (entries (tally (candidates text))) = true.
Proof.
  intros Hc. apply forallb_forall. intros [k n] Hin%list_elem_of_In.
  rewrite entries_Permutation in Hin.
  destruct (tally_entries (candidates text)) as (_ & H & _).
  destruct (H k n Hin) as (Hk & _ & _).
  unfold isNumber. cbn [fst]. apply negb_true_iff, String.eqb_neq.
  by intros ->.
Qed.

Lemma extractKeywords_sorted (E : Engine) (text : string) :
  ("constructor" ∉ candidates text) ->
  exists sorted,
    extractKeywords E text = map fst (take 10 sorted)
    /\ sorted ≡ₚ tally (candidates text)
    /\ descending sorted.
Proof.
  intros Hc. unfold extractKeywords.
  rewrite (sort_numbers E) by by apply entries_numbers.
  eexists. split; [reflexivity|]. split.
  - by rewrite sortByCountDesc_Permutation, entries_Permutation.
  - apply sortByCountDesc_descending.
Qed.

Lemma sorted_count (text : string) sorted k n :
  sorted ≡ₚ tally (candidates text) -> (k, n) ∈ sorted ->
  (k ∈ candidates text) /\ k <> "__proto__" /\ n = occurrences k text.
Proof.
  intros Hp Hin. rewrite Hp in Hin.
  destruct (tally_entries (candidates text)) as (_ & H & _).
  destruct (H k n Hin) as (H1 & H2 & H3). done.
Qed.

(** With at most ten entries the cut keeps them all. *)
Lemma extractKeywords_few (E : Engine) (text : string) :
  length (tally (candidates text)) <= 10 ->
  extractKeywords E text ≡ₚ map fst (tally (candidates text)).
Proof.
  destruct (extractKeywords_reordered E text) as (sorted & -> & Hp).
  intros Hlen. rewrite <- (Permutation_length Hp) in Hlen.
  rewrite take_ge by done. by rewrite Hp.
Qed.

End KeywordFacts.

(** X21.  What [extractKeywords] returns, for every text and whatever
    the engine does where the comparator yields NaN: at most ten words, no
    word twice, each one a word of the text in lower case, longer than
    three code units, not a stop word, made of [a-z], [0-9] and the
    underscore, and never [__proto__].  When the text has at most ten
    different words that are counted, the keywords are these words. *)
Theorem extractKeywords_shape (E : Keywords.Engine) (text : string) :
  length (Keywords.extractKeywords E text) <= 10
  /\ NoDup (Keywords.extractKeywords E text)
  /\ Forall (fun k =>
               (k ∈ Keywords.candidates text)
               /\ k <> "__proto__"
               /\ 3 < String.length k
               /\ (k ∉ Keywords.stopWords)
               /\ Normal.allChars Normal.isKeyChar k = true)
            (Keywords.extractKeywords E text)
  /\ (length (Keywords.tally (Keywords.candidates text)) <= 10 ->
      Keywords.extractKeywords E text
      ≡ₚ map fst (Keywords.tally (Keywords.candidates text))).
Proof.
  destruct (extractKeywords_reordered E text) as (sorted & -> & Hp).
  split; [rewrite length_map, length_take; lia|]. split; [|split].
  - destruct (tally_entries (Keywords.candidates text)) as (Hnd & _ & _).
    rewrite <- (Permutation_map fst Hp) in Hnd.
    rewrite <- (firstn_map fst). eapply sublist_NoDup; [exact Hnd|]. apply sublist_take.
  - apply Forall_forall. intros k Hk.
    apply list_elem_of_fmap in Hk as ([k' n] & -> & Hk%subseteq_take).
    destruct (sorted_count text sorted k' n Hp Hk) as (Hc & Hproto & _). cbn [fst].
    split; [done|]. split; [done|]. by apply (candidates_elem text).
  - intros Hlen. rewrite <- (Permutation_length Hp) in Hlen.
    rewrite take_ge by done. by rewrite Hp.
Qed.

(** X22.  For a text that has not the word [constructor] among its
    candidate words, the keywords are the most frequent candidate words,
    most frequent first: a keyword never occurs less often than one
    returned after it, and a candidate word that is left out (other than
    [__proto__], which is never counted) occurs no more often than any
    of the ten that are returned.  With [constructor] among the
    candidates the comparator yields NaN, and neither the order nor the
    choice of the ten is given by the frequencies. *)
Theorem extractKeywords_by_frequency (E : Keywords.Engine) (text : string) :
  ("constructor" ∉ Keywords.candidates text) ->
  (forall i j ki kj, i < j ->
     Keywords.extractKeywords E text !! i = Some ki ->
     Keywords.extractKeywords E text !! j = Some kj ->
     Keywords.occurrences kj text <= Keywords.occurrences ki text)
  /\ (forall w, w ∈ Keywords.candidates text -> w <> "__proto__" ->
        (w ∉ Keywords.extractKeywords E text) ->
        length (Keywords.extractKeywords E text) = 10
        /\ forall k, k ∈ Keywords.extractKeywords E text ->
             Keywords.occurrences w text <= Keywords.occurrences k text).
Proof.
  intros (sorted & -> & Hp & Hd)%(extractKeywords_sorted E). split.
  - intros i j ki kj Hij Hi Hj.
    rewrite list_lookup_fmap in Hi, Hj.
    destruct (take 10 sorted !! i) as [[ki' ni]|] eqn:Ei; [|done].
    destruct (take 10 sorted !! j) as [[kj' nj]|] eqn:Ej; [|done].
    cbn in Hi, Hj. injection Hi as ->. injection Hj as ->.
    pose proof (descending_lookup _ i j _ _ (descending_take 10 _ Hd) Hij Ei Ej) as Hle.
    apply list_elem_of_lookup_2, subseteq_take in Ei, Ej.
    destruct (sorted_count text sorted ki ni Hp Ei) as (_ & _ & ->).
    destruct (sorted_count text sorted kj nj Hp Ej) as (_ & _ & ->). done.
  - intros w Hw Hproto Hout.
    destruct (tally_entries (Keywords.candidates text)) as (_ & _ & Hall).
    specialize (Hall w Hw Hproto). rewrite <- Hp in Hall.
    rewrite <- (take_drop 10 sorted) in Hall.
    apply elem_of_app in Hall as [Hin|Hin].
    { exfalso. apply Hout. apply list_elem_of_fmap. by eexists (w, _). }
    split.
    + rewrite length_map, length_take.
      destruct (decide (10 <= length sorted)) as [|Hshort]; [lia|].
      rewrite drop_ge in Hin by lia. by apply elem_of_nil in Hin.
    + intros k ([k' n] & -> & Hk)%list_elem_of_fmap. cbn [fst].
      pose proof (descending_take_drop 10 sorted _ _ Hd Hk Hin) as Hle. cbn [snd] in Hle.
      apply subseteq_take in Hk.
      destruct (sorted_count text sorted k' n Hp Hk) as (_ & _ & ->). done.
Qed.

Lemma extractKeywords_by_frequency_witness :
  exists E : Keywords.Engine,
    ("constructor" ∉ Keywords.candidates "Claim the payment. Payment rates: see payment.")
    /\ Keywords.extractKeywords E "Claim the payment. Payment rates: see payment."
       = ["payment"; "claim"; "rates"]
    /\ Keywords.occurrences "claim" "Claim the payment. Payment rates: see payment."
       <= Keywords.occurrences "payment" "Claim the payment. Payment rates: see payment.".
Proof.
  pose (E := Keywords.mkEngine sortByCountDesc sortByCountDesc_Permutation
                              (fun _ _ => eq_refl)).
  exists E.
  assert ("constructor" ∉ Keywords.candidates "Claim the payment. Payment rates: see payment.")
    as Hc by (apply (bool_decide_unpack _); vm_compute; reflexivity).
  split; [exact Hc|]. split; [vm_compute; reflexivity|].
  refine (proj1 (extractKeywords_by_frequency E _ Hc) 0 1 "payment" "claim" _ _ _);
    [lia|vm_compute; reflexivity..].
Defined.

(** The order of the keys at work, on every engine: of two words that
    occur once, the one that reads as an array index comes first,
    wherever it stands in the text. *)
Example extractKeywords_numeric_first (E : Keywords.Engine) :
  Keywords.extractKeywords E "Rates from 2024" = ["2024"; "rates"].
Proof.
  unfold Keywords.extractKeywords.
  rewrite (Keywords.sort_numbers E) by (vm_compute; reflexivity).
  vm_compute. reflexivity.
Qed.

(** The word [constructor] at work, on every engine: alone it is the one
    keyword; beside others it is a keyword among them, in an order that
    the counts do not give. *)
Example extractKeywords_constructor (E : Keywords.Engine) :
  Keywords.extractKeywords E "constructor" = ["constructor"]
  /\ Keywords.extractKeywords E "alpha alpha constructor beta"
     ≡ₚ ["alpha"; "constructor"; "beta"].
Proof.
  split.
  - apply Permutation_singleton_r.
    apply (extractKeywords_few E "constructor"). vm_compute. lia.
  - apply (extractKeywords_few E "alpha alpha constructor beta"). vm_compute. lia.
Qed.
(** ** Component types, and the page of a crawl *)

Section ComponentFacts.
Context (P : Platform) (V : Z) (classify : Enricher).

Lemma enrich_metadata (f e : Frag.Raw) :
  enrichWithTaxonomy classify f = Some e ->
  Frag.component_type e = Frag.component_type f
  /\ Frag.has_form e = Frag.has_form f
  /\ Frag.has_checklist e = Frag.has_checklist f.
Proof.
  unfold enrichWithTaxonomy. destruct (classify f) as [t|]; [|done].
  intros [= <-]. done.
Qed.

Lemma detectComponentType_label (container : Dom.Node) :
  detectComponentType container
    ∈ ["form"; "table"; "checklist"; "alert"; "card"; "video"; "content"]
  /\ (detectComponentType container = "form"
      <-> found container (Dom.tags ["form"]) = true).
Proof.
  unfold detectComponentType.
  repeat match goal with
         | |- context [if ?b then _ else _] => destruct b
         end;
    (split; [repeat first [apply list_elem_of_here | apply list_elem_of_further]
            |split; done]).
Qed.

Lemma detectComponentTypeOf_label (elem : Dom.Node) :
  detectComponentTypeOf elem
    ∈ ["form"; "table"; "checklist"; "alert"; "info_box"; "content"].
Proof.
  unfold detectComponentTypeOf.
  repeat match goal with
         | |- context [if ?b then _ else _] => destruct b
         end;
    repeat first [apply list_elem_of_here | apply list_elem_of_further].
Qed.

Lemma pageKeys_single (fs : list Frag.Fragment) (page : string) :
  page <> "" -> fs <> [] -> (forall f, f ∈ fs -> pageOf P f = page) ->
  pageKeys P fs = [page].
Proof.
  intros Hne Hfs Hall.
  pose proof (pageKeys_NoDup P fs) as Hnd.
  assert (forall k, k ∈ pageKeys P fs <-> k = page) as Hk.
  { intros k. rewrite pageKeys_elem. split.
    - intros (_ & f & Hf & <-). by apply Hall.
    - intros ->. split; [done|]. destruct fs as [|f fs']; [done|].
      exists f. split; [by left|]. apply Hall. by left. }
  destruct (pageKeys P fs) as [|x [|y l]].
  - exfalso. apply (elem_of_nil page). by apply Hk.
  - f_equal. apply Hk. by left.
  - exfalso. apply NoDup_cons in Hnd as [Hx _]. apply Hx.
    assert (x = page) as -> by (apply Hk; by left).
    assert (y = page) as -> by (apply Hk; right; by left). by left.
Qed.

Lemma filter_all {A : Type} (p : A -> Prop) `{forall x, Decision (p x)} (l : list A) :
  (forall x, x ∈ l -> p x) -> filter p l = l.
Proof.
  induction l as [|x l IH]; [done|]. intros Hall. rewrite filter_cons.
  rewrite decide_True by (apply Hall; by left).
  rewrite IH; [done|]. intros y Hy. apply Hall. by right.
Qed.

End ComponentFacts.

(** X23.  [component_type] is one of a fixed set of labels: seven for a
    fragment under a heading, six for a standalone one.  Under a heading
    it agrees with [has_form]: the type is [form] exactly when the
    fragment holds a form.  A standalone fragment carries no [has_form]. *)
Theorem component_type_labels (P : Platform) (V : Z) (classify : Enricher)
    (root : Dom.Node) (url : string) (now : Z) :
  Forall (fun f =>
            (Frag.component_type (Frag.raw f)
               ∈ ["form"; "table"; "checklist"; "alert"; "card"; "video"; "content"])
            /\ (Frag.component_type (Frag.raw f) = "form"
                <-> Frag.has_form (Frag.raw f) = Some true))
         (headingFragments P V classify root url now)
  /\ Forall (fun f =>
               (Frag.component_type (Frag.raw f)
                  ∈ ["form"; "table"; "checklist"; "alert"; "info_box"; "content"])
               /\ Frag.has_form (Frag.raw f) = None)
            (standaloneFragments P V classify root url now).
Proof.
  split; apply Forall_forall; intros f Hf.
  - apply headingFragments_elem in Hf as (main & hp & next & _ & _ & Hf).
    apply headingFragment_elem in Hf as (e & He & ->). cbv zeta in He.
    apply enrich_metadata in He as (Hc & Hform & _).
    cbn [Frag.raw]. rewrite Hc, Hform.
    unfold extractFragment. cbn [Frag.component_type Frag.has_form].
    match goal with
    | |- context [detectComponentType ?c] =>
        destruct (detectComponentType_label c) as [Hl Hf]
    end.
    split; [done|]. destruct Hf as [Hf1 Hf2].
    split; [intros E; f_equal; by apply Hf1|intros [= E]; by apply Hf2].
  - apply standaloneFragments_elem in Hf as (ep & Hf).
    apply standaloneFragment_elem in Hf as (e & He & ->).
    apply enrich_metadata in He as (Hc & Hform & _).
    cbn [Frag.raw]. rewrite Hc, Hform. split; [|done].
    apply detectComponentTypeOf_label.
Qed.

(** X24.  The fragments extracted under the headings of one page
    aggregate into one page document: its URL is the base URL of the
    page, and it lists the identifiers of all of them, in document
    order. *)
Theorem heading_fragments_make_one_page (P : Platform) (V V' : Z) (classify : Enricher)
    (root : Dom.Node) (url : string) (now now' : Z) :
  baseUrl P url <> "" ->
  headingFragments P V classify root url now <> [] ->
  exists d,
    buildPageDocs P V' (headingFragments P V classify root url now) now' = [d]
    /\ Page.url d = baseUrl P url
    /\ Page.fragment_ids d
       = map Frag.idOf (headingFragments P V classify root url now)
    /\ Page.fragment_count d = length (headingFragments P V classify root url now).
Proof.
  intros Hbase Hfs.
  set (fs := headingFragments P V classify root url now) in *.
  assert (forall f, f ∈ fs -> pageOf P f = baseUrl P url) as Hall.
  { intros f Hf%list_elem_of_In%headingFragments_page_url.
    unfold pageOf. rewrite Hf. cbn [Js.truthy default from_option].
    destruct (Js.isEmpty (baseUrl P url)) eqn:E; [|done].
    by apply isEmpty_true in E. }
  rewrite buildPageDocs_grouped, (pageKeys_single P fs (baseUrl P url)) by done.
  cbn [map]. eexists. split; [reflexivity|].
  cbn [finalize Page.url Page.fragment_ids Page.fragment_count].
  rewrite accOf_url, accOf_ids, accOf_count. unfold fragmentsOfPage.
  rewrite filter_all by done. done.
Qed.

Lemma heading_fragments_make_one_page_witness :
  baseUrl Fixture.platform Fixture.paymentsUrl <> ""
  /\ headingFragments Fixture.platform 1%Z Fixture.national
       Fixture.paymentsPage Fixture.paymentsUrl 0%Z <> []
  /\ exists d,
       buildPageDocs Fixture.platform 2%Z
         (headingFragments Fixture.platform 1%Z Fixture.national
            Fixture.paymentsPage Fixture.paymentsUrl 0%Z) 5%Z = [d]
       /\ Page.url d = baseUrl Fixture.platform Fixture.paymentsUrl.
Proof.
  assert (baseUrl Fixture.platform Fixture.paymentsUrl <> "") as H1
    by (vm_compute; discriminate).
  assert (headingFragments Fixture.platform 1%Z Fixture.national
            Fixture.paymentsPage Fixture.paymentsUrl 0%Z <> []) as H2
    by (vm_compute; discriminate).
  split; [exact H1|]. split; [exact H2|].
  destruct (heading_fragments_make_one_page Fixture.platform 1%Z 2%Z Fixture.national
              Fixture.paymentsPage Fixture.paymentsUrl 0%Z 5%Z H1 H2) as (d & E & Hu & _).
  exists d. split; [exact E|exact Hu].
Defined.
